(** * The client registry of a distributed training fleet

    A shallow embedding of [elf/distri/client_manager.h]: the per-thread
    [State], the per-client [ClientInfo] and the registry [ClientManager],
    followed by the properties of the type-allocation policy, the liveness
    state machine, the heartbeat path and the locking hierarchy.

    Conventions of the embedding.
    - [uint64_t] values are integers reduced modulo [2^64] ([wrap64]);
      the [int] counters are integers.
    - [float] is IEEE-754 binary32, through the parameterised operations of
      [SpecFloat] at precision 24 and maximal exponent 128.
    - A method that mutates its object returns the new object.  What lies
      outside the objects (the injected timer and the history of lock
      events) is the [World], threaded through every call.
    - [assert] is taken as compiled in: a failed assertion ends the run
      with [AssertFailed].  An access outside a [std::vector] is
      [Undefined]. *)

From Stdlib Require Import ZArith Floats.SpecFloat.
From stdpp Require Import gmap strings list.

Local Open Scope Z_scope.

(** ** Outcomes of a call *)

Inductive outcome (A : Type) : Type :=
| Ok (a : A)
| AssertFailed
| Undefined.
Arguments Ok {A} a.
Arguments AssertFailed {A}.
Arguments Undefined {A}.

Definition obind {A B : Type} (x : outcome A) (f : A -> outcome B) : outcome B :=
  match x with
  | Ok a => f a
  | AssertFailed => AssertFailed
  | Undefined => Undefined
  end.

Notation "'do' p <- x ; k" := (obind x (fun p => k))
  (at level 10, p pattern, x at level 100, k at level 200).

Definition assert (b : bool) : outcome unit :=
  if b then Ok tt else AssertFailed.

(** [v[i]] on a [std::vector], the index being an [int]. *)
Definition vec_at {A : Type} (v : list A) (i : Z) : outcome A :=
  if bool_decide (0 <= i) then
    match v !! Z.to_nat i with
    | Some a => Ok a
    | None => Undefined
    end
  else Undefined.

(** ** Machine numbers *)

Definition wrap64 (z : Z) : Z := z mod 2 ^ 64.

(** binary32 *)
Definition float : Type := spec_float.
Definition f32_prec : Z := 24.
Definition f32_emax : Z := 128.

(** [static_cast<float>(i)], and the implicit conversion of an [int]
    operand of a [float] division. *)
Definition float_of_int (i : Z) : float :=
  binary_normalize f32_prec f32_emax i 0 false.

Definition fdiv (x y : float) : float := SFdiv f32_prec f32_emax x y.
Definition flt (x y : float) : bool := SFltb x y.

(** ** The world outside the objects: timer and locks *)

(** A [std::mutex] is represented by the name of the object it is a member
    of: the registry, the record of an identity, or a thread slot of such
    a record. *)
Inductive lock : Type :=
| L_manager
| L_client (identity : string)
| L_state (identity : string) (slot : nat).

Inductive lock_event : Type :=
| Acquire (l : lock)
| Release (l : lock).

(** [timer_] is the callable injected into the registry; being a
    [std::function] it may answer differently at each call, so it is given
    by its answer at the k-th call, and the world counts the calls. *)
Record World : Type := mkWorld {
  timer_ : nat -> Z;
  timer_calls : nat;
  lock_trace : list lock_event
}.

Definition emit (e : lock_event) (w : World) : World :=
  {| timer_ := timer_ w; timer_calls := timer_calls w;
     lock_trace := lock_trace w ++ [e] |}.

(** Construction and destruction of a [std::lock_guard]. *)
Definition lock_guard (l : lock) (w : World) : World := emit (Acquire l) w.
Definition unlock_guard (l : lock) (w : World) : World := emit (Release l) w.

(** [ClientManager::getCurrTimeStamp] *)
Definition getCurrTimeStamp (w : World) : Z * World :=
  (wrap64 (timer_ w (timer_calls w)),
   {| timer_ := timer_ w; timer_calls := S (timer_calls w);
      lock_trace := lock_trace w |}).

(** ** Types of [client_manager_def.h] *)

(** Modelled from the spec: [ClientType] is declared in
    [client_manager_def.h], which is not part of the sources; it is an
    integer ordinal ([int]). *)
Abbreviation ClientType := Z (only parsing).

(** Modelled from the spec: [CLIENT_INVALID] is declared in the same
    header; it is the invalid sentinel, the value a record holds before
    its first allocation ([type_ = -1]). *)
Definition CLIENT_INVALID : ClientType := -1.

(** Modelled from the spec: [ThreadState] is declared in
    [client_manager_def.h]; it carries the [thread_id] read by
    [ClientInfo::stateUpdate] and is otherwise an opaque snapshot compared
    by value, here an integer code. *)
Record ThreadState : Type := mkThreadState {
  thread_id : Z;
  snapshot : Z
}.

Global Instance ThreadState_eq_dec : EqDecision ThreadState.
Proof. solve_decision. Defined.

(** Modelled from the spec: [ClientManagerOptions] is declared in
    [client_manager_def.h]; these are the four members the registry reads. *)
Record ClientManagerOptions : Type := mkOptions {
  client_type_ratios : list float;
  client_type_limits : list Z;
  max_num_threads : Z;
  client_max_delay_sec : Z
}.

(** ** [ClientInfo::State] *)

Record State : Type := mkState {
  State_owner : string;
  State_slot : nat;
  last_state_ : ThreadState;
  last_state_update_ : Z
}.

(** The member [mutex_] of a [State]. *)
Definition State_mutex_ (st : State) : lock :=
  L_state (State_owner st) (State_slot st).

Inductive ClientChange : Type := ALIVE2DEAD | DEAD2ALIVE | ALIVE | DEAD.

Global Instance ClientChange_eq_dec : EqDecision ClientChange.
Proof. solve_decision. Defined.

Record ClientInfo : Type := mkClientInfo {
  identity_ : string;
  type_ : ClientType;
  max_delay_sec_ : Z;
  seq_ : Z;
  active_ : bool;
  last_update_ : Z;
  threads_ : list State
}.

(** The member [mutex_] of a [ClientInfo]. *)
Definition mutex_ (c : ClientInfo) : lock := L_client (identity_ c).

Section Registry.

(** The value of a default-constructed [ThreadState], fixed by the absent
    header. *)
Variable ThreadState_default : ThreadState.

(** [State::State]: the slot [slot] of the record of [owner]. *)
Definition State_new (owner : string) (slot : nat) (w : World) : State * World :=
  let '(now, w) := getCurrTimeStamp w in
  ({| State_owner := owner; State_slot := slot;
      last_state_ := ThreadState_default;
      last_state_update_ := now |}, w).

(** [State::StateUpdate] *)
Definition StateUpdate (st : State) (ts : ThreadState) (w : World)
  : bool * State * World :=
  let w := lock_guard (State_mutex_ st) w in
  if bool_decide (last_state_ st <> ts) then
    let '(now, w) := getCurrTimeStamp w in
    (true,
     {| State_owner := State_owner st; State_slot := State_slot st;
        last_state_ := ts; last_state_update_ := now |},
     unlock_guard (State_mutex_ st) w)
  else (false, st, unlock_guard (State_mutex_ st) w).

(** The loop of [ClientInfo::ClientInfo] that fills [threads_]. *)
Fixpoint new_threads (owner : string) (first : nat) (count : nat) (w : World)
  : list State * World :=
  match count with
  | O => ([], w)
  | S count' =>
      let '(st, w) := State_new owner first w in
      let '(rest, w) := new_threads owner (S first) count' w in
      (st :: rest, w)
  end.

(** [ClientInfo::ClientInfo] *)
Definition ClientInfo_new (id : string) (num_threads max_delay_sec : Z) (w : World)
  : ClientInfo * World :=
  let '(ths, w) := new_threads id 0 (Z.to_nat num_threads) w in
  let '(now, w) := getCurrTimeStamp w in
  ({| identity_ := id; type_ := -1; max_delay_sec_ := wrap64 max_delay_sec;
      seq_ := 0; active_ := true; last_update_ := now; threads_ := ths |}, w).

Definition set_type_field (c : ClientInfo) (t : ClientType) : ClientInfo :=
  {| identity_ := identity_ c; type_ := t; max_delay_sec_ := max_delay_sec_ c;
     seq_ := seq_ c; active_ := active_ c; last_update_ := last_update_ c;
     threads_ := threads_ c |}.

Definition set_active_field (c : ClientInfo) (a : bool) : ClientInfo :=
  {| identity_ := identity_ c; type_ := type_ c; max_delay_sec_ := max_delay_sec_ c;
     seq_ := seq_ c; active_ := a; last_update_ := last_update_ c;
     threads_ := threads_ c |}.

Definition set_seq_field (c : ClientInfo) (s : Z) : ClientInfo :=
  {| identity_ := identity_ c; type_ := type_ c; max_delay_sec_ := max_delay_sec_ c;
     seq_ := s; active_ := active_ c; last_update_ := last_update_ c;
     threads_ := threads_ c |}.

Definition set_threads_field (c : ClientInfo) (ths : list State) (upd : Z) : ClientInfo :=
  {| identity_ := identity_ c; type_ := type_ c; max_delay_sec_ := max_delay_sec_ c;
     seq_ := seq_ c; active_ := active_ c; last_update_ := upd;
     threads_ := ths |}.

(** Accessors of [ClientInfo]. *)
Definition ClientInfo_id (c : ClientInfo) : string := identity_ c.
Definition ClientInfo_seq (c : ClientInfo) : Z := seq_ c.
Definition justAllocated (c : ClientInfo) : bool := bool_decide (seq_ c = 0).
Definition incSeq (c : ClientInfo) : ClientInfo := set_seq_field c (seq_ c + 1).

Definition type (c : ClientInfo) (w : World) : ClientType * World :=
  let w := lock_guard (mutex_ c) w in
  (type_ c, unlock_guard (mutex_ c) w).

Definition set_type (c : ClientInfo) (t : ClientType) (w : World) : ClientInfo * World :=
  let w := lock_guard (mutex_ c) w in
  (set_type_field c t, unlock_guard (mutex_ c) w).

Definition IsActive (c : ClientInfo) (w : World) : bool * World :=
  let w := lock_guard (mutex_ c) w in
  (active_ c, unlock_guard (mutex_ c) w).

(** [IsStuck]: the delay is returned next to the verdict. *)
Definition IsStuck (c : ClientInfo) (curr_timestamp : Z) (w : World)
  : bool * Z * World :=
  let w := lock_guard (mutex_ c) w in
  let last_delay := wrap64 (curr_timestamp - last_update_ c) in
  (bool_decide (max_delay_sec_ c <= last_delay), last_delay,
   unlock_guard (mutex_ c) w).

(** [ClientInfo::threads] *)
Definition threads (c : ClientInfo) (thread_id : Z) (w : World)
  : outcome (State * World) :=
  let w := lock_guard (mutex_ c) w in
  do _ <- assert (bool_decide (0 <= thread_id)
                  && bool_decide (thread_id < Z.of_nat (length (threads_ c))));
  do st <- vec_at (threads_ c) thread_id;
  Ok (st, unlock_guard (mutex_ c) w).

(** [ClientInfo::stateUpdate] *)
Definition stateUpdate (c : ClientInfo) (ts : ThreadState) (w : World)
  : outcome (ClientInfo * World) :=
  let w := lock_guard (mutex_ c) w in
  do _ <- assert (bool_decide (0 <= thread_id ts)
                  && bool_decide (thread_id ts < Z.of_nat (length (threads_ c))));
  do st <- vec_at (threads_ c) (thread_id ts);
  let '(changed, st', w) := StateUpdate st ts w in
  let ths := <[Z.to_nat (thread_id ts) := st']> (threads_ c) in
  if changed then
    let '(now, w) := getCurrTimeStamp w in
    Ok (set_threads_field c ths now, unlock_guard (mutex_ c) w)
  else
    Ok (set_threads_field c ths (last_update_ c), unlock_guard (mutex_ c) w).

(** [ClientInfo::updateActive] *)
Definition updateActive (c : ClientInfo) (w : World)
  : ClientChange * ClientInfo * World :=
  let w := lock_guard (mutex_ c) w in
  let '(now, w) := getCurrTimeStamp w in
  let curr_active := bool_decide (wrap64 (now - last_update_ c) < max_delay_sec_ c) in
  if active_ c then
    if negb curr_active then
      (ALIVE2DEAD, set_active_field c false, unlock_guard (mutex_ c) w)
    else (ALIVE, c, unlock_guard (mutex_ c) w)
  else
    if curr_active then
      (DEAD2ALIVE, set_active_field c true, unlock_guard (mutex_ c) w)
    else (DEAD, c, unlock_guard (mutex_ c) w).

(** ** [ClientManager] *)

Record ClientManager : Type := mkClientManager {
  options_ : ClientManagerOptions;
  clients_ : gmap string ClientInfo;
  num_clients_ : list Z;
  n_ : Z
}.

Definition set_ratios (m : ClientManager) (ratio : list float) : ClientManager :=
  {| options_ :=
       {| client_type_ratios := ratio;
          client_type_limits := client_type_limits (options_ m);
          max_num_threads := max_num_threads (options_ m);
          client_max_delay_sec := client_max_delay_sec (options_ m) |};
     clients_ := clients_ m; num_clients_ := num_clients_ m; n_ := n_ m |}.

Definition set_counts (m : ClientManager) (counts : list Z) (n : Z) : ClientManager :=
  {| options_ := options_ m; clients_ := clients_ m;
     num_clients_ := counts; n_ := n |}.

(** Writing through a reference into [clients_]. *)
Definition put_client (m : ClientManager) (k : string) (c : ClientInfo) : ClientManager :=
  {| options_ := options_ m; clients_ := <[k := c]> (clients_ m);
     num_clients_ := num_clients_ m; n_ := n_ m |}.

(** The constructor. *)
Definition ClientManager_new (options : ClientManagerOptions) : outcome ClientManager :=
  do _ <- assert (bool_decide (length (client_type_ratios options)
                               = length (client_type_limits options)));
  Ok {| options_ := options; clients_ := ∅;
        num_clients_ := replicate (length (client_type_ratios options)) 0;
        n_ := 0 |}.

(** The loop of [alloc_type], from type [t] on, [count] types left. *)
Fixpoint alloc_scan (m : ClientManager) (t : ClientType) (count : nat)
    (pri0 pri1 : list ClientType) : outcome (list ClientType * list ClientType) :=
  match count with
  | O => Ok (pri0, pri1)
  | S count' =>
      do c <- vec_at (num_clients_ m) t;
      do lim <- vec_at (client_type_limits (options_ m)) t;
      let pri1 := if bool_decide (c < lim) then pri1 ++ [t] else pri1 in
      let curr_ratio := fdiv (float_of_int c) (float_of_int (n_ m)) in
      do r <- vec_at (client_type_ratios (options_ m)) t;
      let pri0 := if flt curr_ratio r then pri0 ++ [t] else pri0 in
      alloc_scan m (t + 1) count' pri0 pri1
  end.

(** [pri0[0]] if any, else [pri1[0]] if any, else the sentinel. *)
Definition t_choice_of (pri0 pri1 : list ClientType) : ClientType :=
  match pri0 with
  | t :: _ => t
  | [] => match pri1 with
          | t :: _ => t
          | [] => CLIENT_INVALID
          end
  end.

(** [ClientManager::alloc_type] *)
Definition alloc_type (m : ClientManager) : outcome (ClientType * ClientManager) :=
  if bool_decide (n_ m = 0) then Ok (0, m)
  else
    do pri <- alloc_scan m 0 (length (num_clients_ m)) [] [];
    let t_choice := t_choice_of pri.1 pri.2 in
    do _ <- assert (bool_decide (t_choice <> CLIENT_INVALID));
    do c <- vec_at (num_clients_ m) t_choice;
    Ok (t_choice,
        set_counts m (<[Z.to_nat t_choice := c + 1]> (num_clients_ m)) (n_ m + 1)).

(** [ClientManager::dealloc_type] *)
Definition dealloc_type (m : ClientManager) (t : ClientType) : outcome ClientManager :=
  do _ <- assert (bool_decide (0 <= t)
                  && bool_decide (t < Z.of_nat (length (num_clients_ m))));
  do c <- vec_at (num_clients_ m) t;
  Ok (set_counts m (<[Z.to_nat t := c - 1]> (num_clients_ m)) (n_ m - 1)).

(** The order in which a range-for visits the keys of [clients_]: a
    [std::unordered_map] leaves it unspecified. *)
Variable bucket_order : gmap string ClientInfo -> list string.

(** The loop of [updateClients] over the keys still to visit. *)
Fixpoint updateClients_loop (keys : list string) (m : ClientManager) (w : World)
    (newly_dead newly_alive : list string)
  : outcome (ClientManager * World * (list string * list string)) :=
  match keys with
  | [] => Ok (m, w, (newly_dead, newly_alive))
  | k :: keys' =>
      match clients_ m !! k with
      | None => updateClients_loop keys' m w newly_dead newly_alive
      | Some c =>
          let '(status, c, w) := updateActive c w in
          let m := put_client m k c in
          match status with
          | ALIVE2DEAD =>
              let '(t, w) := type c w in
              do m <- dealloc_type m t;
              updateClients_loop keys' m w (newly_dead ++ [k]) newly_alive
          | DEAD2ALIVE =>
              do a <- alloc_type m;
              let '(c, w) := set_type c a.1 w in
              updateClients_loop keys' (put_client a.2 k c) w
                newly_dead (newly_alive ++ [k])
          | _ => updateClients_loop keys' m w newly_dead newly_alive
          end
      end
  end.

(** [ClientManager::updateClients].  The report written to [std::cout] is
    left out; the timestamp it prints is one more call of the timer. *)
Definition updateClients (m : ClientManager) (w : World)
  : outcome (ClientManager * World) :=
  do r <- updateClients_loop (bucket_order (clients_ m)) m w [] [];
  let '(m, w, (newly_dead, newly_alive)) := r in
  match newly_dead, newly_alive with
  | [], [] => Ok (m, w)
  | _, _ => Ok (m, (getCurrTimeStamp w).2)
  end.

(** [ClientManager::_getClient].  The reference it returns is the entry of
    [identity] in [clients_]; the record is returned next to the registry
    that holds it. *)
Definition _getClient (m : ClientManager) (identity : string) (w : World)
  : outcome (ClientInfo * ClientManager * World) :=
  match clients_ m !! identity with
  | Some c => Ok (c, m, w)
  | None =>
      let '(e, w) :=
        ClientInfo_new identity (max_num_threads (options_ m))
                       (client_max_delay_sec (options_ m)) w in
      let m := put_client m identity e in
      do a <- alloc_type m;
      let '(e, w) := set_type e a.1 w in
      Ok (e, put_client a.2 identity e, w)
  end.

(** The loop of [updateStates] over the pairs of [states], in the order
    the range-for visits them: only [s.second] is used. *)
Fixpoint updateStates_loop (states : list (Z * ThreadState)) (info : ClientInfo)
    (w : World) : outcome (ClientInfo * World) :=
  match states with
  | [] => Ok (info, w)
  | s :: states' =>
      do r <- stateUpdate info s.2 w;
      updateStates_loop states' r.1 r.2
  end.

(** [ClientManager::updateStates].  [info] aliases the entry of [identity],
    which nothing else reads before the loop is over; the reference
    returned is that entry in the final registry. *)
Definition updateStates (m : ClientManager) (identity : string)
    (states : list (Z * ThreadState)) (w : World)
  : outcome (ClientManager * World) :=
  let w := lock_guard L_manager w in
  do g <- _getClient m identity w;
  let '(info, m, w) := g in
  do r <- updateStates_loop states info w;
  let '(info, w) := r in
  let m := put_client m identity info in
  do u <- updateClients m w;
  let '(m, w) := u in
  Ok (m, unlock_guard L_manager w).

(** [ClientManager::setClientTypeRatio] *)
Definition setClientTypeRatio (m : ClientManager) (ratio : list float) (w : World)
  : ClientManager * World :=
  let w := lock_guard L_manager w in
  (set_ratios m ratio, unlock_guard L_manager w).

(** [ClientManager::getClientC]: [None] is the null pointer. *)
Definition getClientC (m : ClientManager) (identity : string) (w : World)
  : option ClientInfo * World :=
  let w := lock_guard L_manager w in
  (clients_ m !! identity, unlock_guard L_manager w).

(** [ClientManager::getClient] *)
Definition getClient (m : ClientManager) (identity : string) (w : World)
  : outcome (ClientManager * World) :=
  let w := lock_guard L_manager w in
  do g <- _getClient m identity w;
  let '(_, m, w) := g in
  Ok (m, unlock_guard L_manager w).

(** [ClientManager::info], without the text of [options_.info()]: the
    share and the count of every type, or nothing when [n_ <= 0]. *)
Definition info (m : ClientManager) (w : World) : list (ClientType * float * Z) * World :=
  let w := lock_guard L_manager w in
  let rows :=
    if bool_decide (0 < n_ m) then
      imap (fun t c => (Z.of_nat t, fdiv (float_of_int c) (float_of_int (n_ m)), c))
           (num_clients_ m)
    else [] in
  (rows, unlock_guard L_manager w).

(** ** Sequences of calls *)

(** The public methods of a record, called through a reference obtained
    from [getClient] or [updateStates]. *)
Inductive client_call : Type :=
| Call_incSeq
| Call_type
| Call_set_type (t : ClientType)
| Call_IsActive
| Call_IsStuck (curr_timestamp : Z)
| Call_stateUpdate (ts : ThreadState)
| Call_updateActive
| Call_threads (thread_id : Z).

Definition run_client_call (call : client_call) (c : ClientInfo) (w : World)
  : outcome (ClientInfo * World) :=
  match call with
  | Call_incSeq => Ok (incSeq c, w)
  | Call_type => Ok (c, (type c w).2)
  | Call_set_type t => Ok (set_type c t w)
  | Call_IsActive => Ok (c, (IsActive c w).2)
  | Call_IsStuck curr => Ok (c, (IsStuck c curr w).2)
  | Call_stateUpdate ts => stateUpdate c ts w
  | Call_updateActive => let '(_, c, w) := updateActive c w in Ok (c, w)
  | Call_threads tid => do r <- threads c tid w; Ok (c, r.2)
  end.

(** The public methods of the registry; [Op_client] is a call on the
    record of an identity, which does nothing when there is none to hold a
    reference to. *)
Inductive op : Type :=
| Op_setClientTypeRatio (ratio : list float)
| Op_updateStates (identity : string) (states : list (Z * ThreadState))
| Op_getClientC (identity : string)
| Op_getClient (identity : string)
| Op_getCurrTimeStamp
| Op_info
| Op_client (identity : string) (call : client_call).

Definition run_op (o : op) (m : ClientManager) (w : World)
  : outcome (ClientManager * World) :=
  match o with
  | Op_setClientTypeRatio ratio => Ok (setClientTypeRatio m ratio w)
  | Op_updateStates identity states => updateStates m identity states w
  | Op_getClientC identity => Ok (m, (getClientC m identity w).2)
  | Op_getClient identity => getClient m identity w
  | Op_getCurrTimeStamp => Ok (m, (getCurrTimeStamp w).2)
  | Op_info => Ok (m, (info m w).2)
  | Op_client identity call =>
      match clients_ m !! identity with
      | None => Ok (m, w)
      | Some c =>
          do r <- run_client_call call c w;
          Ok (put_client m identity r.1, r.2)
      end
  end.

Fixpoint run_ops (ops : list op) (m : ClientManager) (w : World)
  : outcome (ClientManager * World) :=
  match ops with
  | [] => Ok (m, w)
  | o :: ops' => do r <- run_op o m w; run_ops ops' r.1 r.2
  end.

End Registry.

(** The registry counters as the specification reads them. *)
Definition sum_counts (m : ClientManager) : Z := foldr Z.add 0 (num_clients_ m).

Definition active_records (m : ClientManager) : Z :=
  Z.of_nat (length (List.filter (fun p => active_ p.2) (map_to_list (clients_ m)))).

(** The type held by the record of an identity. *)
Definition type_of (m : ClientManager) (identity : string) : option ClientType :=
  type_ <$> clients_ m !! identity.

(** One fixed visiting order, for running examples: that of the list of
    entries of the map. *)
Definition entries_order (cs : gmap string ClientInfo) : list string :=
  (map_to_list cs).*1.

(** * Vocabulary of the properties *)

(** ** Readings, bounds and the liveness machine *)

(** The reading the timer gives at its next call. *)
Definition now_of (w : World) : Z := wrap64 (timer_ w (timer_calls w)).

Definition in_bounds (c : ClientInfo) (tid : Z) : Prop :=
  0 <= tid < Z.of_nat (length (threads_ c)).

(** The liveness state machine: the answer of a sweep, from the cached flag
    and the freshly computed one. *)
Definition transition (cached curr_active : bool) : ClientChange :=
  match cached, curr_active with
  | true, true => ALIVE
  | true, false => ALIVE2DEAD
  | false, true => DEAD2ALIVE
  | false, false => DEAD
  end.

(** [now - last_update_ < max_delay_sec_], in [uint64_t]. *)
Definition curr_active_at (c : ClientInfo) (now : Z) : bool :=
  bool_decide (wrap64 (now - last_update_ c) < max_delay_sec_ c).

(** ** The allocation policy and the counters *)

(** [num_clients_[t] / n_ < client_type_ratios[t]] in [float]; [false]
    outside the vectors. *)
Definition under_ratio (m : ClientManager) (t : ClientType) : bool :=
  match vec_at (num_clients_ m) t, vec_at (client_type_ratios (options_ m)) t with
  | Ok c, Ok r => flt (fdiv (float_of_int c) (float_of_int (n_ m))) r
  | _, _ => false
  end.

(** [num_clients_[t] < client_type_limits[t]]; [false] outside the vectors. *)
Definition under_limit (m : ClientManager) (t : ClientType) : bool :=
  match vec_at (num_clients_ m) t, vec_at (client_type_limits (options_ m)) t with
  | Ok c, Ok lim => bool_decide (c < lim)
  | _, _ => false
  end.

(** The number of types, and the types in ascending order. *)
Definition num_types (m : ClientManager) : Z := Z.of_nat (length (num_clients_ m)).
Definition all_types (m : ClientManager) : list ClientType := seqZ 0 (num_types m).

(** The configuration gives a ratio and a limit to every type: what the
    constructor asserts and establishes. *)
Definition sized (m : ClientManager) : Prop :=
  length (client_type_ratios (options_ m)) = length (num_clients_ m)
  /\ length (client_type_limits (options_ m)) = length (num_clients_ m).

(** [t] is the lowest type that satisfies [P]. *)
Definition lowest (m : ClientManager) (P : ClientType -> bool) (t : ClientType) : Prop :=
  0 <= t < num_types m /\ P t = true
  /\ forall t', 0 <= t' < t -> P t' = false.

(** No type satisfies [P]. *)
Definition none_of (m : ClientManager) (P : ClientType -> bool) : Prop :=
  forall t, 0 <= t < num_types m -> P t = false.

(** The registry after [num_clients_[t]++; n_++]. *)
Definition allocated (m : ClientManager) (t : ClientType) : ClientManager :=
  set_counts m (alter (fun c => c + 1) (Z.to_nat t) (num_clients_ m)) (n_ m + 1).

(** What the two counters satisfy at all times: [n_] is the sum of
    [num_clients_], and it is never positive, because [alloc_type] counts
    nothing when [n_] is 0. *)
Definition counted (m : ClientManager) : Prop :=
  n_ m = sum_counts m /\ n_ m <= 0.

(** ** Timestamps and what a call keeps *)

(** The timestamps of a record: its own and, in its slots, those of its
    threads. *)
Definition stamps (c : ClientInfo) : Z * list State := (last_update_ c, threads_ c).

(** [m'] has the records of [m], with the same timestamps and slots. *)
Definition keeps (m m' : ClientManager) : Prop :=
  forall id, stamps <$> clients_ m' !! id = stamps <$> clients_ m !! id.

(** The readings of the timer never decrease. *)
Definition monotone_timer (w : World) : Prop :=
  forall i j : nat, (i <= j)%nat -> wrap64 (timer_ w i) <= wrap64 (timer_ w j).

(** [z] is at most every reading still to come. *)
Definition past (w : World) (z : Z) : Prop :=
  forall k : nat, (timer_calls w <= k)%nat -> z <= wrap64 (timer_ w k).

Definition client_stamped (w : World) (c : ClientInfo) : Prop :=
  past w (last_update_ c)
  /\ Forall (fun st => past w (last_state_update_ st)) (threads_ c).

Definition stamped (w : World) (m : ClientManager) : Prop :=
  forall id c, clients_ m !! id = Some c -> client_stamped w c.

Definition state_le (st st' : State) : Prop :=
  last_state_update_ st <= last_state_update_ st'.

Definition client_le (c c' : ClientInfo) : Prop :=
  last_update_ c <= last_update_ c'
  /\ Forall2 state_le (threads_ c) (threads_ c').

Definition registry_le (m m' : ClientManager) : Prop :=
  forall id c, clients_ m !! id = Some c ->
               exists c', clients_ m' !! id = Some c' /\ client_le c c'.

(** [w'] comes after [w] for the timer: the same callable, no fewer calls. *)
Definition later (w w' : World) : Prop :=
  timer_ w' = timer_ w /\ (timer_calls w <= timer_calls w')%nat.

(** ** Lock scopes and interleaved threads *)

(** The three levels of the locking hierarchy. *)
Definition rank (l : lock) : nat :=
  match l with
  | L_manager => 0
  | L_client _ => 1
  | L_state _ _ => 2
  end.

(** [scoped k evs]: the events [evs] are a sequence of guard scopes, each
    opened on a lock of rank at least [k], closed by the release of the
    same lock, and holding inside only scopes of strictly greater rank. *)
Inductive scoped : nat -> list lock_event -> Prop :=
| scoped_nil (k : nat) : scoped k []
| scoped_guard (k : nat) (l : lock) (body rest : list lock_event) :
    (k <= rank l)%nat ->
    scoped (S (rank l)) body ->
    scoped k rest ->
    scoped k (Acquire l :: body ++ Release l :: rest).

(** From [w] to [w']: the same timer, no fewer calls of it, and more lock
    events that are scoped at level [k]. *)
Definition world_step (k : nat) (w w' : World) : Prop :=
  timer_ w' = timer_ w
  /\ (timer_calls w <= timer_calls w')%nat
  /\ exists evs, lock_trace w' = lock_trace w ++ evs /\ scoped k evs.

Global Instance lock_eq_dec : EqDecision lock.
Proof. solve_decision. Defined.

(** The locks a thread holds after [evs], innermost first, when it held
    [held] before; [None] as soon as it acquires a lock that is not of
    strictly greater rank than every lock it holds, or releases a lock
    other than the innermost. *)
Fixpoint held_after (held : list lock) (evs : list lock_event) : option (list lock) :=
  match evs with
  | [] => Some held
  | Acquire l :: evs' =>
      if forallb (fun l' => rank l' <? rank l)%nat held
      then held_after (l :: held) evs'
      else None
  | Release l :: evs' =>
      match held with
      | l0 :: held' => if bool_decide (l0 = l) then held_after held' evs' else None
      | [] => None
      end
  end.

(** The events of a thread respect the hierarchy and leave no lock held. *)
Definition hierarchical (evs : list lock_event) : Prop := held_after [] evs = Some [].

(** Held locks in strictly descending rank, innermost first: at most one
    lock of each level. *)
Fixpoint descending (held : list lock) : Prop :=
  match held with
  | [] => True
  | l :: held' => Forall (fun l' => (rank l' < rank l)%nat) held' /\ descending held'
  end.

(** Threads interleaved at their lock events.  A thread has the locks it
    holds and the events it has still to perform. *)
Record thread : Type := mkThread {
  holding : list lock;
  pending : list lock_event
}.

(** No thread holds [l]. *)
Definition lock_free (cfg : list thread) (l : lock) : Prop :=
  Forall (fun t => l ∉ holding t) cfg.

(** A [std::mutex] is acquired when no thread holds it; the acquiring
    thread waits otherwise. *)
Inductive thread_step (cfg : list thread) : thread -> thread -> Prop :=
| acquire_step (l : lock) (h : list lock) (rest : list lock_event) :
    lock_free cfg l ->
    thread_step cfg (mkThread h (Acquire l :: rest)) (mkThread (l :: h) rest)
| release_step (l : lock) (h : list lock) (rest : list lock_event) :
    thread_step cfg (mkThread (l :: h) (Release l :: rest)) (mkThread h rest).

Inductive step : list thread -> list thread -> Prop :=
| step_thread (cfg : list thread) (i : nat) (t t' : thread) :
    cfg !! i = Some t -> thread_step cfg t t' -> step cfg (<[i := t']> cfg).

(** The threads at the start, each with the events of its calls. *)
Definition start (programs : list (list lock_event)) : list thread :=
  map (mkThread []) programs.

Definition finished (cfg : list thread) : Prop :=
  Forall (fun t => pending t = []) cfg.

(** A thread on course: what it has still to do respects the hierarchy
    from the locks it holds, and ends with none held. *)
Definition on_course (t : thread) : Prop :=
  held_after (holding t) (pending t) = Some [].

(** No lock is held by two threads. *)
Definition exclusive (cfg : list thread) : Prop :=
  forall (i j : nat) (t t' : thread) (l : lock),
    cfg !! i = Some t -> cfg !! j = Some t' ->
    l ∈ holding t -> l ∈ holding t' -> i = j.

(** Thread [i] waits for thread [j]: its next event acquires a lock that
    [j] holds. *)
Definition waits_for (cfg : list thread) (i j : nat) : Prop :=
  exists (t t' : thread) (l : lock) (rest : list lock_event),
    cfg !! i = Some t /\ pending t = Acquire l :: rest
    /\ cfg !! j = Some t' /\ l ∈ holding t'.

(** A deadlock: a set of threads, not empty, each of which waits for a
    thread of the set. *)
Definition deadlocked (cfg : list thread) (D : nat -> Prop) : Prop :=
  (exists i, D i) /\ forall i, D i -> exists j, D j /\ waits_for cfg i j.

(** ** Registries, records and worlds for runs *)

(** binary32 constants *)
Definition f32_zero : float := S754_zero false.
Definition f32_half : float := S754_finite false 8388608 (-24).
Definition f32_one : float := S754_finite false 8388608 (-23).

(** A record with one thread slot, last active at 1000, and worlds whose
    timer answers a fixed value. *)
Definition sample_state : State :=
  {| State_owner := "a"; State_slot := 0;
     last_state_ := {| thread_id := 0; snapshot := 0 |};
     last_state_update_ := 1000 |}.

Definition sample_client : ClientInfo :=
  {| identity_ := "a"; type_ := 0; max_delay_sec_ := 300; seq_ := 0;
     active_ := true; last_update_ := 1000; threads_ := [sample_state] |}.

Definition world_at (t : Z) : World :=
  {| timer_ := fun _ => t; timer_calls := 0; lock_trace := [] |}.

(** Two types with equal targets, one client of each: no type is below its
    ratio, both are below their limit. *)
Definition balanced_registry : ClientManager :=
  {| options_ := {| client_type_ratios := [f32_half; f32_half];
                    client_type_limits := [100; 100];
                    max_num_threads := 1; client_max_delay_sec := 300 |};
     clients_ := ∅; num_clients_ := [1; 1]; n_ := 2 |}.

(** All the weight on type 0, whose limit of one client is reached, with
    two clients alive, one of each type. *)
Definition saturated_registry : ClientManager :=
  {| options_ := {| client_type_ratios := [f32_one; f32_zero];
                    client_type_limits := [1; 100];
                    max_num_threads := 1; client_max_delay_sec := 300 |};
     clients_ := ∅; num_clients_ := [1; 1]; n_ := 2 |}.

(** Equal targets for two types, generous limits, one thread per client,
    a timeout of 300 seconds. *)
Definition even_options : ClientManagerOptions :=
  {| client_type_ratios := [f32_half; f32_half];
     client_type_limits := [100; 100];
     max_num_threads := 1; client_max_delay_sec := 300 |}.

Definition fresh_even_registry : ClientManager :=
  {| options_ := even_options; clients_ := ∅; num_clients_ := [0; 0]; n_ := 0 |}.

(** A default [ThreadState] and a first report of thread 0, for runs. *)
Definition blank_state : ThreadState := {| thread_id := -1; snapshot := 0 |}.
Definition first_report : list (Z * ThreadState) :=
  [(0, {| thread_id := 0; snapshot := 1 |})].

(** A heartbeat in a run. *)
Definition heartbeat (identity : string) (r : ClientManager * World)
  : outcome (ClientManager * World) :=
  updateStates blank_state entries_order r.1 identity first_report r.2.

(** A world whose timer climbs from 1000 to 2000 and stays there. *)
Definition ramp_world : World :=
  {| timer_ := fun k => Z.min (1000 + Z.of_nat k) 2000;
     timer_calls := 0; lock_trace := [] |}.

(** A registry that already holds a client with two thread slots. *)
Definition two_slot_client : ClientInfo :=
  {| identity_ := "a"; type_ := 0; max_delay_sec_ := 300; seq_ := 0;
     active_ := true; last_update_ := 1000;
     threads_ :=
       [ {| State_owner := "a"; State_slot := 0;
            last_state_ := blank_state; last_state_update_ := 1000 |};
         {| State_owner := "a"; State_slot := 1;
            last_state_ := blank_state; last_state_update_ := 1000 |} ] |}.

Definition two_slot_registry : ClientManager :=
  {| options_ := even_options; clients_ := {[ "a" := two_slot_client ]};
     num_clients_ := [0; 0]; n_ := 0 |}.

(** A value that names thread 1, filed by the caller under key 0. *)
Definition report_of_thread_1 : ThreadState := {| thread_id := 1; snapshot := 5 |}.

(** The lock events of the first heartbeat of client "a". *)
Definition heartbeat_events : list lock_event :=
  [Acquire L_manager; Acquire (L_client "a"); Release (L_client "a");
   Acquire (L_client "a"); Acquire (L_state "a" 0); Release (L_state "a" 0);
   Release (L_client "a"); Acquire (L_client "a"); Release (L_client "a");
   Release L_manager].

(** Two threads with these events, the first of which has taken the
    registry lock. *)
Definition one_in_registry : list thread :=
  <[0%nat := mkThread [L_manager] (tail heartbeat_events)]>
    (start [heartbeat_events; heartbeat_events]).

(** Equal targets, a limit of one client on type 1, and a timer that jumps
    from 1000 to 2000 after its seventh call: two clients register, time
    out, and three more register. *)
Definition tight_options : ClientManagerOptions :=
  {| client_type_ratios := [f32_half; f32_half];
     client_type_limits := [100; 1];
     max_num_threads := 1; client_max_delay_sec := 300 |}.

Definition fresh_tight_registry : ClientManager :=
  {| options_ := tight_options; clients_ := ∅; num_clients_ := [0; 0]; n_ := 0 |}.

Definition jump_world : World :=
  {| timer_ := fun k => if (k <? 7)%nat then 1000 else 2000;
     timer_calls := 0; lock_trace := [] |}.

(** ** Frames of records, reports and registries in use *)

Definition no_type_registry : ClientManager :=
  {| options_ := {| client_type_ratios := []; client_type_limits := [];
                    max_num_threads := 1; client_max_delay_sec := 300 |};
     clients_ := ∅; num_clients_ := []; n_ := 0 |}.

(** What a heartbeat leaves alone in a record: everything but the slots'
    contents and [last_update_]. *)
Definition frame (c : ClientInfo) : string * Z * Z * Z * bool * nat :=
  (identity_ c, type_ c, max_delay_sec_ c, seq_ c, active_ c, length (threads_ c)).

(** The state slot [i] holds after the reports of [states], visited in
    order, when it held [init] before: the last report that names it. *)
Definition last_report (i : nat) (states : list (Z * ThreadState)) (init : ThreadState)
  : ThreadState :=
  foldl (fun acc s => if bool_decide (Z.to_nat (thread_id s.2) = i) then s.2 else acc)
        init states.

(** Every report repeats what its slot holds. *)
Definition repeats (c : ClientInfo) (states : list (Z * ThreadState)) : Prop :=
  Forall (fun s => 0 <= thread_id s.2
                   /\ exists st, threads_ c !! Z.to_nat (thread_id s.2) = Some st
                                 /\ last_state_ st = s.2) states.

(** Two reports for thread 1, under other keys, and none for thread 0. *)
Definition two_reports : list (Z * ThreadState) :=
  [(0, report_of_thread_1); (5, {| thread_id := 1; snapshot := 9 |})].

(** What a sweep leaves alone in a record: everything but [type_] and
    [active_]. *)
Definition core (c : ClientInfo) : string * Z * Z * Z * list State :=
  (identity_ c, max_delay_sec_ c, seq_ c, last_update_ c, threads_ c).

(** No record is due for a transition at any reading still to come. *)
Definition settled (w : World) (m : ClientManager) : Prop :=
  forall (k : string) (c : ClientInfo) (j : nat),
    clients_ m !! k = Some c -> (timer_calls w <= j)%nat ->
    curr_active_at c (wrap64 (timer_ w j)) = active_ c.

(** The identity a call may add a record for. *)
Definition added (o : op) : gset string :=
  match o with
  | Op_updateStates identity _ => {[ identity ]}
  | Op_getClient identity => {[ identity ]}
  | _ => ∅
  end.

(** The part of the configuration no call changes, and the length of the
    vector of counters. *)
Definition configured (options : ClientManagerOptions) (m : ClientManager) : Prop :=
  client_type_limits (options_ m) = client_type_limits options
  /\ max_num_threads (options_ m) = max_num_threads options
  /\ client_max_delay_sec (options_ m) = client_max_delay_sec options
  /\ length (num_clients_ m) = length (client_type_limits options).

(** Every record is filed under its own identity, with the configured
    number of slots and timeout. *)
Definition well_filed (options : ClientManagerOptions) (m : ClientManager) : Prop :=
  forall (k : string) (c : ClientInfo),
    clients_ m !! k = Some c ->
    identity_ c = k
    /\ length (threads_ c) = Z.to_nat (max_num_threads options)
    /\ max_delay_sec_ c = wrap64 (client_max_delay_sec options).

(** What no call changes in a record. *)
Definition shape (c : ClientInfo) : string * Z * nat :=
  (identity_ c, max_delay_sec_ c, length (threads_ c)).

(** The identities a run may add records for. *)
Definition added_by (ops : list op) : gset string := ⋃ (added <$> ops).

(** Four registrations, with a timeout between the second and the third. *)
Definition four_heartbeats : list op :=
  [Op_updateStates "a" []; Op_updateStates "b" [];
   Op_updateStates "c" []; Op_updateStates "d" []].

Definition after_four_heartbeats : ClientManager * World :=
  match run_ops blank_state entries_order four_heartbeats fresh_tight_registry jump_world with
  | Ok r => r
  | _ => (fresh_tight_registry, jump_world)
  end.

(** The registry after the only record of [two_slot_registry] has timed
    out, and after a first [getClient]. *)
Definition after_timeout : ClientManager * World :=
  match updateClients entries_order two_slot_registry (world_at 2000) with
  | Ok r => r
  | _ => (two_slot_registry, world_at 2000)
  end.

Definition after_first_getClient : ClientManager * World :=
  match getClient blank_state fresh_even_registry "a" (world_at 1000) with
  | Ok r => r
  | _ => (fresh_even_registry, world_at 1000)
  end.

(** * Properties *)

Lemma wrap64_small z : 0 <= z < 2 ^ 64 -> wrap64 z = z.
Proof. intros H. unfold wrap64. apply Z.mod_small. exact H. Qed.

(** ** The per-thread state *)

Lemma StateUpdate_differs st ts w :
  last_state_ st <> ts ->
  StateUpdate st ts w =
    (true,
     {| State_owner := State_owner st; State_slot := State_slot st;
        last_state_ := ts; last_state_update_ := now_of w |},
     unlock_guard (State_mutex_ st)
       (getCurrTimeStamp (lock_guard (State_mutex_ st) w)).2).
Proof.
  intros Hne. unfold StateUpdate.
  rewrite bool_decide_eq_true_2 by exact Hne. reflexivity.
Qed.

Lemma StateUpdate_same st w :
  StateUpdate st (last_state_ st) w =
    (false, st, unlock_guard (State_mutex_ st) (lock_guard (State_mutex_ st) w)).
Proof.
  unfold StateUpdate.
  rewrite bool_decide_eq_false_2 by (intros H; apply H; reflexivity).
  reflexivity.
Qed.

(** C6.  [StateUpdate] answers [true] exactly when the incoming snapshot
    differs from the stored one; it then stores the snapshot and stamps it
    with the reading of the timer.  Otherwise it answers [false], leaves
    the state as it is and does not call the timer.  Hence a second update
    with the same value, whatever the first one did, answers [false] and
    keeps both the snapshot and its timestamp. *)
Theorem StateUpdate_changes_exactly_on_difference (st : State) (ts : ThreadState)
    (w : World) :
  let '(changed, st1, w1) := StateUpdate st ts w in
  (changed = true <-> last_state_ st <> ts)
  /\ (changed = true ->
      last_state_ st1 = ts /\ last_state_update_ st1 = now_of w
      /\ timer_calls w1 = S (timer_calls w))
  /\ (changed = false -> st1 = st /\ timer_calls w1 = timer_calls w)
  /\ (let '(changed2, st2, w2) := StateUpdate st1 ts w1 in
      changed2 = false /\ st2 = st1
      /\ last_state_ st2 = last_state_ st1
      /\ last_state_update_ st2 = last_state_update_ st1
      /\ timer_calls w2 = timer_calls w1).
Proof.
  destruct (decide (last_state_ st = ts)) as [Heq | Hne].
  - subst ts. rewrite StateUpdate_same. rewrite StateUpdate_same.
    repeat split; try congruence; try reflexivity.
  - rewrite (StateUpdate_differs st ts w Hne).
    set (st1 := {| State_owner := State_owner st; State_slot := State_slot st;
                   last_state_ := ts; last_state_update_ := now_of w |}).
    pose proof (StateUpdate_same st1) as Hsame.
    change (last_state_ st1) with ts in Hsame. rewrite Hsame.
    repeat split; try reflexivity; try discriminate; try (intros _; exact Hne).
Qed.

(** ** The record of one client *)

Lemma bounds_check_true c tid :
  in_bounds c tid ->
  bool_decide (0 <= tid) && bool_decide (tid < Z.of_nat (length (threads_ c))) = true.
Proof.
  intros [H0 H1]. rewrite !bool_decide_eq_true_2 by assumption. reflexivity.
Qed.

Lemma bounds_check_false c tid :
  ~ in_bounds c tid ->
  bool_decide (0 <= tid) && bool_decide (tid < Z.of_nat (length (threads_ c))) = false.
Proof.
  intros H. unfold in_bounds in H.
  destruct (decide (0 <= tid)) as [H0 | H0].
  - rewrite (bool_decide_eq_true_2 _ H0).
    rewrite bool_decide_eq_false_2 by lia. reflexivity.
  - rewrite (bool_decide_eq_false_2 _ H0). reflexivity.
Qed.

Lemma vec_at_in_range {A : Type} (v : list A) (i : Z) :
  0 <= i < Z.of_nat (length v) ->
  exists a, v !! Z.to_nat i = Some a /\ vec_at v i = Ok a.
Proof.
  intros [H0 H1]. unfold vec_at.
  rewrite bool_decide_eq_true_2 by exact H0.
  destruct (lookup_lt_is_Some_2 v (Z.to_nat i)) as [a Ha]; [lia |].
  exists a. rewrite Ha. split; reflexivity.
Qed.

(** What [stateUpdate] does on a slot that exists. *)
Lemma stateUpdate_in_bounds c ts w st :
  in_bounds c (thread_id ts) ->
  threads_ c !! Z.to_nat (thread_id ts) = Some st ->
  stateUpdate c ts w =
    let w0 := lock_guard (mutex_ c) w in
    let r := StateUpdate st ts w0 in
    let ths := <[Z.to_nat (thread_id ts) := r.1.2]> (threads_ c) in
    if r.1.1 then
      Ok (set_threads_field c ths (now_of r.2),
          unlock_guard (mutex_ c) (getCurrTimeStamp r.2).2)
    else
      Ok (set_threads_field c ths (last_update_ c), unlock_guard (mutex_ c) r.2).
Proof.
  intros Hb Hst. unfold stateUpdate.
  rewrite (bounds_check_true _ _ Hb). cbn [assert obind].
  destruct (vec_at_in_range (threads_ c) (thread_id ts) Hb) as (a & Ha & ->).
  rewrite Hst in Ha. injection Ha as <-. cbn [obind].
  destruct (StateUpdate st ts (lock_guard (mutex_ c) w)) as [[changed st'] w'].
  cbn. destruct changed; reflexivity.
Qed.

(** C8.  [stateUpdate] ends in the failed bounds assertion exactly when the
    thread id lies outside [0, threads_.size()), so that no slot is read
    or written; inside the bounds it returns, and it never reaches an
    access outside the vector. *)
Theorem stateUpdate_faults_exactly_outside_bounds (c : ClientInfo)
    (ts : ThreadState) (w : World) :
  (stateUpdate c ts w = AssertFailed <-> ~ in_bounds c (thread_id ts))
  /\ ((exists c' w', stateUpdate c ts w = Ok (c', w')) <-> in_bounds c (thread_id ts))
  /\ stateUpdate c ts w <> Undefined.
Proof.
  destruct (decide (in_bounds c (thread_id ts))) as [Hb | Hb].
  - destruct (vec_at_in_range (threads_ c) (thread_id ts) Hb) as (st & Hst & _).
    rewrite (stateUpdate_in_bounds c ts w st Hb Hst). cbv zeta.
    destruct (StateUpdate st ts (lock_guard (mutex_ c) w)) as [[changed st'] w'].
    cbn [fst snd].
    destruct changed; (split; [| split]);
      try (split; [discriminate | tauto]);
      try discriminate;
      (split; [intros _; exact Hb | intros _; eexists; eexists; reflexivity]).
  - assert (Hf : stateUpdate c ts w = AssertFailed).
    { unfold stateUpdate. rewrite (bounds_check_false _ _ Hb). reflexivity. }
    rewrite Hf. split; [| split].
    + split; [intros _; exact Hb | reflexivity].
    + split; [intros (c' & w' & H); discriminate H | tauto].
    + discriminate.
Qed.

Lemma set_active_field_same c : set_active_field c (active_ c) = c.
Proof. destruct c; reflexivity. Qed.

Lemma updateActive_eq c w :
  updateActive c w =
    (transition (active_ c) (curr_active_at c (now_of w)),
     set_active_field c (curr_active_at c (now_of w)),
     unlock_guard (mutex_ c) (getCurrTimeStamp (lock_guard (mutex_ c) w)).2).
Proof.
  unfold updateActive, curr_active_at. cbn [getCurrTimeStamp lock_guard emit timer_ timer_calls].
  fold (now_of w).
  destruct (active_ c) eqn:Ha;
    destruct (bool_decide (wrap64 (now_of w - last_update_ c) < max_delay_sec_ c)) eqn:Hc;
    cbn [negb transition]; try reflexivity;
    rewrite <- Ha, set_active_field_same; reflexivity.
Qed.

Lemma wrap64_sub_wrap_l a b : wrap64 (wrap64 a - b) = wrap64 (a - b).
Proof. unfold wrap64. apply Zminus_mod_idemp_l. Qed.

Lemma curr_active_at_offset c k :
  0 <= k < 2 ^ 64 ->
  curr_active_at c (wrap64 (last_update_ c + k)) = bool_decide (k < max_delay_sec_ c).
Proof.
  intros Hk. unfold curr_active_at. rewrite wrap64_sub_wrap_l.
  replace (last_update_ c + k - last_update_ c) with k by lia.
  rewrite (wrap64_small k Hk). reflexivity.
Qed.

(** A heartbeat that changes a slot refreshes [last_update_] with the
    reading of the second call of the timer it makes. *)
Lemma stateUpdate_refreshes c ts w st c' w' :
  in_bounds c (thread_id ts) ->
  threads_ c !! Z.to_nat (thread_id ts) = Some st ->
  last_state_ st <> ts ->
  stateUpdate c ts w = Ok (c', w') ->
  last_update_ c' = wrap64 (timer_ w (S (timer_calls w)))
  /\ active_ c' = active_ c
  /\ max_delay_sec_ c' = max_delay_sec_ c.
Proof.
  intros Hb Hst Hne. rewrite (stateUpdate_in_bounds c ts w st Hb Hst). cbv zeta.
  rewrite (StateUpdate_differs st ts _ Hne). cbn [fst snd].
  intros H. injection H as <- <-. repeat split; reflexivity.
Qed.

(** C4.  The answer of [updateActive] is a function of the cached flag and
    of [now - last_update_ < max_delay_sec_], and the flag takes the value
    of that predicate.  For a live record with a timeout of 300 and last
    activity at T: a sweep reading T+299 answers [ALIVE] and changes
    nothing; a sweep reading T+300 answers [ALIVE2DEAD] and clears the
    flag; later sweeps, while the elapsed time stays at 300 or more,
    answer [DEAD]; and after a heartbeat that changes a thread slot, which
    refreshes [last_update_], a sweep within the timeout answers
    [DEAD2ALIVE] and sets the flag again. *)
Theorem updateActive_liveness_machine :
  (forall (c : ClientInfo) (w : World),
     let '(status, c', _) := updateActive c w in
     let curr_active := curr_active_at c (now_of w) in
     status = transition (active_ c) curr_active
     /\ c' = set_active_field c curr_active
     /\ (status = ALIVE \/ status = DEAD -> c' = c))
  /\
  (forall (c : ClientInfo) (w1 w2 w3 : World),
     max_delay_sec_ c = 300 ->
     active_ c = true ->
     now_of w1 = wrap64 (last_update_ c + 299) ->
     now_of w2 = wrap64 (last_update_ c + 300) ->
     300 <= wrap64 (now_of w3 - last_update_ c) ->
     let '(s1, c1, _) := updateActive c w1 in
     let '(s2, c2, _) := updateActive c1 w2 in
     let '(s3, c3, _) := updateActive c2 w3 in
     s1 = ALIVE /\ c1 = c
     /\ s2 = ALIVE2DEAD /\ active_ c2 = false
     /\ s3 = DEAD /\ c3 = c2
     /\ forall (ts : ThreadState) (st : State) (w4 w4' w5 : World) (c4 : ClientInfo),
          in_bounds c3 (thread_id ts) ->
          threads_ c3 !! Z.to_nat (thread_id ts) = Some st ->
          last_state_ st <> ts ->
          stateUpdate c3 ts w4 = Ok (c4, w4') ->
          wrap64 (now_of w5 - last_update_ c4) < 300 ->
          last_update_ c4 = wrap64 (timer_ w4 (S (timer_calls w4)))
          /\ let '(s5, c5, _) := updateActive c4 w5 in
             s5 = DEAD2ALIVE /\ active_ c5 = true).
Proof.
  split.
  - intros c w. rewrite updateActive_eq.
    split; [reflexivity | split; [reflexivity |]].
    intros H.
    destruct (active_ c) eqn:Ha, (curr_active_at c (now_of w)) eqn:Hc;
      cbn [transition] in H; try (destruct H; discriminate);
      rewrite <- Ha; apply set_active_field_same.
  - intros c w1 w2 w3 Hmax Hact H1 H2 H3.
    rewrite !updateActive_eq.
    assert (E1 : curr_active_at c (now_of w1) = true).
    { rewrite H1, curr_active_at_offset by lia. rewrite Hmax. reflexivity. }
    rewrite E1.
    assert (Ec : set_active_field c true = c).
    { rewrite <- Hact. apply set_active_field_same. }
    rewrite Ec, Hact.
    assert (E2 : curr_active_at c (now_of w2) = false).
    { rewrite H2, curr_active_at_offset by lia. rewrite Hmax. reflexivity. }
    rewrite E2.
    assert (E3 : curr_active_at (set_active_field c false) (now_of w3) = false).
    { unfold curr_active_at. apply bool_decide_eq_false_2.
      cbn [set_active_field last_update_ max_delay_sec_]. lia. }
    rewrite E3. cbn [transition set_active_field active_].
    repeat (split; [reflexivity |]).
    intros ts st w4 w4' w5 c4 Hb Hst Hne Hupd Hlt.
    destruct (stateUpdate_refreshes _ _ _ _ _ _ Hb Hst Hne Hupd) as (Hlast & Hact4 & Hmax4).
    split; [exact Hlast |].
    rewrite updateActive_eq.
    assert (E5 : curr_active_at c4 (now_of w5) = true).
    { unfold curr_active_at. apply bool_decide_eq_true_2.
      rewrite Hmax4. cbn [set_active_field max_delay_sec_]. lia. }
    rewrite E5, Hact4. cbn. split; reflexivity.
Qed.

Lemma updateActive_liveness_machine_witness :
  (max_delay_sec_ sample_client = 300 /\ active_ sample_client = true
   /\ now_of (world_at 1299) = wrap64 (last_update_ sample_client + 299)
   /\ now_of (world_at 1300) = wrap64 (last_update_ sample_client + 300)
   /\ 300 <= wrap64 (now_of (world_at 1500) - last_update_ sample_client))
  /\ (updateActive sample_client (world_at 1299)).1.1 = ALIVE
  /\ (updateActive sample_client (world_at 1300)).1.1 = ALIVE2DEAD
  /\ (updateActive (set_active_field sample_client false) (world_at 1500)).1.1 = DEAD
  /\ forall c4 w4',
       stateUpdate (set_active_field sample_client false)
                   {| thread_id := 0; snapshot := 7 |} (world_at 1500) = Ok (c4, w4') ->
       wrap64 (now_of (world_at 1500) - last_update_ c4) < 300 ->
       (updateActive c4 (world_at 1500)).1.1 = DEAD2ALIVE.
Proof.
  assert (H3 : 300 <= wrap64 (now_of (world_at 1500) - last_update_ sample_client)).
  { vm_compute. discriminate. }
  split; [repeat split; try reflexivity; exact H3 |].
  pose proof (proj2 updateActive_liveness_machine sample_client
                (world_at 1299) (world_at 1300) (world_at 1500)
                eq_refl eq_refl eq_refl eq_refl H3) as H.
  rewrite !updateActive_eq in H.
  destruct H as (H1 & _ & H2 & _ & H5 & _ & H6).
  split; [exact H1 |]. split; [exact H2 |]. split; [exact H5 |].
  intros c4 w4' Hupd Hlt.
  assert (Hb : in_bounds (set_active_field sample_client false)
                 (thread_id {| thread_id := 0; snapshot := 7 |})).
  { vm_compute. split; [discriminate | reflexivity]. }
  assert (Hne : last_state_ sample_state <> {| thread_id := 0; snapshot := 7 |}).
  { vm_compute. discriminate. }
  pose proof (H6 {| thread_id := 0; snapshot := 7 |} sample_state
                 (world_at 1500) w4' (world_at 1500) c4 Hb eq_refl Hne Hupd Hlt) as H7.
  destruct H7 as [_ H7]. rewrite updateActive_eq in H7 |- *.
  destruct H7 as [H7 _]. exact H7.
Defined.

(** ** The allocation policy *)

Lemma seqZ_S (a : Z) (n : nat) :
  seqZ a (Z.of_nat (S n)) = a :: seqZ (a + 1) (Z.of_nat n).
Proof.
  rewrite seqZ_cons by lia. f_equal. f_equal; lia.
Qed.

Lemma alloc_scan_eq m : forall (count : nat) (t : ClientType) (pri0 pri1 : list ClientType),
  sized m ->
  0 <= t ->
  (Z.to_nat t + count <= length (num_clients_ m))%nat ->
  alloc_scan m t count pri0 pri1 =
    Ok (pri0 ++ List.filter (under_ratio m) (seqZ t (Z.of_nat count)),
        pri1 ++ List.filter (under_limit m) (seqZ t (Z.of_nat count))).
Proof.
  induction count as [| count IH]; intros t pri0 pri1 Hs Ht Hlen.
  - cbn. rewrite !app_nil_r. reflexivity.
  - destruct Hs as [Hr Hl].
    destruct (vec_at_in_range (num_clients_ m) t) as (c & _ & Hc); [lia |].
    destruct (vec_at_in_range (client_type_limits (options_ m)) t) as (lim & _ & Hlim); [lia |].
    destruct (vec_at_in_range (client_type_ratios (options_ m)) t) as (r & _ & Hrat); [lia |].
    cbn [alloc_scan]. rewrite Hc, Hlim, Hrat. cbn [obind].
    rewrite IH by (try split; try assumption; lia).
    rewrite seqZ_S. cbn [List.filter].
    unfold under_ratio at 2, under_limit at 2. rewrite Hc, Hlim, Hrat.
    destruct (bool_decide (c < lim)), (flt _ r);
      rewrite <- ?app_assoc; reflexivity.
Qed.

Lemma alloc_scan_all m :
  sized m ->
  alloc_scan m 0 (length (num_clients_ m)) [] [] =
    Ok (List.filter (under_ratio m) (all_types m),
        List.filter (under_limit m) (all_types m)).
Proof.
  intros Hs. rewrite alloc_scan_eq by (try assumption; lia). reflexivity.
Qed.

(** The head of the filtered ascending list is the lowest element that
    passes the filter. *)
Lemma filter_seqZ_head (P : Z -> bool) : forall (n : nat) (a : Z),
  match List.filter P (seqZ a (Z.of_nat n)) with
  | t :: _ => a <= t < a + Z.of_nat n /\ P t = true
              /\ forall t', a <= t' < t -> P t' = false
  | [] => forall t', a <= t' < a + Z.of_nat n -> P t' = false
  end.
Proof.
  induction n as [| n IH]; intros a.
  - cbn. intros t' H. lia.
  - rewrite seqZ_S. cbn [List.filter]. destruct (P a) eqn:Pa.
    + split; [lia |]. split; [exact Pa |]. intros t' H. lia.
    + specialize (IH (a + 1)).
      destruct (List.filter P (seqZ (a + 1) (Z.of_nat n))) as [| t rest].
      * intros t' H. destruct (decide (t' = a)) as [-> | Hne]; [exact Pa |].
        apply IH. lia.
      * destruct IH as (Hr & Pt & Hlow). split; [lia |]. split; [exact Pt |].
        intros t' H. destruct (decide (t' = a)) as [-> | Hne]; [exact Pa |].
        apply Hlow. lia.
Qed.

Lemma lowest_unique m P t1 t2 : lowest m P t1 -> lowest m P t2 -> t1 = t2.
Proof.
  intros (R1 & P1 & L1) (R2 & P2 & L2).
  destruct (Z.lt_trichotomy t1 t2) as [H | [H | H]]; [| exact H |].
  - rewrite (L2 t1) in P1 by lia. discriminate.
  - rewrite (L1 t2) in P2 by lia. discriminate.
Qed.

Lemma filter_all_types_head m P :
  match List.filter P (all_types m) with
  | t :: _ => lowest m P t
  | [] => none_of m P
  end.
Proof.
  unfold all_types, num_types.
  pose proof (filter_seqZ_head P (length (num_clients_ m)) 0) as H. revert H.
  destruct (List.filter P (seqZ 0 (Z.of_nat (length (num_clients_ m))))) as [| t rest].
  - intros H t' Ht'. apply H. unfold num_types in Ht'. lia.
  - intros (Hr & Pt & Hlow). split; [unfold num_types; lia |].
    split; [exact Pt | exact Hlow].
Qed.

(** The increment of [alloc_type] on a type inside the vector. *)
Lemma alloc_increment m t :
  0 <= t < num_types m ->
  (do _ <- assert (bool_decide (t <> CLIENT_INVALID));
   do c <- vec_at (num_clients_ m) t;
   Ok (t, set_counts m (<[Z.to_nat t := c + 1]> (num_clients_ m)) (n_ m + 1)))
  = Ok (t, allocated m t).
Proof.
  intros Ht. unfold num_types in Ht.
  rewrite bool_decide_eq_true_2 by (unfold CLIENT_INVALID; lia). cbn [assert obind].
  destruct (vec_at_in_range (num_clients_ m) t Ht) as (c & Hc & ->). cbn [obind].
  unfold allocated. do 2 f_equal. f_equal.
  apply list_eq. intros i. destruct (decide (i = Z.to_nat t)) as [-> | Hne].
  - rewrite list_lookup_insert_eq by lia. rewrite list_lookup_alter_eq, Hc. reflexivity.
  - rewrite list_lookup_insert_ne by congruence.
    rewrite list_lookup_alter_ne by congruence. reflexivity.
Qed.

(** [alloc_type] in closed form. *)
Lemma alloc_type_eq m :
  sized m ->
  alloc_type m =
    if bool_decide (n_ m = 0) then Ok (0, m)
    else match List.filter (under_ratio m) (all_types m) with
         | t :: _ => Ok (t, allocated m t)
         | [] => match List.filter (under_limit m) (all_types m) with
                 | t :: _ => Ok (t, allocated m t)
                 | [] => AssertFailed
                 end
         end.
Proof.
  intros Hs. unfold alloc_type. destruct (bool_decide (n_ m = 0)); [reflexivity |].
  rewrite (alloc_scan_all m Hs). cbn [obind fst snd].
  pose proof (filter_all_types_head m (under_ratio m)) as H0.
  pose proof (filter_all_types_head m (under_limit m)) as H1.
  revert H0 H1.
  destruct (List.filter (under_ratio m) (all_types m)) as [| t0 rest0].
  - destruct (List.filter (under_limit m) (all_types m)) as [| t1 rest1].
    + reflexivity.
    + intros _ H1. cbn [t_choice_of]. apply alloc_increment. apply H1.
  - intros H0 _. cbn [t_choice_of]. apply alloc_increment. apply H0.
Qed.

Lemma lowest_or_none m P : (exists t, lowest m P t) \/ none_of m P.
Proof.
  pose proof (filter_all_types_head m P) as H. revert H.
  destruct (List.filter P (all_types m)) as [| t rest]; intros H.
  - right. exact H.
  - left. exists t. exact H.
Qed.

Lemma filter_head_lowest m P t :
  lowest m P t -> exists rest, List.filter P (all_types m) = t :: rest.
Proof.
  intros Hlow. pose proof (filter_all_types_head m P) as H. revert H.
  destruct (List.filter P (all_types m)) as [| t0 rest]; intros H.
  - destruct Hlow as (Hr & Pt & _). rewrite (H t Hr) in Pt. discriminate.
  - exists rest. f_equal. exact (lowest_unique m P t0 t H Hlow).
Qed.

Lemma filter_nil_none m P : none_of m P -> List.filter P (all_types m) = [].
Proof.
  intros Hnone. pose proof (filter_all_types_head m P) as H. revert H.
  destruct (List.filter P (all_types m)) as [| t0 rest]; intros H; [reflexivity |].
  destruct H as (Hr & Pt & _). rewrite (Hnone t0 Hr) in Pt. discriminate.
Qed.

(** C3.  With a ratio and a limit for every type, [alloc_type] returns
    type 0 when [n_] is 0; otherwise the lowest type whose share
    [num_clients_[t] / n_] is below its ratio, if there is one; otherwise
    the lowest type whose count is below its limit, if there is one; and
    otherwise it ends in the failed assertion.  One of the three cases
    always applies. *)
Theorem alloc_type_policy (m : ClientManager) :
  sized m ->
  (n_ m = 0 -> alloc_type m = Ok (0, m))
  /\ (n_ m <> 0 ->
      (forall t, lowest m (under_ratio m) t ->
                 alloc_type m = Ok (t, allocated m t))
      /\ (none_of m (under_ratio m) ->
          forall t, lowest m (under_limit m) t ->
                    alloc_type m = Ok (t, allocated m t))
      /\ (none_of m (under_ratio m) -> none_of m (under_limit m) ->
          alloc_type m = AssertFailed))
  /\ ((exists t, lowest m (under_ratio m) t)
      \/ (none_of m (under_ratio m) /\ exists t, lowest m (under_limit m) t)
      \/ (none_of m (under_ratio m) /\ none_of m (under_limit m))).
Proof.
  intros Hs. rewrite (alloc_type_eq m Hs). split; [| split].
  - intros H0. rewrite bool_decide_eq_true_2 by exact H0. reflexivity.
  - intros Hn. rewrite bool_decide_eq_false_2 by exact Hn. split; [| split].
    + intros t Hlow. destruct (filter_head_lowest _ _ _ Hlow) as [rest ->].
      reflexivity.
    + intros Hnone t Hlow. rewrite (filter_nil_none _ _ Hnone).
      destruct (filter_head_lowest _ _ _ Hlow) as [rest ->]. reflexivity.
    + intros Hr Hl. rewrite (filter_nil_none _ _ Hr), (filter_nil_none _ _ Hl).
      reflexivity.
  - destruct (lowest_or_none m (under_ratio m)) as [H | H]; [left; exact H |].
    destruct (lowest_or_none m (under_limit m)) as [H' | H'].
    + right; left. split; assumption.
    + right; right. split; assumption.
Qed.

Lemma two_types_cases (P : Z -> Prop) (t : Z) :
  0 <= t < 2 -> P 0 -> P 1 -> P t.
Proof.
  intros Ht H0 H1.
  destruct (decide (t = 0)) as [-> | Hn0]; [exact H0 |].
  assert (t = 1) as -> by lia. exact H1.
Qed.

Lemma alloc_type_policy_witness :
  sized balanced_registry
  /\ n_ balanced_registry <> 0
  /\ none_of balanced_registry (under_ratio balanced_registry)
  /\ lowest balanced_registry (under_limit balanced_registry) 0
  /\ alloc_type balanced_registry = Ok (0, allocated balanced_registry 0).
Proof.
  assert (Hs : sized balanced_registry) by (split; reflexivity).
  assert (Hn : n_ balanced_registry <> 0) by discriminate.
  assert (Hr : none_of balanced_registry (under_ratio balanced_registry)).
  { intros t Ht.
    apply (two_types_cases (fun t => under_ratio balanced_registry t = false) t Ht);
      vm_compute; reflexivity. }
  assert (Hl : lowest balanced_registry (under_limit balanced_registry) 0).
  { split; [vm_compute; split; [discriminate | reflexivity] |].
    split; [vm_compute; reflexivity | intros t' Ht'; lia]. }
  repeat (split; [assumption |]).
  destruct (alloc_type_policy balanced_registry Hs) as (_ & H & _).
  exact (proj1 (proj2 (H Hn)) Hr 0 Hl).
Defined.

(** C2, as stated, fails: type 0 holds one client, which is its limit, and
    its share 1/2 is below its ratio 1; [alloc_type] chooses it. *)
Lemma alloc_type_chooses_saturated_type :
  vec_at (num_clients_ saturated_registry) 0 = Ok 1
  /\ vec_at (client_type_limits (options_ saturated_registry)) 0 = Ok 1
  /\ under_limit saturated_registry 0 = false
  /\ under_ratio saturated_registry 0 = true
  /\ alloc_type saturated_registry =
       Ok (0, set_counts saturated_registry [2; 1] 3).
Proof. repeat split; vm_compute; reflexivity. Qed.

(** C2, amended.  [alloc_type] chooses a type whose count has reached its
    limit only when that type is the lowest one below its ratio, or when
    [n_] is 0 and type 0 is returned as it is; when no type is below its
    ratio, the type chosen is below its limit. *)
Theorem alloc_type_limit_only_in_fallback (m m' : ClientManager) (t : ClientType) :
  sized m ->
  alloc_type m = Ok (t, m') ->
  (forall c lim,
      vec_at (num_clients_ m) t = Ok c ->
      vec_at (client_type_limits (options_ m)) t = Ok lim ->
      lim <= c ->
      (n_ m = 0 /\ t = 0) \/ (n_ m <> 0 /\ lowest m (under_ratio m) t))
  /\ (n_ m <> 0 -> none_of m (under_ratio m) ->
      exists c lim,
        vec_at (num_clients_ m) t = Ok c
        /\ vec_at (client_type_limits (options_ m)) t = Ok lim
        /\ c < lim).
Proof.
  intros Hs. rewrite (alloc_type_eq m Hs).
  pose proof (filter_all_types_head m (under_ratio m)) as H0.
  pose proof (filter_all_types_head m (under_limit m)) as H1.
  revert H0 H1.
  case_bool_decide as Hn.
  - intros _ _ H. injection H as <- <-. split; [| intros Hn'; contradiction].
    intros c lim _ _ _. left. split; [exact Hn | reflexivity].
  - destruct (List.filter (under_ratio m) (all_types m)) as [| t0 rest0].
    + destruct (List.filter (under_limit m) (all_types m)) as [| t1 rest1];
        intros Hnone Hlow H; [discriminate H |].
      injection H as <- <-.
      destruct Hlow as (Hr & Pt & _). unfold under_limit in Pt.
      destruct (vec_at (num_clients_ m) t1) as [c | |] eqn:Ec; try discriminate Pt.
      destruct (vec_at (client_type_limits (options_ m)) t1) as [lim | |] eqn:El;
        try discriminate Pt.
      apply bool_decide_eq_true_1 in Pt. split.
      * intros c' lim' Hc' Hl' Hle. injection Hc' as <-. injection Hl' as <-. lia.
      * intros _ _. exists c, lim. repeat split; [exact Pt].
    + intros Hlow _ H. injection H as <- <-. split.
      * intros c lim _ _ _. right. split; [exact Hn | exact Hlow].
      * intros _ Hnone. destruct Hlow as (Hr & Pt & _).
        rewrite (Hnone t0 Hr) in Pt. discriminate Pt.
Qed.

Lemma alloc_type_limit_only_in_fallback_witness :
  sized saturated_registry
  /\ alloc_type saturated_registry = Ok (0, set_counts saturated_registry [2; 1] 3)
  /\ ((n_ saturated_registry = 0 /\ 0 = 0)
      \/ (n_ saturated_registry <> 0
          /\ lowest saturated_registry (under_ratio saturated_registry) 0)).
Proof.
  assert (Hs : sized saturated_registry) by (split; reflexivity).
  assert (Ha : alloc_type saturated_registry
               = Ok (0, set_counts saturated_registry [2; 1] 3)).
  { vm_compute. reflexivity. }
  split; [exact Hs |]. split; [exact Ha |].
  apply (proj1 (alloc_type_limit_only_in_fallback _ _ 0 Hs Ha) 1 1);
    [reflexivity | reflexivity | lia].
Defined.

(** ** Runs from a fresh registry *)

(** C1 at a failing input: after the first heartbeat of the first client,
    with the timer fixed at 1000, one record is alive while [n_] and every
    entry of [num_clients_] are still 0.  [alloc_type] leaves through
    [if (n_ == 0) return 0;] before the two increments. *)
Theorem first_heartbeat_is_not_counted :
  ClientManager_new even_options = Ok fresh_even_registry
  /\ exists m w,
       heartbeat "a" (fresh_even_registry, world_at 1000) = Ok (m, w)
       /\ n_ m = 0
       /\ num_clients_ m = [0; 0]
       /\ sum_counts m = 0
       /\ active_records m = 1.
Proof.
  split; [reflexivity |].
  eexists. eexists. split; [vm_compute; reflexivity |].
  repeat split.
Qed.

(** C5 at its input: with ratios [0.5, 0.5], limits [100, 100] and the
    timer fixed at 1000, the first heartbeats of three identities give each
    of them type 0, the counters staying at 0 throughout. *)
Theorem three_first_heartbeats_all_get_type_0 :
  ClientManager_new even_options = Ok fresh_even_registry
  /\ exists r1 r2 r3,
    heartbeat "a" (fresh_even_registry, world_at 1000) = Ok r1
    /\ heartbeat "b" r1 = Ok r2
    /\ heartbeat "c" r2 = Ok r3
    /\ type_of r1.1 "a" = Some 0
    /\ type_of r2.1 "b" = Some 0
    /\ type_of r3.1 "c" = Some 0
    /\ (type_of r3.1 "a", type_of r3.1 "b") = (Some 0, Some 0)
    /\ (n_ r1.1, n_ r2.1, n_ r3.1) = (0, 0, 0).
Proof.
  split; [reflexivity |].
  eexists. eexists. eexists.
  split; [vm_compute; reflexivity |].
  split; [vm_compute; reflexivity |].
  split; [vm_compute; reflexivity |].
  repeat split.
Qed.

(** ** How a call moves the world *)

Lemma scoped_app k evs1 evs2 : scoped k evs1 -> scoped k evs2 -> scoped k (evs1 ++ evs2).
Proof.
  induction 1 as [k | k l body rest Hk Hbody _ Hrest IH]; intros H2.
  - exact H2.
  - cbn [app]. rewrite <- app_assoc. cbn [app].
    apply scoped_guard; [exact Hk | exact Hbody | apply IH; exact H2].
Qed.

Lemma scoped_weaken k k' evs : (k <= k')%nat -> scoped k' evs -> scoped k evs.
Proof.
  intros Hle H. revert k Hle.
  induction H as [k' | k' l body rest Hk Hbody _ Hrest IH]; intros k Hle.
  - constructor.
  - apply scoped_guard; [lia | exact Hbody | apply IH; exact Hle].
Qed.

Lemma world_step_refl k w : world_step k w w.
Proof.
  split; [reflexivity |]. split; [lia |].
  exists []. rewrite app_nil_r. split; [reflexivity | constructor].
Qed.

Lemma world_step_trans k w1 w2 w3 :
  world_step k w1 w2 -> world_step k w2 w3 -> world_step k w1 w3.
Proof.
  intros (T1 & C1 & e1 & E1 & S1) (T2 & C2 & e2 & E2 & S2).
  split; [congruence |]. split; [lia |].
  exists (e1 ++ e2). split; [| apply scoped_app; assumption].
  rewrite E2, E1, app_assoc. reflexivity.
Qed.

Lemma world_step_weaken k k' w w' :
  (k <= k')%nat -> world_step k' w w' -> world_step k w w'.
Proof.
  intros Hle (T & C & e & E & S). split; [exact T |]. split; [exact C |].
  exists e. split; [exact E | exact (scoped_weaken k k' e Hle S)].
Qed.

Lemma world_step_tick k w : world_step k w (getCurrTimeStamp w).2.
Proof.
  split; [reflexivity |]. split; [cbn; lia |].
  exists []. cbn. rewrite app_nil_r. split; [reflexivity | constructor].
Qed.

(** A guard scope around a step of the next level. *)
Lemma world_step_guard k l w w' :
  (k <= rank l)%nat ->
  world_step (S (rank l)) (lock_guard l w) w' ->
  world_step k w (unlock_guard l w').
Proof.
  intros Hk (T & C & e & E & S). split; [exact T |]. split; [exact C |].
  exists (Acquire l :: e ++ Release l :: []). split.
  - cbn [unlock_guard emit lock_trace]. rewrite E. cbn [lock_guard emit lock_trace].
    rewrite <- !app_assoc. reflexivity.
  - apply scoped_guard; [exact Hk | exact S | constructor].
Qed.

Lemma StateUpdate_world st ts w : world_step 2 w (StateUpdate st ts w).2.
Proof.
  unfold StateUpdate. case_bool_decide; cbn [snd].
  - apply (world_step_guard 2 (State_mutex_ st)); [cbn; lia |]. apply world_step_tick.
  - apply (world_step_guard 2 (State_mutex_ st)); [cbn; lia |]. apply world_step_refl.
Qed.

Lemma type_world c w : world_step 1 w (type c w).2.
Proof. apply (world_step_guard 1 (mutex_ c)); [cbn; lia | apply world_step_refl]. Qed.

Lemma set_type_world c t w : world_step 1 w (set_type c t w).2.
Proof. apply (world_step_guard 1 (mutex_ c)); [cbn; lia | apply world_step_refl]. Qed.

Lemma IsActive_world c w : world_step 1 w (IsActive c w).2.
Proof. apply (world_step_guard 1 (mutex_ c)); [cbn; lia | apply world_step_refl]. Qed.

Lemma IsStuck_world c t w : world_step 1 w (IsStuck c t w).2.
Proof. apply (world_step_guard 1 (mutex_ c)); [cbn; lia | apply world_step_refl]. Qed.

Lemma updateActive_world c w : world_step 1 w (updateActive c w).2.
Proof.
  rewrite updateActive_eq. cbn [snd].
  apply (world_step_guard 1 (mutex_ c)); [cbn; lia | apply world_step_tick].
Qed.

Lemma threads_world c tid w r :
  threads c tid w = Ok r -> world_step 1 w r.2.
Proof.
  unfold threads. destruct (assert _); cbn [obind]; try discriminate.
  destruct (vec_at _ _); cbn [obind]; try discriminate.
  intros H. injection H as <-. cbn [snd].
  apply (world_step_guard 1 (mutex_ c)); [cbn; lia | apply world_step_refl].
Qed.

Lemma stateUpdate_world c ts w c' w' :
  stateUpdate c ts w = Ok (c', w') -> world_step 1 w w'.
Proof.
  intros H.
  destruct (decide (in_bounds c (thread_id ts))) as [Hb | Hb].
  - destruct (vec_at_in_range (threads_ c) (thread_id ts) Hb) as (st & Hst & _).
    rewrite (stateUpdate_in_bounds c ts w st Hb Hst) in H. cbv zeta in H.
    pose proof (StateUpdate_world st ts (lock_guard (mutex_ c) w)) as Hw.
    destruct (StateUpdate st ts (lock_guard (mutex_ c) w)) as [[changed st'] w1].
    cbn [fst snd] in H, Hw.
    destruct changed; injection H as <- <-;
      apply (world_step_guard 1 (mutex_ c)); try (cbn; lia).
    + eapply world_step_trans; [exact Hw | apply world_step_tick].
    + exact Hw.
  - unfold stateUpdate in H. rewrite (bounds_check_false _ _ Hb) in H. discriminate H.
Qed.

(** ** What the registry keeps of its records *)

Lemma keeps_refl m : keeps m m.
Proof. intros id. reflexivity. Qed.

Lemma keeps_trans m1 m2 m3 : keeps m1 m2 -> keeps m2 m3 -> keeps m1 m3.
Proof. intros H1 H2 id. rewrite H2. apply H1. Qed.

Lemma keeps_same_clients m m' : clients_ m' = clients_ m -> keeps m m'.
Proof. intros H id. rewrite H. reflexivity. Qed.

Lemma keeps_put m k c c0 :
  clients_ m !! k = Some c0 -> stamps c = stamps c0 -> keeps m (put_client m k c).
Proof.
  intros Hk Hs id. cbn [put_client clients_].
  destruct (decide (k = id)) as [-> | Hne].
  - rewrite lookup_insert_eq, Hk. cbn. rewrite Hs. reflexivity.
  - rewrite lookup_insert_ne by exact Hne. reflexivity.
Qed.

Lemma put_client_lookup m k c : clients_ (put_client m k c) !! k = Some c.
Proof. cbn [put_client clients_]. apply lookup_insert_eq. Qed.

(** The two counters move together, or not at all. *)
Lemma alloc_type_inv m t m' :
  alloc_type m = Ok (t, m') ->
  clients_ m' = clients_ m /\ options_ m' = options_ m
  /\ ((m' = m /\ n_ m = 0 /\ t = 0)
      \/ exists c, num_clients_ m !! Z.to_nat t = Some c
                   /\ num_clients_ m' = <[Z.to_nat t := c + 1]> (num_clients_ m)
                   /\ n_ m' = n_ m + 1 /\ n_ m <> 0).
Proof.
  unfold alloc_type. case_bool_decide as Hn.
  - intros H. injection H as <- <-. repeat split. left. repeat split. exact Hn.
  - destruct (alloc_scan _ _ _ _ _) as [pri | |]; cbn [obind]; try discriminate.
    destruct (assert _); cbn [obind]; try discriminate.
    unfold vec_at. case_bool_decide as Hb; cbn [obind]; try discriminate.
    destruct (num_clients_ m !! _) as [c |] eqn:Ec; cbn [obind]; try discriminate.
    intros H. injection H as <- <-. repeat split. right. exists c.
    repeat split; first [exact Ec | exact Hn].
Qed.

Lemma dealloc_type_inv m t m' :
  dealloc_type m t = Ok m' ->
  clients_ m' = clients_ m /\ options_ m' = options_ m
  /\ exists c, num_clients_ m !! Z.to_nat t = Some c
               /\ num_clients_ m' = <[Z.to_nat t := c - 1]> (num_clients_ m)
               /\ n_ m' = n_ m - 1.
Proof.
  unfold dealloc_type. destruct (assert _); cbn [obind]; try discriminate.
  unfold vec_at. case_bool_decide as Hb; cbn [obind]; try discriminate.
  destruct (num_clients_ m !! _) as [c |] eqn:Ec; cbn [obind]; try discriminate.
  intros H. injection H as <-. repeat split. exists c. repeat split; exact Ec.
Qed.

(** The sweep changes no timestamp and no slot, and takes its locks one
    record at a time. *)
Lemma updateClients_loop_keeps keys : forall m w dead alive m' w' r,
  updateClients_loop keys m w dead alive = Ok (m', w', r) ->
  keeps m m' /\ options_ m' = options_ m /\ world_step 1 w w'.
Proof.
  induction keys as [| k keys IH]; intros m w dead alive m' w' r H;
    cbn [updateClients_loop] in H.
  - injection H as <- <- _.
    split; [apply keeps_refl |]. split; [reflexivity | apply world_step_refl].
  - destruct (clients_ m !! k) as [c |] eqn:Ek; [| exact (IH _ _ _ _ _ _ _ H)].
    pose proof (updateActive_world c w) as Hw1.
    rewrite updateActive_eq in H, Hw1. cbn [snd] in Hw1. cbv beta iota zeta in H.
    set (c1 := set_active_field c (curr_active_at c (now_of w))) in *.
    set (w1 := unlock_guard (mutex_ c) (getCurrTimeStamp (lock_guard (mutex_ c) w)).2) in *.
    assert (K1 : keeps m (put_client m k c1)).
    { apply (keeps_put m k c1 c Ek). reflexivity. }
    destruct (transition (active_ c) (curr_active_at c (now_of w))).
    + (* ALIVE2DEAD *)
      pose proof (type_world c1 w1) as Hw2.
      destruct (type c1 w1) as [t w2] eqn:Et. cbn [snd] in Hw2.
      destruct (dealloc_type (put_client m k c1) t) as [m2 | |] eqn:Ed;
        cbn [obind] in H; try discriminate H.
      destruct (dealloc_type_inv _ _ _ Ed) as (Hc & Ho & _).
      destruct (IH _ _ _ _ _ _ _ H) as (K & O & W).
      split; [| split].
      * eapply keeps_trans; [exact K1 |].
        eapply keeps_trans; [apply keeps_same_clients; exact Hc | exact K].
      * rewrite O, Ho. reflexivity.
      * eapply world_step_trans; [exact Hw1 |].
        eapply world_step_trans; [exact Hw2 | exact W].
    + (* DEAD2ALIVE *)
      destruct (alloc_type (put_client m k c1)) as [[t m2] | |] eqn:Ea;
        cbn [obind fst snd] in H; try discriminate H.
      destruct (alloc_type_inv _ _ _ Ea) as (Hc & Ho & _).
      pose proof (set_type_world c1 t w1) as Hw2.
      destruct (set_type c1 t w1) as [c2 w2] eqn:Es. cbn [snd] in Hw2.
      assert (Hc2 : c2 = set_type_field c1 t).
      { unfold set_type in Es. injection Es as <- _. reflexivity. }
      destruct (IH _ _ _ _ _ _ _ H) as (K & O & W).
      split; [| split].
      * eapply keeps_trans; [exact K1 |].
        eapply keeps_trans; [apply keeps_same_clients; exact Hc |].
        eapply keeps_trans; [| exact K].
        apply (keeps_put m2 k c2 c1).
        -- rewrite Hc. apply put_client_lookup.
        -- rewrite Hc2. reflexivity.
      * rewrite O. cbn [put_client options_]. exact Ho.
      * eapply world_step_trans; [exact Hw1 |].
        eapply world_step_trans; [exact Hw2 | exact W].
    + (* ALIVE *)
      destruct (IH _ _ _ _ _ _ _ H) as (K & O & W).
      split; [eapply keeps_trans; [exact K1 | exact K] |].
      split; [exact O |]. eapply world_step_trans; [exact Hw1 | exact W].
    + (* DEAD *)
      destruct (IH _ _ _ _ _ _ _ H) as (K & O & W).
      split; [eapply keeps_trans; [exact K1 | exact K] |].
      split; [exact O |]. eapply world_step_trans; [exact Hw1 | exact W].
Qed.

Lemma updateClients_keeps order m w m' w' :
  updateClients order m w = Ok (m', w') ->
  keeps m m' /\ options_ m' = options_ m /\ world_step 1 w w'.
Proof.
  unfold updateClients.
  destruct (updateClients_loop _ m w [] []) as [[[m1 w1] [dead alive]] | |] eqn:El;
    cbn [obind]; try discriminate.
  destruct (updateClients_loop_keeps _ _ _ _ _ _ _ _ El) as (K & O & W).
  destruct dead, alive; intros H; injection H as <- <-;
    (split; [exact K | split; [exact O |]]);
    try exact W; (eapply world_step_trans; [exact W | apply world_step_tick]).
Qed.

(** ** Timestamps under a non-decreasing timer *)

Lemma later_refl w : later w w.
Proof. split; [reflexivity | lia]. Qed.

Lemma later_trans w1 w2 w3 : later w1 w2 -> later w2 w3 -> later w1 w3.
Proof. intros [T1 C1] [T2 C2]. split; [congruence | lia]. Qed.

Lemma world_step_later k w w' : world_step k w w' -> later w w'.
Proof. intros (T & C & _). split; assumption. Qed.

Lemma later_lock_guard l w : later w (lock_guard l w).
Proof. split; [reflexivity | cbn; lia]. Qed.

Lemma past_later w w' z : later w w' -> past w z -> past w' z.
Proof. intros [T C] H j Hj. rewrite T. apply H. lia. Qed.

Lemma monotone_later w w' : later w w' -> monotone_timer w -> monotone_timer w'.
Proof. intros [T _] H i j Hij. rewrite T. apply H. exact Hij. Qed.

Lemma past_now w : monotone_timer w -> past w (now_of w).
Proof. intros H k Hk. apply H. exact Hk. Qed.

Lemma past_le_now w z : past w z -> z <= now_of w.
Proof. intros H. apply H. lia. Qed.

Lemma client_stamped_later w w' c :
  later w w' -> client_stamped w c -> client_stamped w' c.
Proof.
  intros W [H1 H2]. split; [exact (past_later w w' _ W H1) |].
  eapply Forall_impl; [exact H2 |]. intros st. apply (past_later w w' _ W).
Qed.

Lemma stamped_later w w' m : later w w' -> stamped w m -> stamped w' m.
Proof. intros W H id c Hc. exact (client_stamped_later w w' c W (H id c Hc)). Qed.

Lemma state_le_refl_all (ths : list State) : Forall2 state_le ths ths.
Proof. apply Forall_Forall2_diag, Forall_forall. intros st _. unfold state_le. lia. Qed.

Lemma client_le_refl c : client_le c c.
Proof. split; [lia | apply state_le_refl_all]. Qed.

Lemma client_le_trans c1 c2 c3 : client_le c1 c2 -> client_le c2 c3 -> client_le c1 c3.
Proof.
  intros [A1 B1] [A2 B2]. split; [lia |].
  eapply Forall2_trans; [| exact B1 | exact B2].
  unfold state_le. intros x y z Hxy Hyz. lia.
Qed.

Lemma registry_le_refl m : registry_le m m.
Proof. intros id c Hc. exists c. split; [exact Hc | apply client_le_refl]. Qed.

Lemma registry_le_trans m1 m2 m3 :
  registry_le m1 m2 -> registry_le m2 m3 -> registry_le m1 m3.
Proof.
  intros H1 H2 id c Hc. destruct (H1 id c Hc) as (c2 & Hc2 & L1).
  destruct (H2 id c2 Hc2) as (c3 & Hc3 & L2).
  exists c3. split; [exact Hc3 | exact (client_le_trans _ _ _ L1 L2)].
Qed.

Lemma keeps_lookup m m' id c :
  keeps m m' -> clients_ m !! id = Some c ->
  exists c', clients_ m' !! id = Some c' /\ stamps c' = stamps c.
Proof.
  intros K Hc. specialize (K id). rewrite Hc in K.
  destruct (clients_ m' !! id) as [c' |]; cbn in K; [| discriminate K].
  exists c'. split; [reflexivity | congruence].
Qed.

Lemma keeps_lookup_rev m m' id c' :
  keeps m m' -> clients_ m' !! id = Some c' ->
  exists c, clients_ m !! id = Some c /\ stamps c' = stamps c.
Proof.
  intros K Hc. specialize (K id). rewrite Hc in K.
  destruct (clients_ m !! id) as [c |]; cbn in K; [| discriminate K].
  exists c. split; [reflexivity | congruence].
Qed.

Lemma stamps_client_le c c' : stamps c' = stamps c -> client_le c c'.
Proof.
  unfold stamps. intros H. injection H as H1 H2. split; [lia |].
  rewrite H2. apply state_le_refl_all.
Qed.

Lemma stamps_client_stamped w c c' :
  stamps c' = stamps c -> client_stamped w c -> client_stamped w c'.
Proof.
  unfold stamps, client_stamped. intros H. injection H as -> ->. tauto.
Qed.

Lemma keeps_registry_le m m' : keeps m m' -> registry_le m m'.
Proof.
  intros K id c Hc. destruct (keeps_lookup m m' id c K Hc) as (c' & Hc' & Hs).
  exists c'. split; [exact Hc' | exact (stamps_client_le c c' Hs)].
Qed.

Lemma keeps_stamped w m m' : keeps m m' -> stamped w m -> stamped w m'.
Proof.
  intros K S id c' Hc'.
  destruct (keeps_lookup_rev m m' id c' K Hc') as (c & Hc & Hs).
  exact (stamps_client_stamped w c c' Hs (S id c Hc)).
Qed.

Lemma StateUpdate_stamps st ts w :
  monotone_timer w ->
  past w (last_state_update_ st) ->
  state_le st (StateUpdate st ts w).1.2
  /\ past (StateUpdate st ts w).2 (last_state_update_ (StateUpdate st ts w).1.2).
Proof.
  intros Hm Hp.
  pose proof (world_step_later _ _ _ (StateUpdate_world st ts w)) as W.
  destruct (decide (last_state_ st = ts)) as [<- | Hne].
  - rewrite StateUpdate_same in *. cbn [fst snd] in *.
    split; [unfold state_le; lia | exact (past_later _ _ _ W Hp)].
  - rewrite (StateUpdate_differs st ts w Hne) in *. cbn [fst snd] in *.
    split; [unfold state_le; cbn; exact (past_le_now w _ Hp) |].
    cbn [last_state_update_]. exact (past_later _ _ _ W (past_now w Hm)).
Qed.

Lemma stateUpdate_stamps c ts w c' w' :
  monotone_timer w ->
  client_stamped w c ->
  stateUpdate c ts w = Ok (c', w') ->
  client_le c c' /\ client_stamped w' c'.
Proof.
  intros Hm [Hu Hths] H.
  pose proof (world_step_later _ _ _ (stateUpdate_world c ts w c' w' H)) as W.
  destruct (decide (in_bounds c (thread_id ts))) as [Hb | Hb];
    [| unfold stateUpdate in H; rewrite (bounds_check_false _ _ Hb) in H; discriminate H].
  destruct (vec_at_in_range (threads_ c) (thread_id ts) Hb) as (st & Hst & _).
  rewrite (stateUpdate_in_bounds c ts w st Hb Hst) in H. cbv zeta in H.
  set (w0 := lock_guard (mutex_ c) w) in *.
  assert (L0 : later w w0) by apply later_lock_guard.
  assert (Hm0 : monotone_timer w0) by exact (monotone_later _ _ L0 Hm).
  assert (Hp0 : past w0 (last_state_update_ st)).
  { apply (past_later _ _ _ L0). exact (Forall_lookup_1 _ _ _ _ Hths Hst). }
  destruct (StateUpdate_stamps st ts w0 Hm0 Hp0) as [Hle Hp1].
  pose proof (world_step_later _ _ _ (StateUpdate_world st ts w0)) as L1.
  destruct (StateUpdate st ts w0) as [[changed st'] w1]. cbn [fst snd] in *.
  assert (Hths' : Forall2 state_le (threads_ c)
                    (<[Z.to_nat (thread_id ts) := st']> (threads_ c))).
  { rewrite <- (list_insert_id (threads_ c) _ st Hst) at 1.
    apply Forall2_insert; [apply state_le_refl_all | exact Hle]. }
  destruct changed; injection H as <- <-.
  - split; [split; [| exact Hths'] |].
    + cbn [set_threads_field last_update_].
      pose proof (past_le_now _ _ (past_later _ _ _ (later_trans _ _ _ L0 L1) Hu)). lia.
    + split.
      * cbn [set_threads_field last_update_].
        apply (past_later w1); [| apply past_now; exact (monotone_later _ _ L1 Hm0)].
        split; [reflexivity | cbn; lia].
      * cbn [set_threads_field threads_]. apply Forall_insert.
        -- eapply Forall_impl; [exact Hths |]. intros x. apply (past_later _ _ _ W).
        -- apply (past_later w1); [| exact Hp1]. split; [reflexivity | cbn; lia].
  - split; [split; [cbn; lia | exact Hths'] |].
    split.
    + cbn [set_threads_field last_update_]. exact (past_later _ _ _ W Hu).
    + cbn [set_threads_field threads_]. apply Forall_insert.
      * eapply Forall_impl; [exact Hths |]. intros x. apply (past_later _ _ _ W).
      * apply (past_later w1); [| exact Hp1]. split; [reflexivity | cbn; lia].
Qed.

Lemma updateStates_loop_stamps states : forall c w c' w',
  monotone_timer w ->
  client_stamped w c ->
  updateStates_loop states c w = Ok (c', w') ->
  client_le c c' /\ client_stamped w' c'.
Proof.
  induction states as [| s states IH]; intros c w c' w' Hm Hs H;
    cbn [updateStates_loop] in H.
  - injection H as <- <-. split; [apply client_le_refl | exact Hs].
  - destruct (stateUpdate c s.2 w) as [[c1 w1] | |] eqn:E1; cbn [obind fst snd] in H;
      try discriminate H.
    pose proof (world_step_later _ _ _ (stateUpdate_world _ _ _ _ _ E1)) as L.
    destruct (stateUpdate_stamps _ _ _ _ _ Hm Hs E1) as [L1 S1].
    destruct (IH c1 w1 c' w' (monotone_later _ _ L Hm) S1 H) as (L2 & S2).
    split; [exact (client_le_trans _ _ _ L1 L2) | exact S2].
Qed.

(** ** The locks of the registry calls *)

Lemma quiet_world_step k w w' :
  later w w' -> lock_trace w' = lock_trace w -> world_step k w w'.
Proof.
  intros [T C] E. split; [exact T |]. split; [exact C |].
  exists []. rewrite app_nil_r. split; [exact E | constructor].
Qed.

Lemma manager_guard_world w w1 :
  world_step 1 (lock_guard L_manager w) w1 ->
  world_step 0 w (unlock_guard L_manager w1).
Proof. intros W. apply (world_step_guard 0 L_manager); [cbn; lia | exact W]. Qed.

Lemma updateStates_loop_world states : forall c w c' w',
  updateStates_loop states c w = Ok (c', w') -> world_step 1 w w'.
Proof.
  induction states as [| s states IH]; intros c w c' w' H; cbn [updateStates_loop] in H.
  - injection H as _ <-. apply world_step_refl.
  - destruct (stateUpdate c s.2 w) as [[c1 w1] | |] eqn:E1; cbn [obind fst snd] in H;
      try discriminate H.
    exact (world_step_trans _ _ _ _ (stateUpdate_world _ _ _ _ _ E1) (IH _ _ _ _ H)).
Qed.

Lemma run_client_call_world call c w c' w' :
  run_client_call call c w = Ok (c', w') -> world_step 1 w w'.
Proof.
  destruct call as [| | t | | curr | ts | | tid]; cbn [run_client_call].
  - intros H. injection H as _ <-. apply world_step_refl.
  - intros H. injection H as _ <-. exact (type_world c w).
  - intros H. rewrite (surjective_pairing (set_type c t w)) in H.
    injection H as _ <-. exact (set_type_world c t w).
  - intros H. injection H as _ <-. exact (IsActive_world c w).
  - intros H. injection H as _ <-. exact (IsStuck_world c curr w).
  - apply stateUpdate_world.
  - pose proof (updateActive_world c w) as W. rewrite updateActive_eq in *.
    intros H. injection H as _ <-. exact W.
  - destruct (threads c tid w) as [r | |] eqn:Et; cbn [obind]; try discriminate.
    intros H. injection H as _ <-. exact (threads_world _ _ _ _ Et).
Qed.

Section Calls.

Variable d : ThreadState.
Variable order : gmap string ClientInfo -> list string.

Lemma new_threads_world owner : forall (count first : nat) (w : World),
  later w (new_threads d owner first count w).2
  /\ lock_trace (new_threads d owner first count w).2 = lock_trace w.
Proof.
  induction count as [| count IH]; intros first w; cbn [new_threads].
  - split; [apply later_refl | reflexivity].
  - unfold State_new. cbn [getCurrTimeStamp].
    set (w1 := {| timer_ := timer_ w; timer_calls := S (timer_calls w);
                  lock_trace := lock_trace w |}).
    destruct (IH (S first) w1) as [L E].
    destruct (new_threads d owner (S first) count w1) as [rest w2]. cbn [fst snd] in *.
    split; [| rewrite E; reflexivity].
    apply (later_trans w w1 w2); [split; [reflexivity | cbn; lia] | exact L].
Qed.

Lemma ClientInfo_new_world id num_threads max_delay_sec w :
  later w (ClientInfo_new d id num_threads max_delay_sec w).2
  /\ lock_trace (ClientInfo_new d id num_threads max_delay_sec w).2 = lock_trace w.
Proof.
  unfold ClientInfo_new.
  destruct (new_threads_world id (Z.to_nat num_threads) 0%nat w) as [L E].
  destruct (new_threads d id 0 (Z.to_nat num_threads) w) as [ths w1].
  cbn [fst snd getCurrTimeStamp] in *. split; [| exact E].
  apply (later_trans w w1); [exact L | split; [reflexivity | cbn; lia]].
Qed.

Lemma _getClient_world m id w c m' w' :
  _getClient d m id w = Ok (c, m', w') -> world_step 1 w w'.
Proof.
  unfold _getClient. destruct (clients_ m !! id) as [c0 |].
  - intros H. injection H as _ _ <-. apply world_step_refl.
  - destruct (ClientInfo_new_world id (max_num_threads (options_ m))
                (client_max_delay_sec (options_ m)) w) as [L E].
    destruct (ClientInfo_new d id _ _ w) as [e w1]. cbn [fst snd] in *.
    destruct (alloc_type (put_client m id e)) as [[t m2] | |];
      cbn [obind fst snd]; try discriminate.
    pose proof (set_type_world e t w1) as W2.
    destruct (set_type e t w1) as [e2 w2]. cbn [snd] in W2.
    intros H. injection H as _ _ <-.
    exact (world_step_trans _ _ _ _ (quiet_world_step 1 w w1 L E) W2).
Qed.

Lemma updateStates_world m id states w m' w' :
  updateStates d order m id states w = Ok (m', w') -> world_step 0 w w'.
Proof.
  unfold updateStates.
  destruct (_getClient d m id (lock_guard L_manager w)) as [[[c m1] w1] | |] eqn:Eg;
    cbn [obind]; try discriminate.
  destruct (updateStates_loop states c w1) as [[c2 w2] | |] eqn:El; cbn [obind];
    try discriminate.
  destruct (updateClients order (put_client m1 id c2) w2) as [[m3 w3] | |] eqn:Eu;
    cbn [obind]; try discriminate.
  destruct (updateClients_keeps _ _ _ _ _ Eu) as (_ & _ & W3).
  intros H. injection H as _ <-. apply manager_guard_world.
  eapply world_step_trans; [exact (_getClient_world _ _ _ _ _ _ Eg) |].
  eapply world_step_trans; [exact (updateStates_loop_world _ _ _ _ _ El) | exact W3].
Qed.

Lemma getClient_world m id w m' w' :
  getClient d m id w = Ok (m', w') -> world_step 0 w w'.
Proof.
  unfold getClient.
  destruct (_getClient d m id (lock_guard L_manager w)) as [[[c m1] w1] | |] eqn:Eg;
    cbn [obind]; try discriminate.
  intros H. injection H as _ <-. apply manager_guard_world.
  exact (_getClient_world _ _ _ _ _ _ Eg).
Qed.

(** Every public call that returns takes its locks in scopes of the
    hierarchy, from whatever registry and world it starts. *)
Lemma run_op_world o m w m' w' :
  run_op d order o m w = Ok (m', w') -> world_step 0 w w'.
Proof.
  destruct o as [ratio | id states | id | id | | | id call]; cbn [run_op].
  - unfold setClientTypeRatio. intros H. injection H as _ <-.
    apply manager_guard_world, world_step_refl.
  - apply updateStates_world.
  - unfold getClientC. cbn [snd]. intros H. injection H as _ <-.
    apply manager_guard_world, world_step_refl.
  - apply getClient_world.
  - intros H. injection H as _ <-. apply world_step_tick.
  - unfold info. cbn [snd]. intros H. injection H as _ <-.
    apply manager_guard_world, world_step_refl.
  - destruct (clients_ m !! id) as [c |].
    + destruct (run_client_call call c w) as [[c1 w1] | |] eqn:Er; cbn [obind fst snd];
        try discriminate.
      intros H. injection H as _ <-.
      exact (world_step_weaken 0 1 _ _ ltac:(lia) (run_client_call_world _ _ _ _ _ Er)).
    + intros H. injection H as _ <-. apply world_step_refl.
Qed.

Lemma run_ops_world ops : forall m w m' w',
  run_ops d order ops m w = Ok (m', w') -> world_step 0 w w'.
Proof.
  induction ops as [| o ops IH]; intros m w m' w'; cbn [run_ops].
  - intros H. injection H as _ <-. apply world_step_refl.
  - destruct (run_op d order o m w) as [[m1 w1] | |] eqn:Eo; cbn [obind fst snd];
      try discriminate.
    intros H.
    exact (world_step_trans _ _ _ _ (run_op_world _ _ _ _ _ Eo) (IH _ _ _ _ H)).
Qed.

(** ** The timestamps of the registry calls *)

Lemma new_threads_stamps owner : forall (count first : nat) (w : World),
  monotone_timer w ->
  Forall (fun st => past (new_threads d owner first count w).2 (last_state_update_ st))
         (new_threads d owner first count w).1.
Proof.
  induction count as [| count IH]; intros first w Hm; cbn [new_threads].
  - constructor.
  - unfold State_new. cbn [getCurrTimeStamp].
    set (w1 := {| timer_ := timer_ w; timer_calls := S (timer_calls w);
                  lock_trace := lock_trace w |}).
    assert (L1 : later w w1) by (split; [reflexivity | cbn; lia]).
    pose proof (IH (S first) w1 (monotone_later _ _ L1 Hm)) as F.
    destruct (new_threads_world owner count (S first) w1) as [L _].
    destruct (new_threads d owner (S first) count w1) as [rest w2]. cbn [fst snd] in *.
    constructor; [| exact F]. cbn [last_state_update_].
    apply (past_later w1 w2 _ L). apply (past_later w w1 _ L1). exact (past_now w Hm).
Qed.

Lemma ClientInfo_new_stamps id num_threads max_delay_sec w :
  monotone_timer w ->
  client_stamped (ClientInfo_new d id num_threads max_delay_sec w).2
                 (ClientInfo_new d id num_threads max_delay_sec w).1.
Proof.
  intros Hm. unfold ClientInfo_new.
  pose proof (new_threads_stamps id (Z.to_nat num_threads) 0%nat w Hm) as F.
  destruct (new_threads_world id (Z.to_nat num_threads) 0%nat w) as [L _].
  destruct (new_threads d id 0 (Z.to_nat num_threads) w) as [ths w1].
  cbn [fst snd getCurrTimeStamp] in *.
  set (w2 := {| timer_ := timer_ w1; timer_calls := S (timer_calls w1);
                lock_trace := lock_trace w1 |}).
  assert (L2 : later w1 w2) by (split; [reflexivity | cbn; lia]).
  split.
  - cbn [last_update_]. apply (past_later w1 w2 _ L2).
    exact (past_now w1 (monotone_later _ _ L Hm)).
  - cbn [threads_]. eapply Forall_impl; [exact F |]. intros st. apply (past_later _ _ _ L2).
Qed.

Lemma stamped_put w m k c :
  stamped w m -> client_stamped w c -> stamped w (put_client m k c).
Proof.
  intros S Hc id c0. cbn [put_client clients_]. rewrite lookup_insert.
  case_decide as Hd.
  - intros H. injection H as <-. exact Hc.
  - apply S.
Qed.

Lemma registry_le_put m k c c0 :
  clients_ m !! k = Some c0 -> client_le c0 c -> registry_le m (put_client m k c).
Proof.
  intros Hk Hle id c1 Hc1. cbn [put_client clients_]. rewrite lookup_insert.
  case_decide as Hd.
  - subst id. rewrite Hk in Hc1. injection Hc1 as <-. exists c. split; [reflexivity | exact Hle].
  - exists c1. split; [exact Hc1 | apply client_le_refl].
Qed.

(** [_getClient]: the record found or made is the entry of the identity;
    no record is lost and no timestamp moves back. *)
Lemma _getClient_spec m id w c m' w' :
  monotone_timer w ->
  stamped w m ->
  _getClient d m id w = Ok (c, m', w') ->
  clients_ m' !! id = Some c /\ registry_le m m' /\ stamped w' m'.
Proof.
  intros Hm Hs H. pose proof (world_step_later _ _ _ (_getClient_world _ _ _ _ _ _ H)) as L.
  revert H. unfold _getClient.
  destruct (clients_ m !! id) as [c0 |] eqn:Ec.
  - intros H. injection H as <- <- <-.
    split; [exact Ec |]. split; [apply registry_le_refl | exact Hs].
  - pose proof (ClientInfo_new_stamps id (max_num_threads (options_ m))
                  (client_max_delay_sec (options_ m)) w Hm) as S1.
    destruct (ClientInfo_new_world id (max_num_threads (options_ m))
                (client_max_delay_sec (options_ m)) w) as [L1 _].
    destruct (ClientInfo_new d id _ _ w) as [e w1]. cbn [fst snd] in *.
    destruct (alloc_type (put_client m id e)) as [[t m2] | |] eqn:Ea;
      cbn [obind fst snd]; try discriminate.
    destruct (alloc_type_inv _ _ _ Ea) as (Hc & _ & _).
    pose proof (world_step_later _ _ _ (set_type_world e t w1)) as L2.
    unfold set_type in *. cbn [snd] in L2.
    intros H. injection H as <- <- <-.
    split; [apply put_client_lookup |]. split.
    + intros id0 c0 Hc0. exists c0. split; [| apply client_le_refl].
      cbn [put_client clients_]. rewrite Hc. cbn [put_client clients_].
      assert (id <> id0) by (intros ->; rewrite Ec in Hc0; discriminate Hc0).
      rewrite !lookup_insert_ne by assumption. exact Hc0.
    + apply stamped_put.
      * intros id0 c0. rewrite Hc. intros H0. revert id0 c0 H0.
        apply stamped_put.
        -- exact (stamped_later _ _ _ L Hs).
        -- exact (client_stamped_later _ _ _ L2 S1).
      * apply (client_stamped_later _ _ _ L2).
        exact (stamps_client_stamped w1 e (set_type_field e t) eq_refl S1).
Qed.

Lemma updateStates_spec m id states w m' w' :
  monotone_timer w ->
  stamped w m ->
  updateStates d order m id states w = Ok (m', w') ->
  registry_le m m' /\ stamped w' m'.
Proof.
  intros Hm Hs. unfold updateStates.
  set (w0 := lock_guard L_manager w).
  assert (L0 : later w w0) by apply later_lock_guard.
  destruct (_getClient d m id w0) as [[[c m1] w1] | |] eqn:Eg; cbn [obind];
    try discriminate.
  destruct (_getClient_spec _ _ _ _ _ _ (monotone_later _ _ L0 Hm)
              (stamped_later _ _ _ L0 Hs) Eg) as (Hc & R1 & S1).
  pose proof (world_step_later _ _ _ (_getClient_world _ _ _ _ _ _ Eg)) as L1.
  pose proof (monotone_later _ _ (later_trans _ _ _ L0 L1) Hm) as Hm1.
  destruct (updateStates_loop states c w1) as [[c2 w2] | |] eqn:El; cbn [obind];
    try discriminate.
  destruct (updateStates_loop_stamps _ _ _ _ _ Hm1 (S1 id c Hc) El) as (L2 & S2).
  pose proof (world_step_later _ _ _ (updateStates_loop_world _ _ _ _ _ El)) as La2.
  destruct (updateClients order (put_client m1 id c2) w2) as [[m3 w3] | |] eqn:Eu;
    cbn [obind]; try discriminate.
  destruct (updateClients_keeps _ _ _ _ _ Eu) as (K3 & _ & W3).
  pose proof (world_step_later _ _ _ W3) as La3.
  intros H. injection H as <- <-. split.
  - eapply registry_le_trans; [exact R1 |].
    eapply registry_le_trans; [exact (registry_le_put m1 id c2 c Hc L2) |].
    exact (keeps_registry_le _ _ K3).
  - apply (stamped_later w3); [split; [reflexivity | cbn; lia] |].
    apply (stamped_later _ _ _ La3). apply (keeps_stamped _ _ _ K3).
    apply stamped_put; [exact (stamped_later _ _ _ La2 S1) | exact S2].
Qed.

Lemma getClient_spec m id w m' w' :
  monotone_timer w ->
  stamped w m ->
  getClient d m id w = Ok (m', w') ->
  registry_le m m' /\ stamped w' m'.
Proof.
  intros Hm Hs. unfold getClient.
  set (w0 := lock_guard L_manager w).
  assert (L0 : later w w0) by apply later_lock_guard.
  destruct (_getClient d m id w0) as [[[c m1] w1] | |] eqn:Eg; cbn [obind];
    try discriminate.
  destruct (_getClient_spec _ _ _ _ _ _ (monotone_later _ _ L0 Hm)
              (stamped_later _ _ _ L0 Hs) Eg) as (Hc & R1 & S1).
  intros H. injection H as <- <-.
  split; [exact R1 |].
  apply (stamped_later w1); [split; [reflexivity | cbn; lia] | exact S1].
Qed.

Lemma run_client_call_spec call c w c' w' :
  monotone_timer w ->
  client_stamped w c ->
  run_client_call call c w = Ok (c', w') ->
  client_le c c' /\ client_stamped w' c'.
Proof.
  intros Hm Hs H.
  pose proof (world_step_later _ _ _ (run_client_call_world _ _ _ _ _ H)) as L.
  destruct call as [| | t | | curr | ts | | tid]; cbn [run_client_call] in H;
    try (injection H as <- <-;
         split; [apply client_le_refl | exact (client_stamped_later _ _ _ L Hs)]).
  - injection H as <- <-.
    split; [apply (stamps_client_le c (incSeq c)); reflexivity |].
    exact (stamps_client_stamped w c (incSeq c) eq_refl Hs).
  - unfold set_type in H. injection H as <- Hw.
    split; [apply (stamps_client_le c (set_type_field c t)); reflexivity |].
    apply (client_stamped_later _ _ _ L).
    exact (stamps_client_stamped w c (set_type_field c t) eq_refl Hs).
  - exact (stateUpdate_stamps _ _ _ _ _ Hm Hs H).
  - rewrite updateActive_eq in H. injection H as <- Hw.
    split; [apply (stamps_client_le c (set_active_field c _)); reflexivity |].
    apply (client_stamped_later _ _ _ L).
    exact (stamps_client_stamped w c (set_active_field c _) eq_refl Hs).
  - destruct (threads c tid w) as [r | |]; cbn [obind] in H; try discriminate H.
    injection H as <- Hw.
    split; [apply client_le_refl | exact (client_stamped_later _ _ _ L Hs)].
Qed.

(** Every public call keeps the records and moves no timestamp back. *)
Lemma run_op_spec o m w m' w' :
  monotone_timer w ->
  stamped w m ->
  run_op d order o m w = Ok (m', w') ->
  registry_le m m' /\ stamped w' m'.
Proof.
  intros Hm Hs H.
  pose proof (world_step_later _ _ _ (run_op_world _ _ _ _ _ H)) as L.
  destruct o as [ratio | id states | id | id | | | id call]; cbn [run_op] in H;
    try (injection H as <- Hw;
         split; [apply registry_le_refl | exact (stamped_later _ _ _ L Hs)]).
  - unfold setClientTypeRatio in H. injection H as <- Hw.
    split; [apply keeps_registry_le, keeps_same_clients; reflexivity |].
    apply (stamped_later _ _ _ L).
    apply (keeps_stamped w m); [apply keeps_same_clients; reflexivity | exact Hs].
  - exact (updateStates_spec _ _ _ _ _ _ Hm Hs H).
  - exact (getClient_spec _ _ _ _ _ Hm Hs H).
  - destruct (clients_ m !! id) as [c |] eqn:Ec.
    + destruct (run_client_call call c w) as [[c1 w1] | |] eqn:Er;
        cbn [obind fst snd] in H; try discriminate H.
      destruct (run_client_call_spec _ _ _ _ _ Hm (Hs id c Ec) Er) as (Lc & S).
      injection H as <- <-.
      split; [exact (registry_le_put m id c1 c Ec Lc) |].
      apply stamped_put; [exact (stamped_later _ _ _ L Hs) | exact S].
    + injection H as <- <-. split; [apply registry_le_refl | exact Hs].
Qed.

Lemma run_ops_spec ops : forall m w m' w',
  monotone_timer w ->
  stamped w m ->
  run_ops d order ops m w = Ok (m', w') ->
  registry_le m m' /\ stamped w' m' /\ monotone_timer w'.
Proof.
  induction ops as [| o ops IH]; intros m w m' w' Hm Hs; cbn [run_ops].
  - intros H. injection H as <- <-.
    split; [apply registry_le_refl |]. split; [exact Hs | exact Hm].
  - destruct (run_op d order o m w) as [[m1 w1] | |] eqn:Eo; cbn [obind fst snd];
      try discriminate.
    destruct (run_op_spec _ _ _ _ _ Hm Hs Eo) as (R1 & S1).
    pose proof (world_step_later _ _ _ (run_op_world _ _ _ _ _ Eo)) as L.
    intros H.
    destruct (IH _ _ _ _ (monotone_later _ _ L Hm) S1 H) as (R2 & S2 & M2).
    split; [exact (registry_le_trans _ _ _ R1 R2) |]. split; [exact S2 | exact M2].
Qed.

Lemma stamped_new options m w :
  ClientManager_new options = Ok m -> stamped w m.
Proof.
  unfold ClientManager_new. destruct (assert _); cbn [obind]; try discriminate.
  intros H. injection H as <-. intros id c. cbn [clients_].
  rewrite lookup_empty. discriminate.
Qed.

(** C7.  Take a registry constructed from any options, with a timer whose
    readings never decrease, and any two sequences of public calls run one
    after the other.  Every record present after the first sequence is
    still present after the second, its [last_update_] is not smaller, and
    in each of its thread slots [last_state_update_] is not smaller. *)
Theorem timestamps_never_decrease (options : ClientManagerOptions)
    (ops1 ops2 : list op) (m0 m1 m2 : ClientManager) (w0 w1 w2 : World) :
  monotone_timer w0 ->
  ClientManager_new options = Ok m0 ->
  run_ops d order ops1 m0 w0 = Ok (m1, w1) ->
  run_ops d order ops2 m1 w1 = Ok (m2, w2) ->
  forall (id : string) (c : ClientInfo),
    clients_ m1 !! id = Some c ->
    exists c',
      clients_ m2 !! id = Some c'
      /\ last_update_ c <= last_update_ c'
      /\ forall (i : nat) (st : State),
           threads_ c !! i = Some st ->
           exists st', threads_ c' !! i = Some st'
                       /\ last_state_update_ st <= last_state_update_ st'.
Proof.
  intros Hm Hnew H1 H2 id c Hc.
  destruct (run_ops_spec _ _ _ _ _ Hm (stamped_new _ _ w0 Hnew) H1) as (_ & S1 & M1).
  destruct (run_ops_spec _ _ _ _ _ M1 S1 H2) as (R2 & _).
  destruct (R2 id c Hc) as (c' & Hc' & Hu & Hths).
  exists c'. split; [exact Hc' |]. split; [exact Hu |].
  intros i st Hst.
  destruct (Forall2_lookup_l _ _ _ _ _ Hths Hst) as (st' & Hst' & Hle).
  exists st'. split; [exact Hst' | exact Hle].
Qed.

End Calls.

Lemma ramp_world_monotone : monotone_timer ramp_world.
Proof.
  intros i j Hij. cbn [ramp_world timer_].
  rewrite !wrap64_small by (change (2 ^ 64) with 18446744073709551616; lia). lia.
Qed.

Lemma timestamps_never_decrease_witness :
  exists m1 w1 m2 w2 c c',
    monotone_timer ramp_world
    /\ ClientManager_new even_options = Ok fresh_even_registry
    /\ run_ops blank_state entries_order
         [Op_updateStates "a" first_report] fresh_even_registry ramp_world = Ok (m1, w1)
    /\ run_ops blank_state entries_order
         [Op_updateStates "a" [(0, {| thread_id := 0; snapshot := 2 |})]] m1 w1
       = Ok (m2, w2)
    /\ clients_ m1 !! "a" = Some c
    /\ clients_ m2 !! "a" = Some c'
    /\ last_update_ c <= last_update_ c'
    /\ forall (i : nat) (st : State),
         threads_ c !! i = Some st ->
         exists st', threads_ c' !! i = Some st'
                     /\ last_state_update_ st <= last_state_update_ st'.
Proof.
  eexists. eexists. eexists. eexists. eexists.
  assert (forall (P : ClientInfo -> Prop) (Q : Prop),
             Q -> (Q -> exists c', P c') -> exists c', Q /\ P c') as Hsplit.
  { intros P Q HQ H. destruct (H HQ) as [c' Hc']. exists c'. split; assumption. }
  apply Hsplit; [exact ramp_world_monotone | intros Hm].
  apply Hsplit; [reflexivity | intros Hnew].
  apply Hsplit; [vm_compute; reflexivity | intros H1].
  apply Hsplit; [vm_compute; reflexivity | intros H2].
  apply Hsplit; [vm_compute; reflexivity | intros Hc].
  exact (timestamps_never_decrease blank_state entries_order even_options
           _ _ _ _ _ _ _ _ Hm Hnew H1 H2 _ _ Hc).
Defined.

(** ** Which slot a heartbeat updates *)

Lemma StateUpdate_last_state st ts w : last_state_ (StateUpdate st ts w).1.2 = ts.
Proof.
  destruct (decide (last_state_ st = ts)) as [<- | Hne].
  - rewrite StateUpdate_same. reflexivity.
  - rewrite (StateUpdate_differs st ts w Hne). reflexivity.
Qed.

(** [stateUpdate] writes the slot named by [ts.thread_id], and only it. *)
Lemma stateUpdate_slots c ts w c' w' :
  stateUpdate c ts w = Ok (c', w') ->
  in_bounds c (thread_id ts)
  /\ exists st', threads_ c' = <[Z.to_nat (thread_id ts) := st']> (threads_ c)
                 /\ last_state_ st' = ts.
Proof.
  intros H.
  destruct (decide (in_bounds c (thread_id ts))) as [Hb | Hb];
    [| unfold stateUpdate in H; rewrite (bounds_check_false _ _ Hb) in H; discriminate H].
  split; [exact Hb |].
  destruct (vec_at_in_range (threads_ c) (thread_id ts) Hb) as (st & Hst & _).
  rewrite (stateUpdate_in_bounds c ts w st Hb Hst) in H. cbv zeta in H.
  pose proof (StateUpdate_last_state st ts (lock_guard (mutex_ c) w)) as Hl.
  destruct (StateUpdate st ts (lock_guard (mutex_ c) w)) as [[changed st'] w1].
  cbn [fst snd] in *. exists st'.
  destruct changed; injection H as <- <-; (split; [reflexivity | exact Hl]).
Qed.

Lemma updateStates_loop_values states : forall states' c w,
  states.*2 = states'.*2 ->
  updateStates_loop states c w = updateStates_loop states' c w.
Proof.
  induction states as [| s states IH]; intros [| s' states'] c w H;
    try discriminate H; [reflexivity |].
  cbn [fmap list_fmap] in H. injection H as Hs Hrest.
  cbn [updateStates_loop]. rewrite Hs.
  destruct (stateUpdate c s'.2 w) as [r | |]; cbn [obind]; try reflexivity.
  apply IH. exact Hrest.
Qed.

Section Heartbeat.

Variable d : ThreadState.
Variable order : gmap string ClientInfo -> list string.

(** C10.  [updateStates] reads only the values of [states]: two maps whose
    values agree, in the order they are visited, give the same run,
    whatever their keys.  For a single pair [(k, ts)], the slot that holds
    [ts] afterwards is the one named by [ts.thread_id], and every other
    slot, the slot [k] among them when [k] differs from [ts.thread_id], is
    as [_getClient] delivered it. *)
Theorem updateStates_selects_slot_by_value :
  (forall (m : ClientManager) (id : string) (states states' : list (Z * ThreadState))
          (w : World),
      states.*2 = states'.*2 ->
      updateStates d order m id states w = updateStates d order m id states' w)
  /\
  (forall (m m' : ClientManager) (id : string) (k : Z) (ts : ThreadState)
          (w w' : World),
      updateStates d order m id [(k, ts)] w = Ok (m', w') ->
      exists (info c' : ClientInfo) (m1 : ClientManager) (w1 : World) (st' : State),
        _getClient d m id (lock_guard L_manager w) = Ok (info, m1, w1)
        /\ clients_ m' !! id = Some c'
        /\ threads_ c' !! Z.to_nat (thread_id ts) = Some st'
        /\ last_state_ st' = ts
        /\ forall j : nat, j <> Z.to_nat (thread_id ts) ->
                           threads_ c' !! j = threads_ info !! j).
Proof.
  split.
  - intros m id states states' w H. unfold updateStates.
    destruct (_getClient d m id (lock_guard L_manager w)) as [[[info m1] w1] | |];
      cbn [obind]; try reflexivity.
    rewrite (updateStates_loop_values states states' info w1 H). reflexivity.
  - intros m m' id k ts w w'. unfold updateStates.
    destruct (_getClient d m id (lock_guard L_manager w)) as [[[info m1] w1] | |];
      cbn [obind]; try discriminate.
    cbn [updateStates_loop snd].
    destruct (stateUpdate info ts w1) as [[c2 w2] | |] eqn:Es; cbn [obind fst snd];
      try discriminate.
    destruct (updateClients order (put_client m1 id c2) w2) as [[m3 w3] | |] eqn:Eu;
      cbn [obind]; try discriminate.
    intros H. injection H as <- _.
    destruct (updateClients_keeps _ _ _ _ _ Eu) as (K & _ & _).
    destruct (keeps_lookup _ _ id c2 K (put_client_lookup m1 id c2)) as (c' & Hc' & Hst).
    destruct (stateUpdate_slots _ _ _ _ _ Es) as (Hb & st' & Hths & Hl).
    assert (Ht : threads_ c' = threads_ c2) by (unfold stamps in Hst; congruence).
    exists info, c', m1, w1, st'.
    split; [reflexivity |]. split; [exact Hc' |].
    rewrite Ht, Hths. split; [| split; [exact Hl |]].
    + apply list_lookup_insert_eq. unfold in_bounds in Hb. lia.
    + intros j Hj. apply list_lookup_insert_ne. congruence.
Qed.

End Heartbeat.

Lemma updateStates_selects_slot_by_value_witness :
  exists (m' : ClientManager) (w' : World) (c' : ClientInfo),
    updateStates blank_state entries_order two_slot_registry "a"
                 [(0, report_of_thread_1)] (world_at 1000) = Ok (m', w')
    /\ clients_ m' !! "a" = Some c'
    /\ last_state_ <$> threads_ c' !! 1%nat = Some report_of_thread_1
    /\ last_state_ <$> threads_ c' !! 0%nat = Some blank_state.
Proof.
  eexists. eexists.
  assert (forall (P : ClientInfo -> Prop) (Q : Prop),
             Q -> (Q -> exists c', P c') -> exists c', Q /\ P c') as Hsplit.
  { intros P Q HQ H. destruct (H HQ) as [c' Hc']. exists c'. split; assumption. }
  apply Hsplit; [vm_compute; reflexivity | intros Hrun].
  destruct (proj2 (updateStates_selects_slot_by_value blank_state entries_order)
              _ _ _ _ _ _ _ Hrun) as (info & c' & m1 & w1 & st' & Hg & Hc' & Hs & Hl & Hother).
  exists c'. split; [exact Hc' |]. split.
  - change (Z.to_nat (thread_id report_of_thread_1)) with 1%nat in Hs.
    rewrite Hs. cbn. rewrite Hl. reflexivity.
  - rewrite (Hother 0%nat) by discriminate.
    vm_compute in Hg. injection Hg as <- _ _. reflexivity.
Defined.

(** ** The locking hierarchy *)

Lemma forallb_rank_lt (held : list lock) (r : nat) :
  forallb (fun l' => rank l' <? r)%nat held = true
  <-> Forall (fun l' => (rank l' < r)%nat) held.
Proof.
  induction held as [| l held IH]; cbn [forallb].
  - split; [intros _; constructor | reflexivity].
  - rewrite andb_true_iff, IH, Nat.ltb_lt. split.
    + intros [H1 H2]. constructor; assumption.
    + intros H. inversion H; subst. split; assumption.
Qed.

Lemma scoped_held_after k evs :
  scoped k evs ->
  forall held rest,
    Forall (fun l' => (rank l' < k)%nat) held ->
    held_after held (evs ++ rest) = held_after held rest.
Proof.
  induction 1 as [k | k l body rest0 Hk Hbody IHbody Hrest IHrest];
    intros held rest Hheld.
  - reflexivity.
  - cbn [app held_after].
    assert (Hlt : Forall (fun l' => (rank l' < rank l)%nat) held).
    { eapply Forall_impl; [exact Hheld |]. cbn. intros x Hx. lia. }
    rewrite (proj2 (forallb_rank_lt held (rank l)) Hlt).
    rewrite <- app_assoc. rewrite IHbody.
    + cbn [app held_after]. rewrite bool_decide_eq_true_2 by reflexivity.
      apply IHrest. exact Hheld.
    + constructor; [lia |]. eapply Forall_impl; [exact Hlt |]. cbn. intros x Hx. lia.
Qed.

Lemma scoped_hierarchical evs : scoped 0 evs -> hierarchical evs.
Proof.
  intros H. unfold hierarchical.
  rewrite <- (app_nil_r evs). rewrite (scoped_held_after 0 evs H [] []); [reflexivity |].
  constructor.
Qed.

Lemma held_after_app held evs1 evs2 :
  held_after held (evs1 ++ evs2) =
    match held_after held evs1 with
    | Some h => held_after h evs2
    | None => None
    end.
Proof.
  revert held. induction evs1 as [| [l | l] evs1 IH]; intros held; cbn [app held_after].
  - reflexivity.
  - destruct (forallb _ held); [apply IH | reflexivity].
  - destruct held as [| l0 held]; [reflexivity |].
    destruct (bool_decide (l0 = l)); [apply IH | reflexivity].
Qed.

Lemma held_after_descending evs : forall held held',
  descending held -> held_after held evs = Some held' -> descending held'.
Proof.
  induction evs as [| [l | l] evs IH]; intros held held' Hd; cbn [held_after].
  - intros H. injection H as <-. exact Hd.
  - destruct (forallb _ held) eqn:Ef; [| discriminate].
    apply IH. split; [apply forallb_rank_lt; exact Ef | exact Hd].
  - destruct held as [| l0 held]; [discriminate |].
    destruct (bool_decide (l0 = l)); [| discriminate].
    apply IH. exact (proj2 Hd).
Qed.

(** At every moment of a hierarchical sequence the locks held are in
    descending rank. *)
Lemma hierarchical_prefix evs prefix rest :
  hierarchical evs -> evs = prefix ++ rest ->
  exists held, held_after [] prefix = Some held /\ descending held.
Proof.
  unfold hierarchical. intros H ->. rewrite held_after_app in H.
  destruct (held_after [] prefix) as [held |] eqn:E; [| discriminate H].
  exists held. split; [reflexivity |].
  exact (held_after_descending prefix [] held I E).
Qed.

Lemma thread_step_on_course cfg t t' :
  thread_step cfg t t' -> on_course t -> on_course t'.
Proof.
  unfold on_course. intros [l h rest Hfree | l h rest]; cbn [holding pending held_after].
  - destruct (forallb _ h); [tauto | discriminate].
  - rewrite bool_decide_eq_true_2 by reflexivity. tauto.
Qed.

Lemma step_on_course cfg cfg' :
  step cfg cfg' -> Forall on_course cfg -> Forall on_course cfg'.
Proof.
  intros [c i t t' Hi Ht] H. apply Forall_insert; [exact H |].
  exact (thread_step_on_course c t t' Ht (Forall_lookup_1 _ _ _ _ H Hi)).
Qed.

Lemma start_on_course programs :
  Forall hierarchical programs -> Forall on_course (start programs).
Proof.
  unfold start. intros H. apply Forall_fmap.
  eapply Forall_impl; [exact H |]. intros evs Hevs. exact Hevs.
Qed.

Lemma rank_bound l : (rank l <= 2)%nat.
Proof. destruct l; cbn; lia. Qed.

(** A thread that waits for a lock lets some thread move: the holder waits
    for a lock of greater rank, and the ranks are bounded. *)
Lemma waiting_thread_progress cfg :
  Forall on_course cfg ->
  forall (n : nat) (i : nat) (h : list lock) (l : lock) (rest : list lock_event),
    cfg !! i = Some (mkThread h (Acquire l :: rest)) ->
    (3 <= rank l + n)%nat ->
    exists cfg', step cfg cfg'.
Proof.
  intros Hc. induction n as [| n IH]; intros i h l rest Hi Hn.
  - pose proof (rank_bound l). lia.
  - destruct (decide (lock_free cfg l)) as [Hfree | Hheld].
    + eexists. exact (step_thread cfg i _ _ Hi (acquire_step cfg l h rest Hfree)).
    + unfold lock_free in Hheld. apply not_Forall_Exists in Hheld; [| solve_decision].
      apply Exists_exists in Hheld. destruct Hheld as (t & Ht & Hl).
      apply dec_stable in Hl.
      apply list_elem_of_lookup in Ht. destruct Ht as [j Hj].
      pose proof (Forall_lookup_1 _ _ _ _ Hc Hj) as Hon. unfold on_course in Hon.
      destruct t as [ht [| [l' | l'] pt]]; cbn [holding pending held_after] in *.
      * injection Hon as ->. apply elem_of_nil in Hl. contradiction.
      * destruct (forallb _ ht) eqn:Ef; [| discriminate Hon].
        apply forallb_rank_lt in Ef.
        pose proof (proj1 (Forall_forall _ _) Ef l Hl) as Hlt. cbn in Hlt.
        apply (IH j ht l' pt Hj). lia.
      * destruct ht as [| l0 ht]; [discriminate Hon |].
        destruct (bool_decide (l0 = l')) eqn:Eb; [| discriminate Hon].
        apply bool_decide_eq_true_1 in Eb. subst l0.
        eexists. exact (step_thread cfg j _ _ Hj (release_step cfg l' ht pt)).
Qed.

Lemma on_course_progress cfg :
  Forall on_course cfg -> finished cfg \/ exists cfg', step cfg cfg'.
Proof.
  intros Hc. destruct (decide (finished cfg)) as [Hf | Hf]; [left; exact Hf | right].
  unfold finished in Hf. apply not_Forall_Exists in Hf; [| solve_decision].
  apply Exists_exists in Hf. destruct Hf as (t & Ht & Hp).
  apply list_elem_of_lookup in Ht. destruct Ht as [i Hi].
  pose proof (Forall_lookup_1 _ _ _ _ Hc Hi) as Hon. unfold on_course in Hon.
  destruct t as [h [| [l | l] rest]]; cbn [holding pending held_after] in *.
  - contradiction Hp. reflexivity.
  - apply (waiting_thread_progress cfg Hc 3 i h l rest Hi). lia.
  - destruct h as [| l0 h]; [discriminate Hon |].
    destruct (bool_decide (l0 = l)) eqn:Eb; [| discriminate Hon].
    apply bool_decide_eq_true_1 in Eb. subst l0.
    eexists. exact (step_thread cfg i _ _ Hi (release_step cfg l h rest)).
Qed.

Lemma reachable_on_course cfg cfg' :
  rtc step cfg cfg' -> Forall on_course cfg -> Forall on_course cfg'.
Proof.
  induction 1 as [cfg | cfg cfg1 cfg2 Hs _ IH]; intros H; [exact H |].
  apply IH. exact (step_on_course _ _ Hs H).
Qed.

Lemma thread_step_holding cfg t t' l :
  thread_step cfg t t' -> l ∈ holding t' ->
  l ∈ holding t \/ lock_free cfg l.
Proof.
  intros [l0 h rest Hfree | l0 h rest]; cbn [holding]; intros Hl.
  - apply elem_of_cons in Hl. destruct Hl as [-> | Hl]; [right; exact Hfree | left; exact Hl].
  - left. apply elem_of_cons. right. exact Hl.
Qed.

Lemma step_exclusive cfg cfg' : step cfg cfg' -> exclusive cfg -> exclusive cfg'.
Proof.
  intros [c i0 t0 t0' Hi0 Ht0] Hex i j t t' l Hi Hj Hl Hl'.
  assert (Hlen : (i0 < length c)%nat) by (apply lookup_lt_is_Some; eauto).
  assert (Hnot : forall k tk, k <> i0 -> c !! k = Some tk -> l ∈ holding tk ->
                              l ∈ holding t0' -> False).
  { intros k tk Hk Hck Hlk Hl0.
    destruct (thread_step_holding c t0 t0' l Ht0 Hl0) as [Hin | Hfree].
    - apply Hk. exact (Hex k i0 tk t0 l Hck Hi0 Hlk Hin).
    - unfold lock_free in Hfree.
      exact (Forall_lookup_1 _ _ _ _ Hfree Hck Hlk). }
  destruct (decide (i = i0)) as [-> | Hni]; destruct (decide (j = i0)) as [-> | Hnj];
    try reflexivity.
  - rewrite list_lookup_insert_eq in Hi by exact Hlen. injection Hi as <-.
    rewrite list_lookup_insert_ne in Hj by congruence.
    exfalso. exact (Hnot j t' Hnj Hj Hl' Hl).
  - rewrite list_lookup_insert_eq in Hj by exact Hlen. injection Hj as <-.
    rewrite list_lookup_insert_ne in Hi by congruence.
    exfalso. exact (Hnot i t Hni Hi Hl Hl').
  - rewrite list_lookup_insert_ne in Hi by congruence.
    rewrite list_lookup_insert_ne in Hj by congruence.
    exact (Hex i j t t' l Hi Hj Hl Hl').
Qed.

Lemma start_exclusive programs : exclusive (start programs).
Proof.
  intros i j t t' l Hi _ Hl _. unfold start in Hi.
  rewrite list_lookup_fmap in Hi.
  destruct (programs !! i); cbn in Hi; [| discriminate Hi].
  injection Hi as <-. cbn in Hl. apply elem_of_nil in Hl. contradiction.
Qed.

Lemma reachable_exclusive cfg cfg' :
  rtc step cfg cfg' -> exclusive cfg -> exclusive cfg'.
Proof.
  induction 1 as [cfg | cfg cfg1 cfg2 Hs _ IH]; intros H; [exact H |].
  apply IH. exact (step_exclusive _ _ Hs H).
Qed.

(** Along a chain of waiting threads the rank of the lock waited for
    grows, and there are three ranks. *)
Lemma no_waiting_chain cfg (D : nat -> Prop) :
  Forall on_course cfg ->
  (forall i, D i -> exists j, D j /\ waits_for cfg i j) ->
  forall (n i : nat) (t : thread) (l : lock) (rest : list lock_event),
    D i -> cfg !! i = Some t -> pending t = Acquire l :: rest ->
    (3 <= rank l + n)%nat -> False.
Proof.
  intros Hc Hw. induction n as [| n IH]; intros i t l rest Hi Hti Hp Hn.
  - pose proof (rank_bound l). lia.
  - destruct (Hw i Hi) as (j & Hj & ti & tj & l1 & rest1 & Hti' & Hp1 & Htj & Hheld).
    rewrite Hti in Hti'. injection Hti' as <-.
    rewrite Hp in Hp1. injection Hp1 as <- <-.
    destruct (Hw j Hj) as (k & _ & tj' & tk & l2 & rest2 & Htj' & Hp2 & _ & _).
    rewrite Htj in Htj'. injection Htj' as <-.
    pose proof (Forall_lookup_1 _ _ _ _ Hc Htj) as Hon. unfold on_course in Hon.
    rewrite Hp2 in Hon. cbn [held_after] in Hon.
    destruct (forallb _ (holding tj)) eqn:Ef; [| discriminate Hon].
    apply forallb_rank_lt in Ef.
    pose proof (proj1 (Forall_forall _ _) Ef l Hheld) as Hlt. cbn in Hlt.
    apply (IH j tj l2 rest2 Hj Htj Hp2). lia.
Qed.

Lemma on_course_no_deadlock cfg (D : nat -> Prop) :
  Forall on_course cfg -> ~ deadlocked cfg D.
Proof.
  intros Hc [[i Hi] Hw].
  destruct (Hw i Hi) as (j & _ & t & tj & l & rest & Hti & Hp & _ & _).
  apply (no_waiting_chain cfg D Hc Hw 3 i t l rest Hi Hti Hp). lia.
Qed.

(** C9.  The lock events of any sequence of public calls that returns,
    from any registry and any world, respect the hierarchy: a lock is
    acquired only while every lock held is of strictly smaller rank
    (registry 0, record 1, thread state 2), it is released innermost
    first, and none is left held; so at every moment the locks held are in
    descending rank, at most one of each level.  And threads that each
    perform such events, interleaved in any way, with a lock granted only
    when no thread holds it, never hold a lock twice, never form a set of
    threads that wait for one another, and never reach a configuration
    where a thread has events left and none can move. *)
Theorem lock_hierarchy_excludes_deadlock :
  (forall (d : ThreadState) (order : gmap string ClientInfo -> list string)
          (ops : list op) (m m' : ClientManager) (w w' : World),
      run_ops d order ops m w = Ok (m', w') ->
      exists evs,
        lock_trace w' = lock_trace w ++ evs
        /\ hierarchical evs
        /\ forall prefix rest,
             evs = prefix ++ rest ->
             exists held, held_after [] prefix = Some held /\ descending held)
  /\
  (forall (programs : list (list lock_event)) (cfg : list thread),
      Forall hierarchical programs ->
      rtc step (start programs) cfg ->
      exclusive cfg
      /\ (forall D : nat -> Prop, ~ deadlocked cfg D)
      /\ (finished cfg \/ exists cfg', step cfg cfg')).
Proof.
  split.
  - intros d order ops m m' w w' H.
    destruct (run_ops_world d order ops m w m' w' H) as (_ & _ & evs & E & S).
    exists evs. split; [exact E |].
    pose proof (scoped_hierarchical evs S) as Hh. split; [exact Hh |].
    intros prefix rest Hsplit. exact (hierarchical_prefix evs prefix rest Hh Hsplit).
  - intros programs cfg Hp Hreach.
    pose proof (reachable_on_course _ _ Hreach (start_on_course programs Hp)) as Hc.
    split; [exact (reachable_exclusive _ _ Hreach (start_exclusive programs)) |].
    split; [intros D; exact (on_course_no_deadlock cfg D Hc) |].
    exact (on_course_progress cfg Hc).
Qed.

Lemma lock_hierarchy_excludes_deadlock_witness :
  (exists m' w',
      run_ops blank_state entries_order [Op_updateStates "a" first_report]
              fresh_even_registry (world_at 1000) = Ok (m', w')
      /\ lock_trace w' = heartbeat_events)
  /\ hierarchical heartbeat_events
  /\ rtc step (start [heartbeat_events; heartbeat_events]) one_in_registry
  /\ exclusive one_in_registry
  /\ (forall D : nat -> Prop, ~ deadlocked one_in_registry D)
  /\ (finished one_in_registry \/ exists cfg', step one_in_registry cfg').
Proof.
  assert (Hrun : exists m' w',
             run_ops blank_state entries_order [Op_updateStates "a" first_report]
                     fresh_even_registry (world_at 1000) = Ok (m', w')
             /\ lock_trace w' = heartbeat_events).
  { eexists. eexists. split; [vm_compute; reflexivity | reflexivity]. }
  split; [exact Hrun |].
  destruct Hrun as (m' & w' & Hrun & Htrace).
  destruct (proj1 lock_hierarchy_excludes_deadlock _ _ _ _ _ _ _ Hrun)
    as (evs & Hevs & Hh & _).
  assert (evs = heartbeat_events) as -> by (rewrite <- Htrace, Hevs; reflexivity).
  split; [exact Hh |].
  assert (Hreach : rtc step (start [heartbeat_events; heartbeat_events]) one_in_registry).
  { apply rtc_once.
    apply (step_thread _ 0%nat (mkThread [] heartbeat_events)); [reflexivity |].
    apply (acquire_step _ L_manager [] (tail heartbeat_events)).
    repeat constructor; cbn; apply not_elem_of_nil. }
  split; [exact Hreach |].
  apply (proj2 lock_hierarchy_excludes_deadlock [heartbeat_events; heartbeat_events]);
    [| exact Hreach].
  constructor; [exact Hh |]. constructor; [exact Hh | constructor].
Defined.

(** ** The counters of a registry in use *)

Lemma sum_insert (l : list Z) : forall (i : nat) (c c' : Z),
  l !! i = Some c ->
  foldr Z.add 0 (<[i := c']> l) = foldr Z.add 0 l - c + c'.
Proof.
  induction l as [| x l IH]; intros [| i] c c' H; try discriminate H.
  - injection H as ->. cbn. lia.
  - change (<[S i := c']> (x :: l)) with (x :: <[i := c']> l).
    change ((x :: l) !! S i) with (l !! i) in H.
    cbn [foldr]. rewrite (IH i c c' H). lia.
Qed.

Lemma counted_put m k c : counted m -> counted (put_client m k c).
Proof. intros H. exact H. Qed.

Lemma alloc_type_counted m t m' : alloc_type m = Ok (t, m') -> counted m -> counted m'.
Proof.
  intros H [Hsum Hsign].
  destruct (alloc_type_inv m t m' H) as (_ & _ & [(-> & _) | (c & Hc & Hcounts & Hn & Hne)]).
  - split; assumption.
  - unfold counted, sum_counts. rewrite Hcounts, Hn, (sum_insert _ _ c (c + 1) Hc).
    unfold sum_counts in Hsum. split; lia.
Qed.

Lemma dealloc_type_counted m t m' : dealloc_type m t = Ok m' -> counted m -> counted m'.
Proof.
  intros H [Hsum Hsign].
  destruct (dealloc_type_inv m t m' H) as (_ & _ & c & Hc & Hcounts & Hn).
  unfold counted, sum_counts. rewrite Hcounts, Hn, (sum_insert _ _ c (c - 1) Hc).
  unfold sum_counts in Hsum. split; lia.
Qed.

Lemma updateClients_loop_counted keys : forall m w dead alive m' w' r,
  updateClients_loop keys m w dead alive = Ok (m', w', r) ->
  counted m -> counted m'.
Proof.
  induction keys as [| k keys IH]; intros m w dead alive m' w' r H Hc;
    cbn [updateClients_loop] in H.
  - injection H as <- _ _. exact Hc.
  - destruct (clients_ m !! k) as [c |]; [| exact (IH _ _ _ _ _ _ _ H Hc)].
    rewrite updateActive_eq in H. cbv beta iota zeta in H.
    destruct (transition (active_ c) (curr_active_at c (now_of w))).
    + destruct (type _ _) as [t w2].
      destruct (dealloc_type _ t) as [m2 | |] eqn:Ed; cbn [obind] in H;
        try discriminate H.
      apply (IH _ _ _ _ _ _ _ H).
      exact (dealloc_type_counted _ _ _ Ed (counted_put m k _ Hc)).
    + destruct (alloc_type _) as [[t m2] | |] eqn:Ea; cbn [obind fst snd] in H;
        try discriminate H.
      destruct (set_type _ t _) as [c2 w2].
      apply (IH _ _ _ _ _ _ _ H). apply counted_put.
      exact (alloc_type_counted _ _ _ Ea (counted_put m k _ Hc)).
    + exact (IH _ _ _ _ _ _ _ H (counted_put m k _ Hc)).
    + exact (IH _ _ _ _ _ _ _ H (counted_put m k _ Hc)).
Qed.

Section Counters.

Variable d : ThreadState.
Variable order : gmap string ClientInfo -> list string.

Lemma updateClients_counted m w m' w' :
  updateClients order m w = Ok (m', w') -> counted m -> counted m'.
Proof.
  unfold updateClients.
  destruct (updateClients_loop _ m w [] []) as [[[m1 w1] [dead alive]] | |] eqn:El;
    cbn [obind]; try discriminate.
  intros H Hc. pose proof (updateClients_loop_counted _ _ _ _ _ _ _ _ El Hc) as H1.
  destruct dead, alive; injection H as <- _; exact H1.
Qed.

Lemma _getClient_counted m id w c m' w' :
  _getClient d m id w = Ok (c, m', w') -> counted m -> counted m'.
Proof.
  unfold _getClient. destruct (clients_ m !! id) as [c0 |].
  - intros H. injection H as _ <- _. tauto.
  - destruct (ClientInfo_new d id _ _ w) as [e w1].
    destruct (alloc_type (put_client m id e)) as [[t m2] | |] eqn:Ea;
      cbn [obind fst snd]; try discriminate.
    destruct (set_type e t w1) as [e2 w2].
    intros H Hc. injection H as _ <- _. apply counted_put.
    exact (alloc_type_counted _ _ _ Ea (counted_put m id e Hc)).
Qed.

Lemma run_op_counted o m w m' w' :
  run_op d order o m w = Ok (m', w') -> counted m -> counted m'.
Proof.
  destruct o as [ratio | id states | id | id | | | id call]; cbn [run_op];
    try (intros H; injection H as <- _; tauto).
  - unfold updateStates.
    destruct (_getClient d m id _) as [[[c m1] w1] | |] eqn:Eg; cbn [obind];
      try discriminate.
    destruct (updateStates_loop states c w1) as [[c2 w2] | |]; cbn [obind];
      try discriminate.
    destruct (updateClients order (put_client m1 id c2) w2) as [[m3 w3] | |] eqn:Eu;
      cbn [obind]; try discriminate.
    intros H Hc. injection H as <- _.
    apply (updateClients_counted _ _ _ _ Eu). apply counted_put.
    exact (_getClient_counted _ _ _ _ _ _ Eg Hc).
  - unfold getClient.
    destruct (_getClient d m id _) as [[[c m1] w1] | |] eqn:Eg; cbn [obind];
      try discriminate.
    intros H Hc. injection H as <- _. exact (_getClient_counted _ _ _ _ _ _ Eg Hc).
  - destruct (clients_ m !! id) as [c |].
    + destruct (run_client_call call c w) as [[c1 w1] | |]; cbn [obind fst snd];
        try discriminate.
      intros H Hc. injection H as <- _. exact (counted_put m id c1 Hc).
    + intros H. injection H as <- _. tauto.
Qed.

(** X1.  In every registry reached from its construction by public calls, [n_]
    is the sum of [num_clients_] and is not positive: it cannot be the
    number of live records once there is one. *)
Lemma counters_sum_and_sign options ops m0 w0 m w :
  ClientManager_new options = Ok m0 ->
  run_ops d order ops m0 w0 = Ok (m, w) ->
  n_ m = sum_counts m /\ n_ m <= 0.
Proof.
  intros Hnew. assert (H0 : counted m0).
  { unfold ClientManager_new in Hnew. destruct (assert _); cbn [obind] in Hnew;
      try discriminate Hnew.
    injection Hnew as <-. unfold counted, sum_counts. cbn [n_ num_clients_].
    split; [| lia]. induction (length _) as [| k IH]; cbn; [reflexivity | exact IH]. }
  clear Hnew. revert m0 w0 H0.
  induction ops as [| o ops IH]; intros m0 w0 H0; cbn [run_ops].
  - intros H. injection H as <- _. exact H0.
  - destruct (run_op d order o m0 w0) as [[m1 w1] | |] eqn:Eo; cbn [obind fst snd];
      try discriminate.
    apply IH. exact (run_op_counted _ _ _ _ _ Eo H0).
Qed.

End Counters.

(** ** A saturated type chosen in a run *)

(** The state [saturated_registry] stands for arises in runs as well: when
    "e" registers, type 1 holds one client, its limit, and is chosen,
    its share 1/(-1) being below its ratio. *)
Lemma saturated_type_chosen_in_a_run :
  ClientManager_new tight_options = Ok fresh_tight_registry
  /\ exists r4 r5,
       run_ops blank_state entries_order
         [Op_updateStates "a" []; Op_updateStates "b" [];
          Op_updateStates "c" []; Op_updateStates "d" []]
         fresh_tight_registry jump_world = Ok r4
       /\ num_clients_ r4.1 = [-2; 1]
       /\ n_ r4.1 = -1
       /\ client_type_limits (options_ r4.1) = [100; 1]
       /\ run_ops blank_state entries_order [Op_updateStates "e" []] r4.1 r4.2 = Ok r5
       /\ type_of r5.1 "e" = Some 1
       /\ num_clients_ r5.1 = [-2; 2].
Proof.
  split; [reflexivity |].
  eexists. eexists.
  split; [vm_compute; reflexivity |].
  split; [reflexivity |]. split; [reflexivity |]. split; [reflexivity |].
  split; [vm_compute; reflexivity |].
  split; reflexivity.
Qed.

(** * Further properties of the code *)

(** ** Allocation and deallocation *)

Lemma set_counts_same m : set_counts m (num_clients_ m) (n_ m) = m.
Proof. destruct m; reflexivity. Qed.

(** What [alloc_type] returns past the bootstrap branch. *)
Lemma alloc_type_counted_branch m t m' :
  alloc_type m = Ok (t, m') -> n_ m <> 0 ->
  0 <= t < num_types m
  /\ exists c, num_clients_ m !! Z.to_nat t = Some c
               /\ m' = set_counts m (<[Z.to_nat t := c + 1]> (num_clients_ m)) (n_ m + 1).
Proof.
  unfold alloc_type. intros H Hn. rewrite bool_decide_eq_false_2 in H by exact Hn.
  destruct (alloc_scan _ _ _ _ _) as [pri | |]; cbn [obind] in H; try discriminate H.
  destruct (assert _); cbn [obind] in H; try discriminate H.
  unfold vec_at in H. case_bool_decide as Hb; cbn [obind] in H; try discriminate H.
  destruct (num_clients_ m !! _) as [c |] eqn:Ec; cbn [obind] in H; try discriminate H.
  injection H as <- <-. split.
  - split; [exact Hb |]. unfold num_types.
    pose proof (lookup_lt_Some _ _ _ Ec). lia.
  - exists c. split; [exact Ec | reflexivity].
Qed.

(** X2.  Past the bootstrap branch [dealloc_type] undoes [alloc_type]: the
    two counters are back where they were.  In the bootstrap branch nothing
    was counted, so deallocating the type returned leaves [n_] at -1 and
    the count of type 0 one lower than before. *)
Theorem dealloc_type_undoes_alloc_type (m m' : ClientManager) (t : ClientType) :
  alloc_type m = Ok (t, m') ->
  (n_ m <> 0 -> dealloc_type m' t = Ok m)
  /\ (n_ m = 0 ->
      t = 0 /\ m' = m
      /\ forall m'', dealloc_type m' t = Ok m'' ->
                     n_ m'' = -1
                     /\ exists c, num_clients_ m !! 0%nat = Some c
                                  /\ num_clients_ m'' !! 0%nat = Some (c - 1)).
Proof.
  intros H. split.
  - intros Hn. destruct (alloc_type_counted_branch m t m' H Hn) as ([H0 H1] & c & Hc & ->).
    unfold dealloc_type. cbn [set_counts num_clients_ n_].
    rewrite length_insert. unfold num_types in H1.
    rewrite !bool_decide_eq_true_2 by assumption. cbn [andb assert obind].
    unfold vec_at. rewrite bool_decide_eq_true_2 by exact H0.
    rewrite list_lookup_insert_eq by lia. cbn [obind].
    f_equal. rewrite list_insert_insert_eq.
    replace (c + 1 - 1) with c by lia. rewrite (list_insert_id _ _ _ Hc).
    replace (n_ m + 1 - 1) with (n_ m) by lia.
    destruct m; reflexivity.
  - intros Hn. unfold alloc_type in H. rewrite bool_decide_eq_true_2 in H by exact Hn.
    injection H as <- <-. split; [reflexivity |]. split; [reflexivity |].
    intros m'' Hd. destruct (dealloc_type_inv _ _ _ Hd) as (_ & _ & c & Hc & Hcounts & Hn').
    split; [lia |]. exists c. split; [exact Hc |].
    rewrite Hcounts. apply list_lookup_insert_eq. exact (lookup_lt_Some _ _ _ Hc).
Qed.

Lemma dealloc_type_undoes_alloc_type_witness :
  alloc_type balanced_registry = Ok (0, set_counts balanced_registry [2; 1] 3)
  /\ n_ balanced_registry <> 0
  /\ dealloc_type (set_counts balanced_registry [2; 1] 3) 0 = Ok balanced_registry.
Proof.
  assert (Ha : alloc_type balanced_registry = Ok (0, set_counts balanced_registry [2; 1] 3)).
  { vm_compute. reflexivity. }
  assert (Hn : n_ balanced_registry <> 0) by discriminate.
  split; [exact Ha |]. split; [exact Hn |].
  exact (proj1 (dealloc_type_undoes_alloc_type _ _ _ Ha) Hn).
Defined.

(** X3.  [dealloc_type] ends in the failed assertion exactly when the type
    is outside [0, num_clients_.size()); inside, it lowers the count of
    that type and [n_] by one, whatever the count was (it may go below 0),
    and touches nothing else. *)
Theorem dealloc_type_bounds_and_effect (m : ClientManager) (t : ClientType) :
  (dealloc_type m t = AssertFailed <-> ~ (0 <= t < num_types m))
  /\ dealloc_type m t <> Undefined
  /\ (0 <= t < num_types m <->
      exists c, num_clients_ m !! Z.to_nat t = Some c
                /\ dealloc_type m t =
                     Ok (set_counts m (<[Z.to_nat t := c - 1]> (num_clients_ m)) (n_ m - 1))).
Proof.
  unfold num_types, dealloc_type.
  destruct (decide (0 <= t < Z.of_nat (length (num_clients_ m)))) as [Hb | Hb].
  - destruct Hb as [H0 H1].
    rewrite !bool_decide_eq_true_2 by assumption. cbn [andb assert obind].
    destruct (vec_at_in_range (num_clients_ m) t (conj H0 H1)) as (c & Hc & ->).
    cbn [obind]. split; [| split].
    + split; [discriminate | intros H; exfalso; apply H; split; assumption].
    + discriminate.
    + split; [intros _; exists c; split; [exact Hc | reflexivity] | intros _; split; assumption].
  - assert (Hf : bool_decide (0 <= t) && bool_decide (t < Z.of_nat (length (num_clients_ m)))
                 = false).
    { destruct (decide (0 <= t)) as [H0 | H0].
      - rewrite (bool_decide_eq_true_2 _ H0), bool_decide_eq_false_2 by lia. reflexivity.
      - rewrite (bool_decide_eq_false_2 _ H0). reflexivity. }
    rewrite Hf. cbn [assert obind]. split; [| split].
    + split; [intros _; exact Hb | reflexivity].
    + discriminate.
    + split; [intros H; contradiction | intros (c & _ & H); discriminate H].
Qed.

(** X4.  The type [alloc_type] returns is a type of the registry, except in
    the bootstrap branch, which returns type 0 without looking: with no
    type configured the first allocation still answers 0, a later one
    fails the assertion, and [dealloc_type] of that 0 fails its own. *)
Theorem alloc_type_range (m : ClientManager) :
  (forall t m', alloc_type m = Ok (t, m') ->
                (n_ m = 0 /\ t = 0 /\ m' = m) \/ (n_ m <> 0 /\ 0 <= t < num_types m))
  /\ (num_clients_ m = [] ->
      (n_ m = 0 -> alloc_type m = Ok (0, m))
      /\ (n_ m <> 0 -> alloc_type m = AssertFailed)
      /\ dealloc_type m 0 = AssertFailed).
Proof.
  split.
  - intros t m' H. destruct (decide (n_ m = 0)) as [Hn | Hn].
    + left. unfold alloc_type in H. rewrite bool_decide_eq_true_2 in H by exact Hn.
      injection H as <- <-. repeat split. exact Hn.
    + right. split; [exact Hn |]. exact (proj1 (alloc_type_counted_branch m t m' H Hn)).
  - intros He. split; [| split].
    + intros Hn. unfold alloc_type. rewrite bool_decide_eq_true_2 by exact Hn. reflexivity.
    + intros Hn. unfold alloc_type. rewrite bool_decide_eq_false_2 by exact Hn.
      rewrite He. reflexivity.
    + unfold dealloc_type. rewrite He. reflexivity.
Qed.

Lemma alloc_type_range_witness :
  num_clients_ no_type_registry = []
  /\ n_ no_type_registry = 0
  /\ alloc_type no_type_registry = Ok (0, no_type_registry)
  /\ dealloc_type no_type_registry 0 = AssertFailed.
Proof.
  split; [reflexivity |]. split; [reflexivity |].
  destruct (proj2 (alloc_type_range no_type_registry) eq_refl) as (H0 & _ & Hd).
  split; [exact (H0 eq_refl) | exact Hd].
Defined.

(** ** Replacing the ratios *)

Lemma alloc_scan_short_ratios m : forall (count : nat) (t : Z) (pri0 pri1 : list Z),
  0 <= t ->
  length (client_type_limits (options_ m)) = length (num_clients_ m) ->
  (Z.to_nat t <= length (client_type_ratios (options_ m)))%nat ->
  (length (client_type_ratios (options_ m)) < Z.to_nat t + count)%nat ->
  (Z.to_nat t + count <= length (num_clients_ m))%nat ->
  alloc_scan m t count pri0 pri1 = Undefined.
Proof.
  induction count as [| count IH]; intros t pri0 pri1 Ht Hl Hlo Hhi Hlen; [lia |].
  cbn [alloc_scan].
  destruct (vec_at_in_range (num_clients_ m) t) as (c & _ & ->); [lia |].
  destruct (vec_at_in_range (client_type_limits (options_ m)) t) as (lim & _ & ->); [lia |].
  cbn [obind].
  destruct (decide (Z.to_nat t < length (client_type_ratios (options_ m)))%nat) as [Hin | Hout].
  - destruct (vec_at_in_range (client_type_ratios (options_ m)) t) as (r & _ & ->); [lia |].
    cbn [obind]. apply IH; lia.
  - unfold vec_at. rewrite bool_decide_eq_true_2 by exact Ht.
    rewrite lookup_ge_None_2 by lia. reflexivity.
Qed.

(** X5.  [setClientTypeRatio] stores the vector it is given without
    comparing its length with the number of types.  A vector of the right
    length keeps a ratio for every type; a shorter one makes the next
    allocation past the bootstrap branch read [client_type_ratios] outside
    its bounds. *)
Theorem setClientTypeRatio_unchecked_length (m : ClientManager) (ratio : list float)
    (w : World) :
  length (client_type_limits (options_ m)) = length (num_clients_ m) ->
  client_type_ratios (options_ (setClientTypeRatio m ratio w).1) = ratio
  /\ (length ratio = length (num_clients_ m) -> sized (setClientTypeRatio m ratio w).1)
  /\ ((length ratio < length (num_clients_ m))%nat -> n_ m <> 0 ->
      alloc_type (setClientTypeRatio m ratio w).1 = Undefined).
Proof.
  intros Hl. unfold setClientTypeRatio. cbn [fst].
  split; [reflexivity |]. split.
  - intros Hr. split; [exact Hr | exact Hl].
  - intros Hshort Hn. unfold alloc_type. cbn [set_ratios n_ num_clients_].
    rewrite bool_decide_eq_false_2 by exact Hn.
    rewrite alloc_scan_short_ratios; [reflexivity | lia | exact Hl | | | ];
      cbn [set_ratios options_ client_type_ratios num_clients_]; lia.
Qed.

Lemma setClientTypeRatio_unchecked_length_witness :
  length (client_type_limits (options_ balanced_registry))
    = length (num_clients_ balanced_registry)
  /\ (length [f32_one] < length (num_clients_ balanced_registry))%nat
  /\ n_ balanced_registry <> 0
  /\ alloc_type (setClientTypeRatio balanced_registry [f32_one] (world_at 0)).1 = Undefined.
Proof.
  assert (Hl : length (client_type_limits (options_ balanced_registry))
               = length (num_clients_ balanced_registry)) by reflexivity.
  assert (Hs : (length [f32_one] < length (num_clients_ balanced_registry))%nat)
    by (cbn; lia).
  assert (Hn : n_ balanced_registry <> 0) by discriminate.
  repeat (split; [assumption |]).
  exact (proj2 (proj2 (setClientTypeRatio_unchecked_length balanced_registry [f32_one]
                         (world_at 0) Hl)) Hs Hn).
Defined.

(** ** Liveness of one record *)

(** X6.  [IsStuck], asked with the time a sweep reads, answers the opposite
    of the flag the sweep leaves, and the delay it reports is the elapsed
    time in [uint64_t]; it changes nothing of the record. *)
Theorem IsStuck_is_not_active (c : ClientInfo) (w w0 : World) :
  (IsStuck c (now_of w) w0).1.1 = negb (active_ (updateActive c w).1.2)
  /\ (IsStuck c (now_of w) w0).1.2 = wrap64 (now_of w - last_update_ c)
  /\ ((IsStuck c (now_of w) w0).1.1 = true
      <-> max_delay_sec_ c <= wrap64 (now_of w - last_update_ c)).
Proof.
  rewrite updateActive_eq. unfold IsStuck, curr_active_at. cbn [fst snd set_active_field active_].
  split; [| split; [reflexivity |]].
  - destruct (decide (wrap64 (now_of w - last_update_ c) < max_delay_sec_ c)) as [H | H].
    + rewrite (bool_decide_eq_true_2 _ H), bool_decide_eq_false_2 by lia. reflexivity.
    + rewrite (bool_decide_eq_false_2 _ H), bool_decide_eq_true_2 by lia. reflexivity.
  - apply bool_decide_eq_true.
Qed.

(** X7.  The answers of successive sweeps of a record alternate as the flag
    does: after [ALIVE] or [DEAD2ALIVE] comes [ALIVE] or [ALIVE2DEAD],
    after [DEAD] or [ALIVE2DEAD] comes [DEAD] or [DEAD2ALIVE]; and a sweep
    that reads the same time, with no heartbeat in between, reports no
    transition. *)
Theorem updateActive_answers_alternate (c : ClientInfo) (w1 w2 : World) :
  let r1 := updateActive c w1 in
  let r2 := updateActive r1.1.2 w2 in
  (r1.1.1 = ALIVE \/ r1.1.1 = DEAD2ALIVE -> r2.1.1 = ALIVE \/ r2.1.1 = ALIVE2DEAD)
  /\ (r1.1.1 = DEAD \/ r1.1.1 = ALIVE2DEAD -> r2.1.1 = DEAD \/ r2.1.1 = DEAD2ALIVE)
  /\ (now_of w2 = now_of w1 -> (r2.1.1 = ALIVE \/ r2.1.1 = DEAD) /\ r2.1.2 = r1.1.2).
Proof.
  cbv zeta. rewrite !updateActive_eq. cbn [fst snd].
  set (b1 := curr_active_at c (now_of w1)).
  assert (Hsame : forall now, curr_active_at (set_active_field c b1) now = curr_active_at c now)
    by reflexivity.
  rewrite Hsame. cbn [set_active_field active_].
  set (b2 := curr_active_at c (now_of w2)).
  split; [| split].
  - destruct (active_ c), b1, b2; cbn; intros [H | H]; try discriminate H; tauto.
  - destruct (active_ c), b1, b2; cbn; intros [H | H]; try discriminate H; tauto.
  - intros Hnow. subst b2. rewrite Hnow. fold b1.
    split; [destruct b1; cbn; tauto | destruct b1; reflexivity].
Qed.

(** X8.  Edges of the timeout test, the subtraction being in [uint64_t]:
    with a timeout of 0 a sweep always leaves the record inactive; and
    when the timer reads earlier than [last_update_] the delay wraps to a
    huge value, so that the sweep leaves the record inactive unless the
    timeout is huger still. *)
Theorem updateActive_timeout_edges (c : ClientInfo) (w : World) :
  (max_delay_sec_ c = 0 -> active_ (updateActive c w).1.2 = false)
  /\ (now_of w < last_update_ c -> last_update_ c < 2 ^ 64 ->
      (forall w0 : World,
          (IsStuck c (now_of w) w0).1.2 = 2 ^ 64 - (last_update_ c - now_of w))
      /\ (max_delay_sec_ c <= 2 ^ 64 - (last_update_ c - now_of w) ->
          active_ (updateActive c w).1.2 = false
          /\ ((updateActive c w).1.1 = ALIVE2DEAD \/ (updateActive c w).1.1 = DEAD))).
Proof.
  rewrite updateActive_eq. cbn [fst snd set_active_field active_].
  assert (Hpos : 0 <= now_of w < 2 ^ 64) by (apply Z.mod_pos_bound; lia).
  split.
  - intros H0. unfold curr_active_at. rewrite H0. apply bool_decide_eq_false_2.
    pose proof (Z.mod_pos_bound (now_of w - last_update_ c) (2 ^ 64)). unfold wrap64. lia.
  - intros Hnow Hlast.
    assert (E : wrap64 (now_of w - last_update_ c) = 2 ^ 64 - (last_update_ c - now_of w)).
    { unfold wrap64 at 1.
      replace (now_of w - last_update_ c)
        with (2 ^ 64 - (last_update_ c - now_of w) + (-1) * 2 ^ 64) by lia.
      rewrite Z.mod_add by lia. apply Z.mod_small. lia. }
    split; [intros w0; exact E |]. intros Hmax.
    assert (F : curr_active_at c (now_of w) = false).
    { unfold curr_active_at. rewrite E. apply bool_decide_eq_false_2. lia. }
    rewrite F. split; [reflexivity |]. destruct (active_ c); cbn; tauto.
Qed.

Lemma updateActive_timeout_edges_witness :
  (now_of (world_at 900) < last_update_ sample_client
   /\ last_update_ sample_client < 2 ^ 64
   /\ max_delay_sec_ sample_client
      <= 2 ^ 64 - (last_update_ sample_client - now_of (world_at 900)))
  /\ active_ (updateActive sample_client (world_at 900)).1.2 = false.
Proof.
  assert (H1 : now_of (world_at 900) < last_update_ sample_client)
    by (vm_compute; reflexivity).
  assert (H2 : last_update_ sample_client < 2 ^ 64) by (vm_compute; reflexivity).
  assert (H3 : max_delay_sec_ sample_client
               <= 2 ^ 64 - (last_update_ sample_client - now_of (world_at 900)))
    by (vm_compute; discriminate).
  split; [split; [exact H1 | split; [exact H2 | exact H3]] |].
  exact (proj1 (proj2 (proj2 (updateActive_timeout_edges sample_client (world_at 900))
                         H1 H2) H3)).
Defined.

(** ** The loop of a heartbeat *)

Lemma stateUpdate_frame c ts w c' w' :
  stateUpdate c ts w = Ok (c', w') -> frame c' = frame c.
Proof.
  intros H. destruct (stateUpdate_slots _ _ _ _ _ H) as (Hb & st' & Hths & _).
  destruct (vec_at_in_range (threads_ c) (thread_id ts) Hb) as (st & Hst & _).
  rewrite (stateUpdate_in_bounds c ts w st Hb Hst) in H. cbv zeta in H.
  destruct (StateUpdate st ts _) as [[changed st1] w1]. cbn [fst snd] in H.
  unfold frame.
  destruct changed; injection H as <- _; cbn [set_threads_field identity_ type_
    max_delay_sec_ seq_ active_ threads_]; rewrite length_insert; reflexivity.
Qed.

Lemma frame_in_bounds c c' tid : frame c' = frame c -> in_bounds c' tid <-> in_bounds c tid.
Proof.
  unfold frame, in_bounds. intros H. injection H as _ _ _ _ _ Hl. rewrite Hl. reflexivity.
Qed.

Lemma updateStates_loop_frame states : forall c w c' w',
  updateStates_loop states c w = Ok (c', w') -> frame c' = frame c.
Proof.
  induction states as [| s states IH]; intros c w c' w' H; cbn [updateStates_loop] in H.
  - injection H as <- _. reflexivity.
  - destruct (stateUpdate c s.2 w) as [[c1 w1] | |] eqn:E1; cbn [obind fst snd] in H;
      try discriminate H.
    rewrite (IH _ _ _ _ H). exact (stateUpdate_frame _ _ _ _ _ E1).
Qed.

Lemma stateUpdate_returns c ts w :
  in_bounds c (thread_id ts) -> exists c' w', stateUpdate c ts w = Ok (c', w').
Proof.
  intros Hb. destruct (vec_at_in_range (threads_ c) (thread_id ts) Hb) as (st & Hst & _).
  rewrite (stateUpdate_in_bounds c ts w st Hb Hst). cbv zeta.
  destruct (StateUpdate st ts _) as [[changed st1] w1]. cbn [fst snd].
  destruct changed; eexists; eexists; reflexivity.
Qed.

Lemma stateUpdate_aborts c ts w :
  ~ in_bounds c (thread_id ts) -> stateUpdate c ts w = AssertFailed.
Proof.
  intros Hb. unfold stateUpdate. rewrite (bounds_check_false _ _ Hb). reflexivity.
Qed.

Lemma updateStates_loop_returns states : forall c w,
  Forall (fun s => in_bounds c (thread_id s.2)) states ->
  exists c' w', updateStates_loop states c w = Ok (c', w').
Proof.
  induction states as [| s states IH]; intros c w H; cbn [updateStates_loop].
  - eexists. eexists. reflexivity.
  - inversion H as [| s0 l0 Hs Hrest]; subst.
    destruct (stateUpdate_returns c s.2 w Hs) as (c1 & w1 & E1).
    rewrite E1. cbn [obind fst snd]. apply IH.
    eapply Forall_impl; [exact Hrest |]. intros x Hx.
    apply (frame_in_bounds c c1); [exact (stateUpdate_frame _ _ _ _ _ E1) | exact Hx].
Qed.

Lemma updateStates_loop_aborts states : forall c w,
  ~ Forall (fun s => in_bounds c (thread_id s.2)) states ->
  updateStates_loop states c w = AssertFailed.
Proof.
  induction states as [| s states IH]; intros c w H; cbn [updateStates_loop].
  - exfalso. apply H. constructor.
  - destruct (decide (in_bounds c (thread_id s.2))) as [Hs | Hs].
    + destruct (stateUpdate_returns c s.2 w Hs) as (c1 & w1 & E1).
      rewrite E1. cbn [obind fst snd]. apply IH. intros Hrest. apply H.
      constructor; [exact Hs |].
      eapply Forall_impl; [exact Hrest |]. intros x Hx.
      apply (frame_in_bounds c c1); [exact (stateUpdate_frame _ _ _ _ _ E1) | exact Hx].
    + rewrite (stateUpdate_aborts c s.2 w Hs). reflexivity.
Qed.

(** X9.  The loop of a heartbeat returns exactly when every report names a
    slot of the record, and ends in the failed assertion otherwise; when
    it returns, only the slots' contents and [last_update_] may have
    changed.  An empty map changes nothing. *)
Theorem updateStates_loop_all_or_abort (states : list (Z * ThreadState))
    (c : ClientInfo) (w : World) :
  ((exists c' w', updateStates_loop states c w = Ok (c', w'))
   <-> Forall (fun s => in_bounds c (thread_id s.2)) states)
  /\ (updateStates_loop states c w = AssertFailed
      <-> ~ Forall (fun s => in_bounds c (thread_id s.2)) states)
  /\ (forall c' w', updateStates_loop states c w = Ok (c', w') -> frame c' = frame c)
  /\ updateStates_loop [] c w = Ok (c, w).
Proof.
  destruct (decide (Forall (fun s => in_bounds c (thread_id s.2)) states)) as [H | H].
  - destruct (updateStates_loop_returns states c w H) as (c' & w' & E).
    split; [| split; [| split]].
    + split; [intros _; exact H | intros _; exists c', w'; exact E].
    + rewrite E. split; [discriminate | contradiction].
    + intros c1 w1 E1. exact (updateStates_loop_frame _ _ _ _ _ E1).
    + reflexivity.
  - pose proof (updateStates_loop_aborts states c w H) as E.
    split; [| split; [| split]].
    + rewrite E. split; [intros (c' & w' & E1); discriminate E1 | contradiction].
    + split; [intros _; exact H | intros _; exact E].
    + rewrite E. discriminate.
    + reflexivity.
Qed.

(** X10.  After the loop of a heartbeat every slot holds the last report
    that names it, in the order the map is visited, and a slot no report
    names holds what it held. *)
Theorem updateStates_loop_last_report_wins (states : list (Z * ThreadState)) :
  forall (c c' : ClientInfo) (w w' : World),
    updateStates_loop states c w = Ok (c', w') ->
    forall (i : nat) (st : State),
      threads_ c !! i = Some st ->
      exists st', threads_ c' !! i = Some st'
                  /\ last_state_ st' = last_report i states (last_state_ st).
Proof.
  induction states as [| s states IH]; intros c c' w w' H i st Hst;
    cbn [updateStates_loop] in H.
  - injection H as <- _. exists st. split; [exact Hst | reflexivity].
  - destruct (stateUpdate c s.2 w) as [[c1 w1] | |] eqn:E1; cbn [obind fst snd] in H;
      try discriminate H.
    destruct (stateUpdate_slots _ _ _ _ _ E1) as (Hb & st1 & Hths & Hl).
    unfold last_report. cbn [foldl]. fold (last_report i states).
    case_bool_decide as Hi.
    + subst i. assert (H1 : threads_ c1 !! Z.to_nat (thread_id s.2) = Some st1).
      { rewrite Hths. apply list_lookup_insert_eq. exact (lookup_lt_Some _ _ _ Hst). }
      destruct (IH _ _ _ _ H _ _ H1) as (st' & Hst' & Hlast).
      exists st'. split; [exact Hst' |]. rewrite Hlast, Hl. reflexivity.
    + assert (H1 : threads_ c1 !! i = Some st).
      { rewrite Hths. rewrite list_lookup_insert_ne by exact Hi. exact Hst. }
      exact (IH _ _ _ _ H _ _ H1).
Qed.

Lemma set_threads_field_same c : set_threads_field c (threads_ c) (last_update_ c) = c.
Proof. destruct c; reflexivity. Qed.

Lemma stateUpdate_repeat c st w :
  0 <= thread_id (last_state_ st) ->
  threads_ c !! Z.to_nat (thread_id (last_state_ st)) = Some st ->
  stateUpdate c (last_state_ st) w
  = Ok (c, unlock_guard (mutex_ c)
             (unlock_guard (State_mutex_ st)
                (lock_guard (State_mutex_ st) (lock_guard (mutex_ c) w)))).
Proof.
  intros H0 Hst.
  assert (Hb : in_bounds c (thread_id (last_state_ st))).
  { split; [exact H0 |]. pose proof (lookup_lt_Some _ _ _ Hst). lia. }
  rewrite (stateUpdate_in_bounds c _ w st Hb Hst). cbv zeta.
  rewrite StateUpdate_same. cbn [fst snd].
  rewrite (list_insert_id _ _ _ Hst), set_threads_field_same. reflexivity.
Qed.

(** X11.  A heartbeat whose every report repeats what its slot holds leaves
    the record as it is and does not read the timer: [last_update_] is not
    refreshed, so the next sweep judges the record as if no heartbeat had
    come. *)
Theorem updateStates_loop_repeat_is_silent (states : list (Z * ThreadState))
    (c : ClientInfo) (w : World) :
  repeats c states ->
  exists w',
    updateStates_loop states c w = Ok (c, w')
    /\ timer_calls w' = timer_calls w
    /\ timer_ w' = timer_ w.
Proof.
  revert w. induction states as [| s states IH]; intros w H; cbn [updateStates_loop].
  - exists w. repeat split.
  - inversion H as [| s0 l0 (H0 & st & Hst & Hl) Hrest]; subst.
    rewrite <- Hl in *. rewrite (stateUpdate_repeat c st w H0 Hst). cbn [obind fst snd].
    match goal with
    | |- context [updateStates_loop states c ?w1] =>
        destruct (IH w1 Hrest) as (w' & E & Hc & Ht)
    end.
    exists w'. split; [exact E |]. split; [exact Hc | exact Ht].
Qed.

Lemma updateStates_loop_repeat_is_silent_witness :
  repeats sample_client [(0, last_state_ sample_state)]
  /\ exists w',
       updateStates_loop [(0, last_state_ sample_state)] sample_client (world_at 5000)
       = Ok (sample_client, w')
       /\ timer_calls w' = timer_calls (world_at 5000)
       /\ timer_ w' = timer_ (world_at 5000).
Proof.
  assert (H : repeats sample_client [(0, last_state_ sample_state)]).
  { constructor; [| constructor].
    split; [cbn; lia |]. exists sample_state. split; reflexivity. }
  split; [exact H |].
  exact (updateStates_loop_repeat_is_silent [(0, last_state_ sample_state)]
           sample_client (world_at 5000) H).
Defined.

Lemma updateStates_loop_last_report_wins_witness :
  exists c' w',
    updateStates_loop two_reports two_slot_client (world_at 1000) = Ok (c', w')
    /\ (exists st', threads_ c' !! 1%nat = Some st'
                    /\ last_state_ st' = {| thread_id := 1; snapshot := 9 |})
    /\ (exists st', threads_ c' !! 0%nat = Some st' /\ last_state_ st' = blank_state).
Proof.
  eexists. eexists.
  assert (forall (P Q : Prop), P -> (P -> Q) -> P /\ Q) as Hsplit by tauto.
  apply Hsplit; [vm_compute; reflexivity | intros Hrun].
  split.
  - exact (updateStates_loop_last_report_wins two_reports _ _ _ _ Hrun 1%nat _ eq_refl).
  - exact (updateStates_loop_last_report_wins two_reports _ _ _ _ Hrun 0%nat _ eq_refl).
Defined.

(** X12.  [threads] fails its assertion outside the bounds, and inside them
    reads back what [stateUpdate] wrote: after a [stateUpdate] that
    returns, [threads(ts.thread_id)] is a slot holding [ts]. *)
Theorem threads_reads_back_stateUpdate (c : ClientInfo) :
  (forall (tid : Z) (w1 : World),
      threads c tid w1 = AssertFailed <-> ~ in_bounds c tid)
  /\ (forall (ts : ThreadState) (w w' : World) (c' : ClientInfo),
         stateUpdate c ts w = Ok (c', w') ->
         forall w1 : World,
         exists st,
           threads c' (thread_id ts) w1
           = Ok (st, unlock_guard (mutex_ c') (lock_guard (mutex_ c') w1))
           /\ last_state_ st = ts).
Proof.
  split.
  - intros tid w1. unfold threads.
    destruct (decide (in_bounds c tid)) as [Hb | Hb].
    + rewrite (bounds_check_true _ _ Hb). cbn [assert obind].
      destruct (vec_at_in_range (threads_ c) tid Hb) as (st & _ & ->). cbn [obind].
      split; [discriminate | contradiction].
    + rewrite (bounds_check_false _ _ Hb). cbn [assert obind].
      split; [intros _; exact Hb | reflexivity].
  - intros ts w w' c' H w1.
    destruct (stateUpdate_slots _ _ _ _ _ H) as (Hb & st' & Hths & Hl).
    assert (Hb' : in_bounds c' (thread_id ts)).
    { apply (frame_in_bounds c c'); [exact (stateUpdate_frame _ _ _ _ _ H) | exact Hb]. }
    exists st'. split; [| exact Hl].
    unfold threads. rewrite (bounds_check_true _ _ Hb'). cbn [assert obind].
    unfold vec_at. rewrite bool_decide_eq_true_2 by apply Hb.
    rewrite Hths, list_lookup_insert_eq by (unfold in_bounds in Hb; lia). reflexivity.
Qed.

Lemma threads_reads_back_stateUpdate_witness :
  exists c' w' st,
    stateUpdate two_slot_client report_of_thread_1 (world_at 1000) = Ok (c', w')
    /\ threads c' 1 (world_at 1000)
       = Ok (st, unlock_guard (mutex_ c') (lock_guard (mutex_ c') (world_at 1000)))
    /\ last_state_ st = report_of_thread_1.
Proof.
  eexists. eexists.
  assert (forall (P : State -> Prop) (Q : Prop),
             Q -> (Q -> exists st, P st) -> exists st, Q /\ P st) as Hsplit.
  { intros P Q HQ H. destruct (H HQ) as [st Hst]. exists st. split; assumption. }
  apply Hsplit; [vm_compute; reflexivity | intros Hrun].
  exact (proj2 (threads_reads_back_stateUpdate two_slot_client) _ _ _ _ Hrun (world_at 1000)).
Defined.

(** ** The sweep *)

Lemma put_client_same m k c : clients_ m !! k = Some c -> put_client m k c = m.
Proof.
  intros H. destruct m as [o cs counts n]. unfold put_client. cbn in *.
  f_equal. apply insert_id. exact H.
Qed.

Lemma put_client_preserves {A : Type} (f : ClientInfo -> A) m k c c0 :
  clients_ m !! k = Some c0 -> f c = f c0 ->
  forall id, f <$> clients_ (put_client m k c) !! id = f <$> clients_ m !! id.
Proof.
  intros Hk Hf id. cbn [put_client clients_].
  destruct (decide (k = id)) as [-> | Hne].
  - rewrite lookup_insert_eq, Hk. cbn. rewrite Hf. reflexivity.
  - rewrite lookup_insert_ne by exact Hne. reflexivity.
Qed.

(** The sweep keeps, of every record, whatever neither [set_type] nor the
    flip of the flag changes. *)
Lemma updateClients_loop_preserves {A : Type} (f : ClientInfo -> A) :
  (forall c a, f (set_active_field c a) = f c) ->
  (forall c t, f (set_type_field c t) = f c) ->
  forall keys m w dead alive m' w' r,
    updateClients_loop keys m w dead alive = Ok (m', w', r) ->
    forall id, f <$> clients_ m' !! id = f <$> clients_ m !! id.
Proof.
  intros Fa Ft. induction keys as [| k keys IH]; intros m w dead alive m' w' r H;
    cbn [updateClients_loop] in H.
  - injection H as <- _ _. reflexivity.
  - destruct (clients_ m !! k) as [c |] eqn:Ek; [| exact (IH _ _ _ _ _ _ _ H)].
    rewrite updateActive_eq in H. cbv beta iota zeta in H.
    set (c1 := set_active_field c (curr_active_at c (now_of w))) in *.
    assert (K1 : forall id, f <$> clients_ (put_client m k c1) !! id = f <$> clients_ m !! id).
    { apply (put_client_preserves f m k c1 c Ek). apply Fa. }
    intros id.
    destruct (transition (active_ c) (curr_active_at c (now_of w))).
    + destruct (type c1 _) as [t w2].
      destruct (dealloc_type (put_client m k c1) t) as [m2 | |] eqn:Ed;
        cbn [obind] in H; try discriminate H.
      destruct (dealloc_type_inv _ _ _ Ed) as (Hc & _ & _).
      rewrite (IH _ _ _ _ _ _ _ H id), Hc. apply K1.
    + destruct (alloc_type (put_client m k c1)) as [[t m2] | |] eqn:Ea;
        cbn [obind fst snd] in H; try discriminate H.
      destruct (alloc_type_inv _ _ _ Ea) as (Hc & _ & _).
      destruct (set_type c1 t _) as [c2 w2] eqn:Es.
      assert (Hc2 : c2 = set_type_field c1 t).
      { unfold set_type in Es. injection Es as <- _. reflexivity. }
      rewrite (IH _ _ _ _ _ _ _ H id).
      rewrite (put_client_preserves f m2 k c2 c1);
        [rewrite Hc; apply K1 | rewrite Hc; apply put_client_lookup | rewrite Hc2; apply Ft].
    + rewrite (IH _ _ _ _ _ _ _ H id). apply K1.
    + rewrite (IH _ _ _ _ _ _ _ H id). apply K1.
Qed.

Lemma fmap_eq_dom {A : Type} (f : ClientInfo -> A) (cs cs' : gmap string ClientInfo) :
  (forall id, f <$> cs' !! id = f <$> cs !! id) -> dom cs' = dom cs.
Proof.
  intros H. apply set_eq. intros id. rewrite !elem_of_dom. specialize (H id).
  destruct (cs' !! id), (cs !! id); cbn in H; try discriminate H;
    split; intros [x Hx]; try discriminate Hx; eauto.
Qed.

Lemma updateClients_dom order m w m' w' :
  updateClients order m w = Ok (m', w') -> dom (clients_ m') = dom (clients_ m).
Proof.
  unfold updateClients.
  destruct (updateClients_loop _ m w [] []) as [[[m1 w1] [dead alive]] | |] eqn:El;
    cbn [obind]; try discriminate.
  intros H.
  assert (Hm : m' = m1) by (destruct dead, alive; injection H as <- _; reflexivity).
  subst m'. apply (fmap_eq_dom core).
  exact (updateClients_loop_preserves core ltac:(reflexivity) ltac:(reflexivity)
           _ _ _ _ _ _ _ _ El).
Qed.

(** X13.  A sweep adds no record and removes none, and changes of a record
    only [type_] and [active_]: identity, timeout, sequence number,
    [last_update_] and the thread slots are as before; the options are
    untouched. *)
Theorem updateClients_changes_type_and_flag_only
    (order : gmap string ClientInfo -> list string)
    (m m' : ClientManager) (w w' : World) :
  updateClients order m w = Ok (m', w') ->
  dom (clients_ m') = dom (clients_ m)
  /\ options_ m' = options_ m
  /\ forall (id : string) (c : ClientInfo),
       clients_ m !! id = Some c ->
       exists c', clients_ m' !! id = Some c' /\ core c' = core c.
Proof.
  unfold updateClients.
  destruct (updateClients_loop _ m w [] []) as [[[m1 w1] [dead alive]] | |] eqn:El;
    cbn [obind]; try discriminate.
  intros H.
  assert (Hm : m' = m1) by (destruct dead, alive; injection H as <- _; reflexivity).
  subst m'.
  pose proof (updateClients_loop_preserves core ltac:(reflexivity) ltac:(reflexivity)
                _ _ _ _ _ _ _ _ El) as K.
  destruct (updateClients_loop_keeps _ _ _ _ _ _ _ _ El) as (_ & O & _).
  split; [exact (fmap_eq_dom core _ _ K) |]. split; [exact O |].
  intros id c Hc. specialize (K id). rewrite Hc in K.
  destruct (clients_ m1 !! id) as [c' |]; cbn in K; [| discriminate K].
  exists c'. split; [reflexivity | congruence].
Qed.

Lemma settled_later w w' m : later w w' -> settled w m -> settled w' m.
Proof.
  intros [T C] H k c j Hk Hj. rewrite T. apply (H k c j Hk). lia.
Qed.

Lemma updateClients_loop_settled keys : forall m w dead alive,
  settled w m ->
  exists w', updateClients_loop keys m w dead alive = Ok (m, w', (dead, alive)).
Proof.
  induction keys as [| k keys IH]; intros m w dead alive Hs; cbn [updateClients_loop].
  - exists w. reflexivity.
  - destruct (clients_ m !! k) as [c |] eqn:Ek; [| apply IH; exact Hs].
    pose proof (world_step_later _ _ _ (updateActive_world c w)) as L.
    rewrite updateActive_eq in *. cbn [snd] in L. cbv beta iota zeta.
    assert (E : curr_active_at c (now_of w) = active_ c).
    { apply (Hs k c (timer_calls w) Ek). lia. }
    rewrite E, set_active_field_same, (put_client_same m k c Ek).
    destruct (active_ c); cbn [transition]; apply IH; exact (settled_later _ _ _ L Hs).
Qed.

(** X14.  When no record is due for a transition, a sweep returns the
    registry as it was: no type is allocated or released and no counter
    moves. *)
Theorem updateClients_quiet_sweep (order : gmap string ClientInfo -> list string)
    (m : ClientManager) (w : World) :
  settled w m -> exists w', updateClients order m w = Ok (m, w').
Proof.
  intros Hs. unfold updateClients.
  destruct (updateClients_loop_settled (order (clients_ m)) m w [] [] Hs) as (w' & ->).
  cbn [obind]. exists w'. reflexivity.
Qed.

Lemma updateClients_quiet_sweep_witness :
  settled (world_at 1000) two_slot_registry
  /\ exists w', updateClients entries_order two_slot_registry (world_at 1000)
                = Ok (two_slot_registry, w').
Proof.
  assert (H : settled (world_at 1000) two_slot_registry).
  { intros k c j Hk _. unfold two_slot_registry in Hk. cbn [clients_] in Hk.
    apply lookup_singleton_Some in Hk. destruct Hk as [_ <-]. vm_compute. reflexivity. }
  split; [exact H |].
  exact (updateClients_quiet_sweep entries_order two_slot_registry (world_at 1000) H).
Defined.

(** ** Records made by the registry *)

Lemma new_threads_shape d owner : forall (count first : nat) (w : World),
  length (new_threads d owner first count w).1 = count
  /\ timer_calls (new_threads d owner first count w).2 = (timer_calls w + count)%nat
  /\ timer_ (new_threads d owner first count w).2 = timer_ w
  /\ forall (i : nat) (st : State),
       (new_threads d owner first count w).1 !! i = Some st ->
       last_state_ st = d
       /\ last_state_update_ st = wrap64 (timer_ w (timer_calls w + i)%nat).
Proof.
  induction count as [| count IH]; intros first w; cbn [new_threads].
  - cbn. split; [reflexivity |]. split; [lia |]. split; [reflexivity |].
    intros i st H. discriminate H.
  - unfold State_new. cbn [getCurrTimeStamp].
    set (w1 := {| timer_ := timer_ w; timer_calls := S (timer_calls w);
                  lock_trace := lock_trace w |}).
    destruct (IH (S first) w1) as (Hl & Hc & Ht & Hs).
    destruct (new_threads d owner (S first) count w1) as [rest w2]. cbn [fst snd] in *.
    split; [cbn [length]; lia |]. split; [unfold w1 in Hc; cbn [timer_calls] in Hc; lia |]. split; [exact Ht |].
    intros [| i] st H.
    + injection H as <-. cbn [last_state_ last_state_update_].
      rewrite Nat.add_0_r. split; reflexivity.
    + change ((?x :: rest) !! S i) with (rest !! i) in H.
      destruct (Hs i st H) as (Hd & Hu). split; [exact Hd |].
      rewrite Hu. unfold w1. cbn [timer_ timer_calls]. f_equal. f_equal. lia.
Qed.

Section Lookups.

Variable d : ThreadState.
Variable order : gmap string ClientInfo -> list string.

(** What [_getClient] does for an identity without a record. *)
Lemma _getClient_fresh m id w c m' w' :
  clients_ m !! id = None ->
  _getClient d m id w = Ok (c, m', w') ->
  exists t m2,
    alloc_type (put_client m id (ClientInfo_new d id (max_num_threads (options_ m))
                                   (client_max_delay_sec (options_ m)) w).1)
    = Ok (t, m2)
    /\ c = set_type_field (ClientInfo_new d id (max_num_threads (options_ m))
                             (client_max_delay_sec (options_ m)) w).1 t
    /\ m' = put_client m2 id c
    /\ timer_calls w' = timer_calls (ClientInfo_new d id (max_num_threads (options_ m))
                                       (client_max_delay_sec (options_ m)) w).2
    /\ timer_ w' = timer_ w.
Proof.
  intros Hn. unfold _getClient. rewrite Hn.
  assert (T : timer_ (ClientInfo_new d id (max_num_threads (options_ m))
                        (client_max_delay_sec (options_ m)) w).2 = timer_ w).
  { unfold ClientInfo_new.
    destruct (new_threads_shape d id (Z.to_nat (max_num_threads (options_ m))) 0%nat w)
      as (_ & _ & Ht & _).
    destruct (new_threads d id 0 _ w) as [ths w1]. cbn [fst snd getCurrTimeStamp timer_] in *.
    exact Ht. }
  destruct (ClientInfo_new d id _ _ w) as [e w1]. cbn [fst snd] in *.
  destruct (alloc_type (put_client m id e)) as [[t m2] | |] eqn:Ea;
    cbn [obind fst snd]; try discriminate.
  unfold set_type. intros H. injection H as <- <- <-.
  exists t, m2. repeat split. exact T.
Qed.

(** X15.  [getClient] on an identity without a record files a new record
    under it: active, never served ([seq_] 0), with the configured timeout
    reduced to [uint64_t], as many thread slots as [max_num_threads] (none
    when it is not positive), each holding the default [ThreadState] and
    stamped with one reading of the timer, in order, [last_update_] being
    the reading after them.  While [n_] is 0 the record gets type 0 and no
    counter moves.  With no slot, every [stateUpdate] on the record fails
    its assertion. *)
Theorem getClient_files_a_new_record (m m' : ClientManager) (id : string)
    (w w' : World) :
  clients_ m !! id = None ->
  getClient d m id w = Ok (m', w') ->
  exists c : ClientInfo,
    clients_ m' !! id = Some c
    /\ identity_ c = id /\ active_ c = true /\ seq_ c = 0 /\ justAllocated c = true
    /\ max_delay_sec_ c = wrap64 (client_max_delay_sec (options_ m))
    /\ length (threads_ c) = Z.to_nat (max_num_threads (options_ m))
    /\ (forall (i : nat) (st : State),
          threads_ c !! i = Some st ->
          last_state_ st = d
          /\ last_state_update_ st = wrap64 (timer_ w (timer_calls w + i)%nat))
    /\ last_update_ c
       = wrap64 (timer_ w (timer_calls w + Z.to_nat (max_num_threads (options_ m)))%nat)
    /\ timer_calls w'
       = S (timer_calls w + Z.to_nat (max_num_threads (options_ m)))%nat
    /\ (n_ m = 0 ->
        type_ c = 0 /\ n_ m' = 0 /\ num_clients_ m' = num_clients_ m)
    /\ (max_num_threads (options_ m) <= 0 ->
        forall (ts : ThreadState) (w1 : World), stateUpdate c ts w1 = AssertFailed).
Proof.
  intros Hn. unfold getClient.
  destruct (_getClient d m id (lock_guard L_manager w)) as [[[c m1] w1] | |] eqn:Eg;
    cbn [obind]; try discriminate.
  intros H. injection H as <- <-.
  destruct (_getClient_fresh _ _ _ _ _ _ Hn Eg) as (t & m2 & Ea & Hc & Hm & Hcalls & _).
  revert Ea Hc Hcalls. unfold ClientInfo_new.
  destruct (new_threads_shape d id (Z.to_nat (max_num_threads (options_ m))) 0%nat
              (lock_guard L_manager w)) as (Hl & Hcl & Ht & Hs).
  destruct (new_threads d id 0 _ (lock_guard L_manager w)) as [ths w2].
  cbn [fst snd getCurrTimeStamp timer_calls] in *.
  intros Ea Hc Hcalls. exists c. subst m1.
  split; [apply put_client_lookup |]. subst c.
  cbn [set_type_field identity_ active_ seq_ max_delay_sec_ threads_ last_update_ type_].
  split; [reflexivity |]. split; [reflexivity |]. split; [reflexivity |].
  split; [reflexivity |]. split; [reflexivity |]. split; [exact Hl |].
  split; [exact Hs |].
  split; [rewrite Ht, Hcl; reflexivity |].
  split; [cbn [unlock_guard emit timer_calls]; rewrite Hcalls, Hcl; reflexivity |].
  split.
  - intros H0. destruct (alloc_type_inv _ _ _ Ea) as (_ & _ & [(-> & _ & ->) | (c & _ & _ & _ & Hne)]).
    + repeat split. exact H0.
    + exfalso. apply Hne. exact H0.
  - intros Hle ts w3. apply stateUpdate_aborts. unfold in_bounds.
    cbn [set_type_field threads_]. rewrite Hl. lia.
Qed.

(** X16.  [getClient] is a find-or-create: after it the record of the
    identity is what [getClientC] finds, a second [getClient] returns the
    same registry, the records of all other identities are those of
    before, and for an identity that already had a record the registry is
    returned as it was. *)
Theorem getClient_then_lookup (m m' : ClientManager) (id : string) (w w' : World) :
  getClient d m id w = Ok (m', w') ->
  (exists c : ClientInfo,
      clients_ m' !! id = Some c
      /\ forall w1 : World, (getClientC m' id w1).1 = Some c)
  /\ (forall w1 : World, exists w2 : World, getClient d m' id w1 = Ok (m', w2))
  /\ (forall id' : string, id' <> id -> clients_ m' !! id' = clients_ m !! id')
  /\ (forall c0 : ClientInfo, clients_ m !! id = Some c0 ->
        m' = m /\ clients_ m' !! id = Some c0).
Proof.
  unfold getClient.
  destruct (_getClient d m id (lock_guard L_manager w)) as [[[c m1] w1] | |] eqn:Eg;
    cbn [obind]; try discriminate.
  intros H. injection H as <- <-.
  assert (Hc : clients_ m1 !! id = Some c
               /\ (forall id', id' <> id -> clients_ m1 !! id' = clients_ m !! id')
               /\ (forall c0, clients_ m !! id = Some c0 -> m1 = m /\ c = c0)).
  { destruct (clients_ m !! id) as [c0 |] eqn:Ec.
    - unfold _getClient in Eg. rewrite Ec in Eg. injection Eg as <- <- _.
      split; [exact Ec |]. split; [reflexivity |].
      intros c1 H1. injection H1 as <-. split; reflexivity.
    - destruct (_getClient_fresh _ _ _ _ _ _ Ec Eg) as (t & m2 & Ea & _ & Hm & _).
      destruct (alloc_type_inv _ _ _ Ea) as (Hcl & _ & _).
      subst m1. split; [apply put_client_lookup |]. split; [| discriminate].
      intros id' Hne. cbn [put_client clients_]. rewrite Hcl. cbn [put_client clients_].
      rewrite !lookup_insert_ne by congruence. apply eq_sym. reflexivity. }
  destruct Hc as (Hc & Hother & Hold).
  split; [exists c; split; [exact Hc | intros w2; exact Hc] |].
  split.
  - intros w2. unfold _getClient. rewrite Hc. cbn [obind]. eexists. reflexivity.
  - split; [exact Hother |].
    intros c0 H0. destruct (Hold c0 H0) as (-> & ->). split; [reflexivity | exact H0].
Qed.

End Lookups.

Lemma getClient_then_lookup_witness :
  exists r : ClientManager * World,
    getClient blank_state fresh_even_registry "a" (world_at 1000) = Ok r
    /\ (exists c : ClientInfo,
           clients_ r.1 !! "a" = Some c
           /\ forall w1 : World, (getClientC r.1 "a" w1).1 = Some c)
    /\ (forall w1 : World, exists w2 : World,
           getClient blank_state r.1 "a" w1 = Ok (r.1, w2)).
Proof.
  pose (r := match getClient blank_state fresh_even_registry "a" (world_at 1000) with
             | Ok r => r
             | _ => (fresh_even_registry, world_at 1000)
             end).
  assert (H : getClient blank_state fresh_even_registry "a" (world_at 1000)
              = Ok (r.1, r.2)) by (vm_compute; reflexivity).
  destruct (getClient_then_lookup blank_state fresh_even_registry r.1 "a" (world_at 1000) r.2 H)
    as (H1 & H2 & _).
  exists r. split; [vm_compute; reflexivity |]. split; [exact H1 | exact H2].
Defined.

(** ** What every reachable registry satisfies *)

Lemma frame_shape c c' : frame c' = frame c -> shape c' = shape c.
Proof.
  unfold frame, shape. intros H. injection H as Hi _ Hm _ _ Hl. rewrite Hi, Hm, Hl.
  reflexivity.
Qed.

Lemma run_client_call_shape call c w c' w' :
  run_client_call call c w = Ok (c', w') -> shape c' = shape c.
Proof.
  destruct call as [| | t | | curr | ts | | tid]; cbn [run_client_call];
    try (intros H; injection H as <- _; reflexivity).
  - intros H. apply frame_shape. exact (stateUpdate_frame _ _ _ _ _ H).
  - rewrite updateActive_eq. intros H. injection H as <- _. reflexivity.
  - destruct (threads c tid w) as [r | |]; cbn [obind]; try discriminate.
    intros H. injection H as <- _. reflexivity.
Qed.

Lemma well_filed_put options m k c :
  well_filed options m ->
  shape c = (k, wrap64 (client_max_delay_sec options),
             Z.to_nat (max_num_threads options)) ->
  well_filed options (put_client m k c).
Proof.
  intros Hw Hs k0 c0. cbn [put_client clients_]. rewrite lookup_insert.
  case_decide as Hd.
  - intros H. injection H as <-. subst k0. unfold shape in Hs.
    injection Hs as Hi Hm Hl. repeat split; assumption.
  - apply Hw.
Qed.

Lemma well_filed_shape options m k c :
  well_filed options m -> clients_ m !! k = Some c ->
  shape c = (k, wrap64 (client_max_delay_sec options),
             Z.to_nat (max_num_threads options)).
Proof.
  intros Hw Hc. destruct (Hw k c Hc) as (Hi & Hl & Hm). unfold shape.
  rewrite Hi, Hl, Hm. reflexivity.
Qed.

Lemma well_filed_same_shapes options m m' :
  (forall id, shape <$> clients_ m' !! id = shape <$> clients_ m !! id) ->
  well_filed options m -> well_filed options m'.
Proof.
  intros K Hw k c' Hc'. specialize (K k). rewrite Hc' in K.
  destruct (clients_ m !! k) as [c |] eqn:Ec; cbn in K; [| discriminate K].
  destruct (Hw k c Ec) as (Hi & Hl & Hm). unfold shape in K.
  injection K as Ki Km Kl. repeat split; congruence.
Qed.

Lemma configured_put options m k c :
  configured options m -> configured options (put_client m k c).
Proof. intros H. exact H. Qed.

Lemma configured_counts options m m' :
  options_ m' = options_ m -> length (num_clients_ m') = length (num_clients_ m) ->
  configured options m -> configured options m'.
Proof.
  intros Ho Hl (H1 & H2 & H3 & H4). unfold configured. rewrite Ho, Hl.
  repeat split; assumption.
Qed.

Lemma alloc_type_configured options m t m' :
  alloc_type m = Ok (t, m') -> configured options m -> configured options m'.
Proof.
  intros H. destruct (alloc_type_inv m t m' H)
    as (_ & Ho & [(-> & _) | (c & _ & Hcounts & _)]); [tauto |].
  apply configured_counts; [exact Ho |]. rewrite Hcounts. apply length_insert.
Qed.

Lemma dealloc_type_configured options m t m' :
  dealloc_type m t = Ok m' -> configured options m -> configured options m'.
Proof.
  intros H. destruct (dealloc_type_inv m t m' H) as (_ & Ho & c & _ & Hcounts & _).
  apply configured_counts; [exact Ho |]. rewrite Hcounts. apply length_insert.
Qed.

Lemma updateClients_loop_configured options keys : forall m w dead alive m' w' r,
  updateClients_loop keys m w dead alive = Ok (m', w', r) ->
  configured options m -> configured options m'.
Proof.
  induction keys as [| k keys IH]; intros m w dead alive m' w' r H Hc;
    cbn [updateClients_loop] in H.
  - injection H as <- _ _. exact Hc.
  - destruct (clients_ m !! k) as [c |]; [| exact (IH _ _ _ _ _ _ _ H Hc)].
    rewrite updateActive_eq in H. cbv beta iota zeta in H.
    destruct (transition (active_ c) (curr_active_at c (now_of w))).
    + destruct (type _ _) as [t w2].
      destruct (dealloc_type _ t) as [m2 | |] eqn:Ed; cbn [obind] in H;
        try discriminate H.
      apply (IH _ _ _ _ _ _ _ H).
      exact (dealloc_type_configured _ _ _ _ Ed (configured_put _ m k _ Hc)).
    + destruct (alloc_type _) as [[t m2] | |] eqn:Ea; cbn [obind fst snd] in H;
        try discriminate H.
      destruct (set_type _ t _) as [c2 w2].
      apply (IH _ _ _ _ _ _ _ H). apply configured_put.
      exact (alloc_type_configured _ _ _ _ Ea (configured_put _ m k _ Hc)).
    + exact (IH _ _ _ _ _ _ _ H (configured_put _ m k _ Hc)).
    + exact (IH _ _ _ _ _ _ _ H (configured_put _ m k _ Hc)).
Qed.

Lemma union_known (X : gset string) (k : string) : k ∈ X -> X ∪ {[ k ]} = X.
Proof.
  intros H. apply set_eq. intros x. rewrite elem_of_union, elem_of_singleton.
  split; [intros [Hx | ->]; assumption | intros Hx; left; exact Hx].
Qed.

Section Reachable.

Variable d : ThreadState.
Variable order : gmap string ClientInfo -> list string.
Variable options : ClientManagerOptions.

Lemma updateClients_settled_shape m w m' w' :
  updateClients order m w = Ok (m', w') ->
  configured options m /\ well_filed options m ->
  configured options m' /\ well_filed options m'.
Proof.
  unfold updateClients.
  destruct (updateClients_loop _ m w [] []) as [[[m1 w1] [dead alive]] | |] eqn:El;
    cbn [obind]; try discriminate.
  intros H [Hc Hw].
  assert (Hm : m' = m1) by (destruct dead, alive; injection H as <- _; reflexivity).
  subst m'. split.
  - exact (updateClients_loop_configured _ _ _ _ _ _ _ _ _ El Hc).
  - apply (well_filed_same_shapes options m m1); [| exact Hw].
    exact (updateClients_loop_preserves shape ltac:(reflexivity) ltac:(reflexivity)
             _ _ _ _ _ _ _ _ El).
Qed.

Lemma _getClient_settled_shape m id w c m' w' :
  _getClient d m id w = Ok (c, m', w') ->
  configured options m /\ well_filed options m ->
  (configured options m' /\ well_filed options m')
  /\ clients_ m' !! id = Some c.
Proof.
  intros H [Hc Hw]. destruct (clients_ m !! id) as [c0 |] eqn:Ec.
  - unfold _getClient in H. rewrite Ec in H. injection H as <- <- _.
    split; [split; assumption | exact Ec].
  - destruct (_getClient_fresh d _ _ _ _ _ _ Ec H) as (t & m2 & Ea & Hce & Hm & _).
    subst m'. split; [| apply put_client_lookup]. split.
    + apply configured_put.
      exact (alloc_type_configured _ _ _ _ Ea (configured_put _ m id _ Hc)).
    + destruct (alloc_type_inv _ _ _ Ea) as (Hcl & _ & _).
      destruct Hc as (_ & Hth & Hdl & _).
      assert (Hs : shape c = (id, wrap64 (client_max_delay_sec options),
                              Z.to_nat (max_num_threads options))).
      { subst c. unfold ClientInfo_new.
        destruct (new_threads_shape d id (Z.to_nat (max_num_threads (options_ m))) 0%nat w)
          as (Hl & _).
        destruct (new_threads d id 0 _ w) as [ths w1]. cbn [fst snd getCurrTimeStamp] in *.
        unfold shape. cbn [set_type_field identity_ max_delay_sec_ threads_].
        rewrite Hl, Hth, Hdl. reflexivity. }
      intros k c1. cbn [put_client clients_]. rewrite Hcl. cbn [put_client clients_].
      rewrite !lookup_insert. case_decide as Hd.
      * intros H1. injection H1 as <-. subst k. unfold shape in Hs.
        injection Hs as Hi Hmx Hl. repeat split; assumption.
      * apply Hw.
Qed.

Lemma run_op_settled_shape o m w m' w' :
  run_op d order o m w = Ok (m', w') ->
  configured options m /\ well_filed options m ->
  configured options m' /\ well_filed options m'.
Proof.
  destruct o as [ratio | id states | id | id | | | id call]; cbn [run_op];
    try (intros H; injection H as <- _; tauto).
  - unfold updateStates.
    destruct (_getClient d m id _) as [[[c m1] w1] | |] eqn:Eg; cbn [obind];
      try discriminate.
    destruct (updateStates_loop states c w1) as [[c2 w2] | |] eqn:El; cbn [obind];
      try discriminate.
    destruct (updateClients order (put_client m1 id c2) w2) as [[m3 w3] | |] eqn:Eu;
      cbn [obind]; try discriminate.
    intros H I. injection H as <- _.
    destruct (_getClient_settled_shape _ _ _ _ _ _ Eg I) as ([Hc Hw] & Hid).
    apply (updateClients_settled_shape _ _ _ _ Eu). split.
    + apply configured_put. exact Hc.
    + apply well_filed_put; [exact Hw |].
      rewrite (frame_shape _ _ (updateStates_loop_frame _ _ _ _ _ El)).
      exact (well_filed_shape options m1 id c Hw Hid).
  - unfold getClient.
    destruct (_getClient d m id _) as [[[c m1] w1] | |] eqn:Eg; cbn [obind];
      try discriminate.
    intros H I. injection H as <- _.
    exact (proj1 (_getClient_settled_shape _ _ _ _ _ _ Eg I)).
  - destruct (clients_ m !! id) as [c |] eqn:Ec.
    + destruct (run_client_call call c w) as [[c1 w1] | |] eqn:Er; cbn [obind fst snd];
        try discriminate.
      intros H [Hc Hw]. injection H as <- _. split; [exact Hc |].
      apply well_filed_put; [exact Hw |].
      rewrite (run_client_call_shape _ _ _ _ _ Er).
      exact (well_filed_shape options m id c Hw Ec).
    + intros H. injection H as <- _. tauto.
Qed.

Lemma run_ops_settled_shape ops : forall m w m' w',
  run_ops d order ops m w = Ok (m', w') ->
  configured options m /\ well_filed options m ->
  configured options m' /\ well_filed options m'.
Proof.
  induction ops as [| o ops IH]; intros m w m' w'; cbn [run_ops].
  - intros H. injection H as <- _. tauto.
  - destruct (run_op d order o m w) as [[m1 w1] | |] eqn:Eo; cbn [obind fst snd];
      try discriminate.
    intros H I. exact (IH _ _ _ _ H (run_op_settled_shape _ _ _ _ _ Eo I)).
Qed.

Lemma ClientManager_new_settled_shape m0 :
  ClientManager_new options = Ok m0 ->
  (configured options m0 /\ well_filed options m0)
  /\ length (client_type_ratios options) = length (client_type_limits options)
  /\ counted m0.
Proof.
  unfold ClientManager_new. case_bool_decide as Hb; cbn [assert obind]; try discriminate.
  intros H. injection H as <-. split; [split |].
  - unfold configured. cbn [options_ num_clients_]. rewrite length_replicate.
    repeat split. exact Hb.
  - intros k c. cbn [clients_]. rewrite lookup_empty. discriminate.
  - split; [exact Hb |]. unfold counted, sum_counts. cbn [n_ num_clients_].
    split; [| lia]. clear Hb. induction (length _) as [| k IH]; cbn; [reflexivity | exact IH].
Qed.

(** X17.  In every registry reached from its construction by public calls,
    each record is filed under its own identity, has as many thread slots
    as [max_num_threads] of the options given to the constructor, and the
    timeout of those options: no call renames a record, resizes
    [threads_] or changes [max_delay_sec_]. *)
Theorem records_keep_identity_slots_and_timeout (ops : list op)
    (m0 m : ClientManager) (w0 w : World) :
  ClientManager_new options = Ok m0 ->
  run_ops d order ops m0 w0 = Ok (m, w) ->
  forall (k : string) (c : ClientInfo),
    clients_ m !! k = Some c ->
    identity_ c = k
    /\ length (threads_ c) = Z.to_nat (max_num_threads options)
    /\ max_delay_sec_ c = wrap64 (client_max_delay_sec options).
Proof.
  intros Hnew Hrun.
  destruct (ClientManager_new_settled_shape m0 Hnew) as (I0 & _).
  exact (proj2 (run_ops_settled_shape _ _ _ _ _ Hrun I0)).
Qed.

(** X18.  In every registry reached from its construction by public calls,
    the limits, [max_num_threads] and the timeout are those given to the
    constructor, and [num_clients_] has one counter per ratio given to the
    constructor: only [setClientTypeRatio] changes the options, and only
    the ratios, whose number it may change while [num_clients_] stays as
    long as it was. *)
Theorem only_the_ratios_are_reconfigured (ops : list op)
    (m0 m : ClientManager) (w0 w : World) :
  ClientManager_new options = Ok m0 ->
  run_ops d order ops m0 w0 = Ok (m, w) ->
  client_type_limits (options_ m) = client_type_limits options
  /\ max_num_threads (options_ m) = max_num_threads options
  /\ client_max_delay_sec (options_ m) = client_max_delay_sec options
  /\ length (num_clients_ m) = length (client_type_ratios options)
  /\ forall (ratio : list float) (w1 : World),
       num_clients_ (setClientTypeRatio m ratio w1).1 = num_clients_ m
       /\ (sized (setClientTypeRatio m ratio w1).1
           <-> length ratio = length (client_type_ratios options)).
Proof.
  intros Hnew Hrun.
  destruct (ClientManager_new_settled_shape m0 Hnew) as (I0 & Hlen & _).
  destruct (proj1 (run_ops_settled_shape _ _ _ _ _ Hrun I0)) as (H1 & H2 & H3 & H4).
  split; [exact H1 |]. split; [exact H2 |]. split; [exact H3 |].
  split; [congruence |].
  intros ratio w1. split; [reflexivity |].
  unfold sized, setClientTypeRatio.
  cbn [fst set_ratios options_ num_clients_ client_type_ratios client_type_limits].
  rewrite H1, H4, Hlen. split; [intros [E _]; exact E | intros E; split; [exact E | reflexivity]].
Qed.

Lemma run_ops_counted ops : forall m w m' w',
  run_ops d order ops m w = Ok (m', w') -> counted m -> counted m'.
Proof.
  induction ops as [| o ops IH]; intros m w m' w'; cbn [run_ops].
  - intros H. injection H as <- _. tauto.
  - destruct (run_op d order o m w) as [[m1 w1] | |] eqn:Eo; cbn [obind fst snd];
      try discriminate.
    intros H I. exact (IH _ _ _ _ H (run_op_counted _ _ _ _ _ _ _ Eo I)).
Qed.

(** X19.  In every registry reached from its construction by public calls,
    [info] lists no type: its rows are written only when [n_ > 0], and
    [n_] is never positive.  In a registry with [n_ > 0] it would list one
    row per counter. *)
Theorem info_lists_no_type (ops : list op) (m0 m : ClientManager) (w0 w : World) :
  ClientManager_new options = Ok m0 ->
  run_ops d order ops m0 w0 = Ok (m, w) ->
  (forall w1 : World, (info m w1).1 = [])
  /\ forall (m1 : ClientManager) (w1 : World),
       0 < n_ m1 -> length (info m1 w1).1 = length (num_clients_ m1).
Proof.
  intros Hnew Hrun.
  destruct (ClientManager_new_settled_shape m0 Hnew) as (_ & _ & C0).
  destruct (run_ops_counted _ _ _ _ _ Hrun C0) as [_ Hn].
  split.
  - intros w1. unfold info. cbn [fst]. rewrite bool_decide_eq_false_2 by lia. reflexivity.
  - intros m1 w1 Hp. unfold info. cbn [fst]. rewrite bool_decide_eq_true_2 by exact Hp.
    apply length_imap.
Qed.

Lemma _getClient_dom m id w c m' w' :
  _getClient d m id w = Ok (c, m', w') ->
  dom (clients_ m') = dom (clients_ m) ∪ {[ id ]} /\ clients_ m' !! id = Some c.
Proof.
  intros H. destruct (clients_ m !! id) as [c0 |] eqn:Ec.
  - unfold _getClient in H. rewrite Ec in H. injection H as <- <- _.
    split; [| exact Ec]. apply eq_sym, union_known. exact (elem_of_dom_2 _ _ _ Ec).
  - destruct (_getClient_fresh d _ _ _ _ _ _ Ec H) as (t & m2 & Ea & _ & -> & _).
    destruct (alloc_type_inv _ _ _ Ea) as (Hcl & _ & _).
    split; [| apply put_client_lookup].
    cbn [put_client clients_]. rewrite Hcl. cbn [put_client clients_].
    rewrite insert_insert_eq, dom_insert_L. apply (comm_L (∪)).
Qed.

Lemma put_client_dom m k c c0 :
  clients_ m !! k = Some c0 -> dom (clients_ (put_client m k c)) = dom (clients_ m).
Proof.
  intros H. cbn [put_client clients_]. rewrite dom_insert_L, (comm_L (∪)).
  apply union_known. exact (elem_of_dom_2 _ _ _ H).
Qed.

Lemma run_op_dom o m w m' w' :
  run_op d order o m w = Ok (m', w') ->
  dom (clients_ m') = dom (clients_ m) ∪ added o.
Proof.
  destruct o as [ratio | id states | id | id | | | id call]; cbn [run_op added];
    try (intros H; injection H as <- _; apply eq_sym, union_empty_r_L).
  - unfold updateStates.
    destruct (_getClient d m id _) as [[[c m1] w1] | |] eqn:Eg; cbn [obind];
      try discriminate.
    destruct (updateStates_loop states c w1) as [[c2 w2] | |] eqn:El; cbn [obind];
      try discriminate.
    destruct (updateClients order (put_client m1 id c2) w2) as [[m3 w3] | |] eqn:Eu;
      cbn [obind]; try discriminate.
    intros H. injection H as <- _.
    destruct (_getClient_dom _ _ _ _ _ _ Eg) as (Hd & Hid).
    rewrite (updateClients_dom _ _ _ _ _ Eu), (put_client_dom m1 id c2 c Hid). exact Hd.
  - unfold getClient.
    destruct (_getClient d m id _) as [[[c m1] w1] | |] eqn:Eg; cbn [obind];
      try discriminate.
    intros H. injection H as <- _. exact (proj1 (_getClient_dom _ _ _ _ _ _ Eg)).
  - destruct (clients_ m !! id) as [c |] eqn:Ec.
    + destruct (run_client_call call c w) as [[c1 w1] | |]; cbn [obind fst snd];
        try discriminate.
      intros H. injection H as <- _. rewrite (put_client_dom m id c1 c Ec).
      apply eq_sym, union_empty_r_L.
    + intros H. injection H as <- _. apply eq_sym, union_empty_r_L.
Qed.

(** X20.  No call removes a record, and only [updateStates] and
    [getClient] add one: after any run of public calls that returns, the
    identities with a record are those of before together with those the
    run passed to [updateStates] or [getClient]. *)
Theorem records_are_added_never_removed (ops : list op)
    (m m' : ClientManager) (w w' : World) :
  run_ops d order ops m w = Ok (m', w') ->
  dom (clients_ m') = dom (clients_ m) ∪ added_by ops.
Proof.
  revert m w. induction ops as [| o ops IH]; intros m w; cbn [run_ops].
  - intros H. injection H as <- _. apply eq_sym, union_empty_r_L.
  - destruct (run_op d order o m w) as [[m1 w1] | |] eqn:Eo; cbn [obind fst snd];
      try discriminate.
    intros H. rewrite (IH _ _ H), (run_op_dom _ _ _ _ _ Eo).
    unfold added_by. cbn [fmap list_fmap union_list]. apply eq_sym, (assoc_L (∪)).
Qed.

End Reachable.

(** ** The flags after a sweep *)

(** One turn of the loop of [updateClients]. *)
Lemma updateClients_loop_turn k keys m w dead alive c m' w' r :
  clients_ m !! k = Some c ->
  updateClients_loop (k :: keys) m w dead alive = Ok (m', w', r) ->
  exists c1 m1 w1 dead1 alive1,
    updateClients_loop keys m1 w1 dead1 alive1 = Ok (m', w', r)
    /\ clients_ m1 = <[k := c1]> (clients_ m)
    /\ active_ c1 = curr_active_at c (now_of w)
    /\ timer_ w1 = timer_ w
    /\ timer_calls w1 = S (timer_calls w).
Proof.
  intros Ek H. cbn [updateClients_loop] in H. rewrite Ek in H.
  rewrite updateActive_eq in H. cbv beta iota zeta in H.
  set (c1 := set_active_field c (curr_active_at c (now_of w))) in *.
  set (w1 := unlock_guard (mutex_ c) (getCurrTimeStamp (lock_guard (mutex_ c) w)).2) in *.
  destruct (transition (active_ c) (curr_active_at c (now_of w))).
  - destruct (dealloc_type (put_client m k c1) (type c1 w1).1) as [m2 | |] eqn:Ed;
      rewrite (surjective_pairing (type c1 w1)) in H; rewrite Ed in H;
      cbn [obind] in H; try discriminate H.
    destruct (dealloc_type_inv _ _ _ Ed) as (Hc & _).
    exists c1, m2, (type c1 w1).2, (dead ++ [k]), alive.
    split; [exact H |]. split; [exact Hc |]. repeat split.
  - destruct (alloc_type (put_client m k c1)) as [[t m2] | |] eqn:Ea;
      cbn [obind fst snd] in H; try discriminate H.
    destruct (alloc_type_inv _ _ _ Ea) as (Hc & _).
    unfold set_type in H.
    exists (set_type_field c1 t), (put_client m2 k (set_type_field c1 t)),
      (unlock_guard (mutex_ c1) (lock_guard (mutex_ c1) w1)), dead, (alive ++ [k]).
    split; [exact H |]. split; [| repeat split].
    cbn [put_client clients_]. rewrite Hc. cbn [put_client clients_].
    apply insert_insert_eq.
  - exists c1, (put_client m k c1), w1, dead, alive. repeat split. exact H.
  - exists c1, (put_client m k c1), w1, dead, alive. repeat split. exact H.
Qed.

Lemma updateClients_loop_flags keys : forall m w dead alive m' w' r,
  NoDup keys ->
  (forall k, k ∈ keys -> is_Some (clients_ m !! k)) ->
  updateClients_loop keys m w dead alive = Ok (m', w', r) ->
  timer_calls w' = (timer_calls w + length keys)%nat
  /\ (forall k, k ∉ keys -> clients_ m' !! k = clients_ m !! k)
  /\ forall (i : nat) (k : string) (c : ClientInfo),
       keys !! i = Some k -> clients_ m !! k = Some c ->
       exists c', clients_ m' !! k = Some c'
                  /\ active_ c'
                     = curr_active_at c (wrap64 (timer_ w (timer_calls w + i)%nat)).
Proof.
  induction keys as [| k keys IH]; intros m w dead alive m' w' r Hnd Hall H.
  - cbn [updateClients_loop] in H. injection H as <- <- _.
    split; [cbn [length]; lia |]. split; [reflexivity |].
    intros i k c Hk. discriminate Hk.
  - apply NoDup_cons in Hnd. destruct Hnd as [Hk Hnd].
    destruct (Hall k ltac:(left)) as [c Ec].
    destruct (updateClients_loop_turn _ _ _ _ _ _ _ _ _ _ Ec H)
      as (c1 & m1 & w1 & dead1 & alive1 & H1 & Hcl & Hact & Ht & Hn).
    assert (Hall1 : forall k0, k0 ∈ keys -> is_Some (clients_ m1 !! k0)).
    { intros k0 Hk0. rewrite Hcl, lookup_insert_ne by (intros ->; exact (Hk Hk0)).
      apply Hall. right. exact Hk0. }
    destruct (IH _ _ _ _ _ _ _ Hnd Hall1 H1) as (Hcalls & Hout & Hin).
    split; [rewrite Hcalls, Hn; cbn [length]; lia |]. split.
    + intros k0 Hk0. apply not_elem_of_cons in Hk0. destruct Hk0 as [Hne Hk0].
      rewrite (Hout k0 Hk0), Hcl. apply lookup_insert_ne. congruence.
    + intros [| i] k0 c0 Hi Hc0.
      * injection Hi as <-. rewrite Ec in Hc0. injection Hc0 as <-.
        exists c1. split; [rewrite (Hout k Hk), Hcl; apply lookup_insert_eq |].
        rewrite Hact, Nat.add_0_r. reflexivity.
      * change ((k :: keys) !! S i) with (keys !! i) in Hi.
        assert (Hne : k <> k0).
        { intros ->. apply Hk. exact (list_elem_of_lookup_2 _ _ _ Hi). }
        assert (Hc1 : clients_ m1 !! k0 = Some c0).
        { rewrite Hcl, lookup_insert_ne by exact Hne. exact Hc0. }
        destruct (Hin i k0 c0 Hi Hc1) as (c' & Hc' & Ha).
        exists c'. split; [exact Hc' |]. rewrite Ha, Ht, Hn. f_equal. f_equal. f_equal. lia.
Qed.

(** X21.  When the loop of a sweep visits every identity once, the i-th
    record it visits ends with [active_] equal to the verdict
    [now - last_update_ < max_delay_sec_] at the i-th reading the sweep
    takes of the timer: one reading per record, whatever the flag was
    before. *)
Theorem updateClients_sets_every_flag (order : gmap string ClientInfo -> list string)
    (m m' : ClientManager) (w w' : World) :
  order (clients_ m) ≡ₚ (map_to_list (clients_ m)).*1 ->
  updateClients order m w = Ok (m', w') ->
  forall (k : string) (c : ClientInfo),
    clients_ m !! k = Some c ->
    exists (i : nat) (c' : ClientInfo),
      order (clients_ m) !! i = Some k
      /\ clients_ m' !! k = Some c'
      /\ active_ c' = curr_active_at c (wrap64 (timer_ w (timer_calls w + i)%nat))
      /\ (timer_calls w + length (order (clients_ m)) <= timer_calls w')%nat.
Proof.
  intros Hp. unfold updateClients.
  destruct (updateClients_loop _ m w [] []) as [[[m1 w1] [dead alive]] | |] eqn:El;
    cbn [obind]; try discriminate.
  intros H k c Hc.
  assert (Hm : m' = m1 /\ (timer_calls w1 <= timer_calls w')%nat).
  { destruct dead, alive; injection H as <- <-; split; try reflexivity;
      cbn [getCurrTimeStamp snd timer_calls]; lia. }
  destruct Hm as [-> Hle].
  assert (Hnd : NoDup (order (clients_ m))).
  { rewrite Hp. apply NoDup_fst_map_to_list. }
  assert (Hall : forall k0, k0 ∈ order (clients_ m) -> is_Some (clients_ m !! k0)).
  { intros k0. rewrite Hp. intros Hin. apply list_elem_of_fmap in Hin.
    destruct Hin as ([k1 c1] & -> & Hin). apply elem_of_map_to_list in Hin.
    exists c1. exact Hin. }
  destruct (updateClients_loop_flags _ _ _ _ _ _ _ _ Hnd Hall El) as (Hcalls & _ & Hin).
  assert (Hk : k ∈ order (clients_ m)).
  { rewrite Hp. apply list_elem_of_fmap. exists (k, c). split; [reflexivity |].
    apply elem_of_map_to_list. exact Hc. }
  apply list_elem_of_lookup_1 in Hk. destruct Hk as [i Hi].
  destruct (Hin i k c Hi Hc) as (c' & Hc' & Ha).
  exists i, c'. split; [exact Hi |]. split; [exact Hc' |]. split; [exact Ha | lia].
Qed.

Lemma updateClients_sets_every_flag_witness :
  entries_order (clients_ two_slot_registry)
    ≡ₚ (map_to_list (clients_ two_slot_registry)).*1
  /\ exists r : ClientManager * World,
       updateClients entries_order two_slot_registry (world_at 2000) = Ok r
       /\ exists (i : nat) (c' : ClientInfo),
            entries_order (clients_ two_slot_registry) !! i = Some "a"
            /\ clients_ r.1 !! "a" = Some c'
            /\ active_ c' = curr_active_at two_slot_client 2000.
Proof.
  assert (Hp : entries_order (clients_ two_slot_registry)
                 ≡ₚ (map_to_list (clients_ two_slot_registry)).*1) by reflexivity.
  split; [exact Hp |].
  pose (r := match updateClients entries_order two_slot_registry (world_at 2000) with
             | Ok r => r
             | _ => (two_slot_registry, world_at 2000)
             end).
  assert (H : updateClients entries_order two_slot_registry (world_at 2000)
              = Ok (r.1, r.2)) by (vm_compute; reflexivity).
  assert (Hc : clients_ two_slot_registry !! "a" = Some two_slot_client)
    by (vm_compute; reflexivity).
  destruct (updateClients_sets_every_flag entries_order two_slot_registry r.1
              (world_at 2000) r.2 Hp H "a" two_slot_client Hc)
    as (i & c' & Hi & Hc' & Ha & _).
  exists r. split; [vm_compute; reflexivity |].
  exists i, c'. split; [exact Hi |]. split; [exact Hc' | exact Ha].
Defined.

(** ** Runs that exercise the properties above *)

Lemma four_heartbeats_run :
  run_ops blank_state entries_order four_heartbeats fresh_tight_registry jump_world
  = Ok (after_four_heartbeats.1, after_four_heartbeats.2).
Proof. vm_compute. reflexivity. Qed.

Lemma updateClients_changes_type_and_flag_only_witness :
  updateClients entries_order two_slot_registry (world_at 2000) = Ok after_timeout
  /\ dom (clients_ after_timeout.1) = dom (clients_ two_slot_registry)
  /\ options_ after_timeout.1 = options_ two_slot_registry
  /\ forall (id : string) (c : ClientInfo),
       clients_ two_slot_registry !! id = Some c ->
       exists c', clients_ after_timeout.1 !! id = Some c' /\ core c' = core c.
Proof.
  assert (H : updateClients entries_order two_slot_registry (world_at 2000)
              = Ok (after_timeout.1, after_timeout.2)) by (vm_compute; reflexivity).
  split; [vm_compute; reflexivity |].
  exact (updateClients_changes_type_and_flag_only entries_order two_slot_registry
           after_timeout.1 (world_at 2000) after_timeout.2 H).
Defined.

Lemma getClient_files_a_new_record_witness :
  clients_ fresh_even_registry !! "a" = None
  /\ getClient blank_state fresh_even_registry "a" (world_at 1000)
     = Ok after_first_getClient
  /\ exists c : ClientInfo,
       clients_ after_first_getClient.1 !! "a" = Some c
       /\ identity_ c = "a" /\ active_ c = true /\ seq_ c = 0
       /\ length (threads_ c) = 1%nat
       /\ type_ c = 0 /\ n_ after_first_getClient.1 = 0.
Proof.
  assert (Hn : clients_ fresh_even_registry !! "a" = None) by reflexivity.
  assert (H : getClient blank_state fresh_even_registry "a" (world_at 1000)
              = Ok (after_first_getClient.1, after_first_getClient.2))
    by (vm_compute; reflexivity).
  split; [exact Hn |]. split; [vm_compute; reflexivity |].
  destruct (getClient_files_a_new_record blank_state fresh_even_registry
              after_first_getClient.1 "a" (world_at 1000) after_first_getClient.2 Hn H)
    as (c & Hc & Hi & Ha & Hs & _ & _ & Hl & _ & _ & _ & Ht & _).
  destruct (Ht eq_refl) as (Ht0 & Hn0 & _).
  exists c. repeat split; assumption.
Defined.

Lemma records_keep_identity_slots_and_timeout_witness :
  ClientManager_new tight_options = Ok fresh_tight_registry
  /\ run_ops blank_state entries_order four_heartbeats fresh_tight_registry jump_world
     = Ok after_four_heartbeats
  /\ forall (k : string) (c : ClientInfo),
       clients_ after_four_heartbeats.1 !! k = Some c ->
       identity_ c = k
       /\ length (threads_ c) = Z.to_nat (max_num_threads tight_options)
       /\ max_delay_sec_ c = wrap64 (client_max_delay_sec tight_options).
Proof.
  split; [reflexivity |]. split; [vm_compute; reflexivity |].
  exact (records_keep_identity_slots_and_timeout blank_state entries_order tight_options
           four_heartbeats fresh_tight_registry after_four_heartbeats.1
           jump_world after_four_heartbeats.2 eq_refl four_heartbeats_run).
Defined.

Lemma only_the_ratios_are_reconfigured_witness :
  ClientManager_new tight_options = Ok fresh_tight_registry
  /\ run_ops blank_state entries_order four_heartbeats fresh_tight_registry jump_world
     = Ok after_four_heartbeats
  /\ client_type_limits (options_ after_four_heartbeats.1) = [100; 1]
  /\ length (num_clients_ after_four_heartbeats.1) = 2%nat.
Proof.
  split; [reflexivity |]. split; [vm_compute; reflexivity |].
  destruct (only_the_ratios_are_reconfigured blank_state entries_order tight_options
              four_heartbeats fresh_tight_registry after_four_heartbeats.1
              jump_world after_four_heartbeats.2 eq_refl four_heartbeats_run)
    as (H1 & _ & _ & H4 & _).
  split; [exact H1 | exact H4].
Defined.

Lemma info_lists_no_type_witness :
  ClientManager_new tight_options = Ok fresh_tight_registry
  /\ run_ops blank_state entries_order four_heartbeats fresh_tight_registry jump_world
     = Ok after_four_heartbeats
  /\ forall w1 : World, (info after_four_heartbeats.1 w1).1 = [].
Proof.
  split; [reflexivity |]. split; [vm_compute; reflexivity |].
  exact (proj1 (info_lists_no_type blank_state entries_order tight_options
                  four_heartbeats fresh_tight_registry after_four_heartbeats.1
                  jump_world after_four_heartbeats.2 eq_refl four_heartbeats_run)).
Defined.

Lemma records_are_added_never_removed_witness :
  run_ops blank_state entries_order four_heartbeats fresh_tight_registry jump_world
  = Ok after_four_heartbeats
  /\ dom (clients_ after_four_heartbeats.1)
     = dom (clients_ fresh_tight_registry) ∪ added_by four_heartbeats.
Proof.
  split; [vm_compute; reflexivity |].
  exact (records_are_added_never_removed blank_state entries_order four_heartbeats
           fresh_tight_registry after_four_heartbeats.1
           jump_world after_four_heartbeats.2 four_heartbeats_run).
Defined.

Lemma counters_sum_and_sign_witness :
  ClientManager_new tight_options = Ok fresh_tight_registry
  /\ run_ops blank_state entries_order four_heartbeats fresh_tight_registry jump_world
     = Ok after_four_heartbeats
  /\ n_ after_four_heartbeats.1 = sum_counts after_four_heartbeats.1
  /\ n_ after_four_heartbeats.1 <= 0.
Proof.
  split; [reflexivity |]. split; [vm_compute; reflexivity |].
  exact (counters_sum_and_sign blank_state entries_order tight_options
           four_heartbeats fresh_tight_registry jump_world
           after_four_heartbeats.1 after_four_heartbeats.2 eq_refl four_heartbeats_run).
Defined.
